(** * Beam profiler: a shallow embedding of [beam_profiler_v1.2.py]

    The development follows the Python source function by function.

    - numpy integer arrays ([get_image] returns [astype('int')]) are lists of
      rows of [Z]; pixel values are bytes and every sum stays far below the
      64-bit range, so no wrap-around is written out;
    - numpy [float64] values are the kernel's binary64 floats ([PrimFloat]),
      so that products, quotients and the division by zero behave as they do
      in IEEE 754 arithmetic;
    - the AOI coordinates are Python numbers (integers at start-up, the finite
      floats of matplotlib's view limits afterwards): they are rationals [Q],
      and [int(...)] is truncation towards zero;
    - an exception is a value of [exn]; code that mutates [self] and may raise
      lives in a state-and-exception monad whose state survives a raise, as
      the attributes of a Python object do;
    - [scipy.optimize.curve_fit] and [numpy.exp] are external: they are
      variables of the sections that need them;
    - the exposure [0.037 * 10 ** (value / 23)] is given twice: as the real
      number it denotes, and as the binary64 computation with the C
      library's [pow] as a parameter; the last part of the file bounds the
      distance between the two. *)

From Stdlib Require Import String Ascii ZArith List Bool Arith Lia.
From Stdlib Require Import QArith Qround Reals Lra.
From Stdlib Require Import PrimFloat Uint63.
From Stdlib.Strings Require Byte.
From Stdlib Require SpecFloat FloatOps FloatAxioms.
Import ListNotations.

Set Warnings "-inexact-float".
Set Implicit Arguments.

(* ================================================================== *)
(** ** Exceptions and results *)

Inductive exn : Type :=
| ValueError      (* numpy: reduction over a zero-size array, shape mismatch *)
| IndexError      (* index out of bounds *)
| FitFailure (code : Z).  (* whatever [curve_fit] raises; the code names it *)

Inductive result (A : Type) : Type :=
| Ok (a : A)
| Raise (e : exn).
Arguments Ok {A} a.
Arguments Raise {A} e.

Definition rbind {A B} (r : result A) (k : A -> result B) : result B :=
  match r with
  | Ok a => k a
  | Raise e => Raise e
  end.

Declare Scope result_scope.
Delimit Scope result_scope with res.
Notation "x <- r ;; k" := (rbind r (fun x => k))
  (at level 61, r at next level, right associativity) : result_scope.
Notation "' pat <- r ;; k" := (rbind r (fun x => match x with pat => k end))
  (at level 61, pat pattern, r at next level, right associativity) : result_scope.

(* ================================================================== *)
(** ** Python sequences *)

Module Py.

(** The index adjustment CPython performs on one bound of [a[lo:hi]]
    (step 1): a negative bound counts from the end, and the outcome is
    clamped to [0, n]. *)
Definition adjust_index (i : Z) (n : nat) : nat :=
  let zn := Z.of_nat n in
  if (i <? 0)%Z
  then (if (i + zn <? 0)%Z then 0%nat else Z.to_nat (i + zn))
  else (if (zn <=? i)%Z then n else Z.to_nat i).

(** Number of elements of [a[lo:hi]] over a sequence of length [n]. *)
Definition slice_len (lo hi : Z) (n : nat) : nat :=
  adjust_index hi n - adjust_index lo n.

(** [a[lo:hi]] *)
Definition slice {A} (lo hi : Z) (l : list A) : list A :=
  let n := List.length l in
  firstn (slice_len lo hi n) (skipn (adjust_index lo n) l).

(** [a[lo:]] and [a[:hi]] *)
Definition slice_from {A} (lo : Z) (l : list A) : list A :=
  slice lo (Z.of_nat (List.length l)) l.
Definition slice_to {A} (hi : Z) (l : list A) : list A :=
  slice 0 hi l.

(** [a[i]] for a non-negative index: [IndexError] out of range. *)
Definition getitem {A} (l : list A) (i : nat) : result A :=
  match nth_error l i with
  | Some x => Ok x
  | None => Raise IndexError
  end.

(** [a[0] = v]: [IndexError] on an empty sequence. *)
Definition setitem0 {A} (l : list A) (v : A) : result (list A) :=
  match l with
  | [] => Raise IndexError
  | _ :: t => Ok (v :: t)
  end.

(** [np.roll(a, shift)] on a one-dimensional array, [shift >= 0]: the element
    at index [i] moves to index [(i + shift) mod n]. *)
Definition np_roll {A} (l : list A) (shift : nat) : list A :=
  let n := List.length l in
  match n with
  | O => l
  | _ => let s := (shift mod n)%nat in
         skipn (n - s) l ++ firstn (n - s) l
  end.

(** [np.arange(n)] *)
Definition arange (n : nat) : list Z := map Z.of_nat (seq 0 n).

(** [np.zeros(n)] as a float array *)
Definition zeros (n : nat) : list float := repeat 0%float n.

(** [a.max()] of an integer array: [ValueError] on a zero-size array. *)
Definition np_max (l : list Z) : result Z :=
  match l with
  | [] => Raise ValueError
  | x :: t => Ok (fold_left Z.max t x)
  end.

(** [np.argmax] scan: the first index holding the largest value. *)
Fixpoint argmax_from (best : Z) (besti i : nat) (l : list Z) : nat :=
  match l with
  | [] => besti
  | x :: t => if (best <? x)%Z then argmax_from x i (S i) t
              else argmax_from best besti (S i) t
  end.

Definition np_argmax (l : list Z) : result nat :=
  match l with
  | [] => Raise ValueError
  | x :: t => Ok (argmax_from x 0 1 t)
  end.

End Py.

(* ================================================================== *)
(** ** Two-dimensional integer arrays *)

(** A numpy array of shape [(nrows, ncols)]; the column count is kept
    beside the rows because an array with no row still has one. *)
Record ndarray : Type := mk_nd { ncols : nat; rows : list (list Z) }.

Definition nrows (a : ndarray) : nat := List.length (rows a).
Definition shape (a : ndarray) : nat * nat := (nrows a, ncols a).

Definition wfb (a : ndarray) : bool :=
  forallb (fun r => (List.length r =? ncols a)%nat) (rows a).
Definition wf (a : ndarray) : Prop :=
  Forall (fun r => List.length r = ncols a) (rows a).

(** [a[i, j]], read with a default for statements about in-range cells *)
Definition cell (a : ndarray) (i j : nat) : Z := nth j (nth i (rows a) []) 0%Z.

Definition shape_eqb (a b : ndarray) : bool :=
  ((nrows a =? nrows b) && (ncols a =? ncols b))%nat.

Fixpoint zip_with {A B C} (f : A -> B -> C) (l : list A) (m : list B) : list C :=
  match l, m with
  | x :: l', y :: m' => f x y :: zip_with f l' m'
  | _, _ => []
  end.

Definition nd_map (f : Z -> Z) (a : ndarray) : ndarray :=
  mk_nd (ncols a) (map (map f) (rows a)).

(** Elementwise binary operation on two arrays of one shape; numpy raises
    [ValueError] when the shapes cannot be broadcast together.  Every frame
    comes from the one camera, so broadcasting between unequal shapes is not
    part of the model: unequal shapes raise. *)
Definition nd_zip (f : Z -> Z -> Z) (a b : ndarray) : result ndarray :=
  if shape_eqb a b
  then Ok (mk_nd (ncols a) (zip_with (zip_with f) (rows a) (rows b)))
  else Raise ValueError.

(** [a[r0:r1, c0:c1]] *)
Definition nd_crop (r0 r1 c0 c1 : Z) (a : ndarray) : ndarray :=
  mk_nd (Py.slice_len c0 c1 (ncols a))
        (map (Py.slice c0 c1) (Py.slice r0 r1 (rows a))).

(** [np.sum(a, axis=0)]: one sum per column *)
Definition sum_axis0 (a : ndarray) : list Z :=
  fold_right (zip_with Z.add) (repeat 0%Z (ncols a)) (rows a).

(** [np.sum(a, axis=1)]: one sum per row *)
Definition sum_axis1 (a : ndarray) : list Z :=
  map (fun r => fold_right Z.add 0%Z r) (rows a).

(** Row-major flattening, as [np.argmax] sees the array *)
Definition flatten (a : ndarray) : list Z := List.concat (rows a).

(** [np.unravel_index(idx, a.shape)] for an index inside the array *)
Definition unravel_index (idx : nat) (a : ndarray) : nat * nat :=
  ((idx / ncols a)%nat, (idx mod ncols a)%nat).

(** [a[i, :]] *)
Definition nd_row (a : ndarray) (i : nat) : result (list Z) :=
  Py.getitem (rows a) i.

(** [a[:, j]] *)
Definition nd_col (a : ndarray) (j : nat) : result (list Z) :=
  if (j <? ncols a)%nat then Ok (map (fun r => nth j r 0%Z) (rows a))
  else Raise IndexError.

(** [a.astype(np.uint8)]: the C conversion keeps the low eight bits. *)
Definition astype_uint8 (a : ndarray) : ndarray := nd_map (fun x => x mod 256)%Z a.

(* ================================================================== *)
(** ** float64 helpers *)

(** [astype(np.float64)] of an integer; exact while [|z| < 2^53], which
    covers every sum of at most 1280 bytes. *)
Definition float_of_Z (z : Z) : float :=
  if (z <? 0)%Z then PrimFloat.opp (PrimFloat.of_uint63 (Uint63.of_Z (- z)))
  else PrimFloat.of_uint63 (Uint63.of_Z z).

(** numpy's maximum of two floats: a NaN wins. *)
Definition fmax2 (a b : float) : float :=
  if PrimFloat.is_nan a then a
  else if PrimFloat.is_nan b then b
  else if PrimFloat.ltb a b then b else a.

(** [a.max()] of a float array *)
Definition np_fmax (l : list float) : result float :=
  match l with
  | [] => Raise ValueError
  | x :: t => Ok (fold_left fmax2 t x)
  end.

(** [v *= 255/v.max()]: numpy divides and multiplies in binary64 and only
    warns on a zero divisor; nothing guards the division. *)
Definition rescale255 (v : list float) : result (list float) :=
  (m <- np_fmax v ;;
   Ok (map (fun x => PrimFloat.mul x (PrimFloat.div 255 m)) v))%res.

Definition pixel_size : float := 5.2e-3%float.

(** The real number a binary64 value stands for; 0 for infinities and NaN. *)
Definition SF2R (x : SpecFloat.spec_float) : R :=
  match x with
  | SpecFloat.S754_finite s m e =>
      ((if s then -1 else 1) * IZR (Zpos m) * powerRZ 2 e)%R
  | _ => 0%R
  end.

Definition F2R (x : float) : R := SF2R (FloatOps.Prim2SF x).

(** [x] is [y] up to the relative error [eps]. *)
Definition near (eps x y : R) : Prop := (Rabs (x - y) <= eps * y)%R.

(* ================================================================== *)
(** ** Program state *)

(** [AOI_rect]: the module-level object [AOI]. *)
Record AOI_rect : Type := mk_AOI { xmin : Q; xmax : Q; ymin : Q; ymax : Q }.

(** [AOI_rect.__init__] *)
Definition AOI_init : AOI_rect := mk_AOI 0 1280 0 1024.

(** [int(x)] on a Python number: truncation towards zero. *)
Definition py_int (q : Q) : Z := Z.quot (Qnum q) (Zpos (Qden q)).

(** [self.backgroundImage]: the integer [0] until a frame is recorded. *)
Inductive background : Type :=
| NoBackground
| BackgroundFrame (b : ndarray).

(** A matplotlib line: the data last given to [set_xdata] and [set_ydata]. *)
Record Line2D (T : Type) : Type := mk_line { xdata : list Z; ydata : list T }.

(** The artists of the two figures. *)
Record plots : Type := mk_plots {
  image    : ndarray;
  hplot    : Line2D Z;
  vplot    : Line2D Z;
  hintplot : Line2D float;
  vintplot : Line2D float;
  hintfit  : Line2D float;
  vintfit  : Line2D float;
  wxplot   : Line2D float;
  wyplot   : Line2D float
}.

(** The attributes of [main] the processing code reads or writes, with the
    global [AOI], the view limits of [self.ax] and what was printed. *)
Record main : Type := mk_main {
  AOI             : AOI_rect;
  ax_xlim         : Q * Q;
  ax_ylim         : Q * Q;
  backgroundImage : background;
  continuous      : Z;
  waistListX      : list float;
  waistListY      : list float;
  imdata_full     : ndarray;
  imdata          : ndarray;
  hdata           : list Z;
  vdata           : list Z;
  fig             : plots;
  waistTextBox    : option (float * float);
  stdout          : list exn
}.

Definition set_image v (p : plots) :=
  mk_plots v (hplot p) (vplot p) (hintplot p) (vintplot p) (hintfit p) (vintfit p) (wxplot p) (wyplot p).
Definition set_hplot v (p : plots) :=
  mk_plots (image p) v (vplot p) (hintplot p) (vintplot p) (hintfit p) (vintfit p) (wxplot p) (wyplot p).
Definition set_vplot v (p : plots) :=
  mk_plots (image p) (hplot p) v (hintplot p) (vintplot p) (hintfit p) (vintfit p) (wxplot p) (wyplot p).
Definition set_hintplot v (p : plots) :=
  mk_plots (image p) (hplot p) (vplot p) v (vintplot p) (hintfit p) (vintfit p) (wxplot p) (wyplot p).
Definition set_vintplot v (p : plots) :=
  mk_plots (image p) (hplot p) (vplot p) (hintplot p) v (hintfit p) (vintfit p) (wxplot p) (wyplot p).
Definition set_hintfit v (p : plots) :=
  mk_plots (image p) (hplot p) (vplot p) (hintplot p) (vintplot p) v (vintfit p) (wxplot p) (wyplot p).
Definition set_vintfit v (p : plots) :=
  mk_plots (image p) (hplot p) (vplot p) (hintplot p) (vintplot p) (hintfit p) v (wxplot p) (wyplot p).
Definition set_wxplot v (p : plots) :=
  mk_plots (image p) (hplot p) (vplot p) (hintplot p) (vintplot p) (hintfit p) (vintfit p) v (wyplot p).
Definition set_wyplot v (p : plots) :=
  mk_plots (image p) (hplot p) (vplot p) (hintplot p) (vintplot p) (hintfit p) (vintfit p) (wxplot p) v.

Definition set_AOI v (s : main) :=
  mk_main v (ax_xlim s) (ax_ylim s) (backgroundImage s) (continuous s) (waistListX s) (waistListY s)
          (imdata_full s) (imdata s) (hdata s) (vdata s) (fig s) (waistTextBox s) (stdout s).
Definition set_ax_xlim v (s : main) :=
  mk_main (AOI s) v (ax_ylim s) (backgroundImage s) (continuous s) (waistListX s) (waistListY s)
          (imdata_full s) (imdata s) (hdata s) (vdata s) (fig s) (waistTextBox s) (stdout s).
Definition set_ax_ylim v (s : main) :=
  mk_main (AOI s) (ax_xlim s) v (backgroundImage s) (continuous s) (waistListX s) (waistListY s)
          (imdata_full s) (imdata s) (hdata s) (vdata s) (fig s) (waistTextBox s) (stdout s).
Definition set_backgroundImage v (s : main) :=
  mk_main (AOI s) (ax_xlim s) (ax_ylim s) v (continuous s) (waistListX s) (waistListY s)
          (imdata_full s) (imdata s) (hdata s) (vdata s) (fig s) (waistTextBox s) (stdout s).
Definition set_continuous v (s : main) :=
  mk_main (AOI s) (ax_xlim s) (ax_ylim s) (backgroundImage s) v (waistListX s) (waistListY s)
          (imdata_full s) (imdata s) (hdata s) (vdata s) (fig s) (waistTextBox s) (stdout s).
Definition set_waistListX v (s : main) :=
  mk_main (AOI s) (ax_xlim s) (ax_ylim s) (backgroundImage s) (continuous s) v (waistListY s)
          (imdata_full s) (imdata s) (hdata s) (vdata s) (fig s) (waistTextBox s) (stdout s).
Definition set_waistListY v (s : main) :=
  mk_main (AOI s) (ax_xlim s) (ax_ylim s) (backgroundImage s) (continuous s) (waistListX s) v
          (imdata_full s) (imdata s) (hdata s) (vdata s) (fig s) (waistTextBox s) (stdout s).
Definition set_imdata_full v (s : main) :=
  mk_main (AOI s) (ax_xlim s) (ax_ylim s) (backgroundImage s) (continuous s) (waistListX s) (waistListY s)
          v (imdata s) (hdata s) (vdata s) (fig s) (waistTextBox s) (stdout s).
Definition set_imdata v (s : main) :=
  mk_main (AOI s) (ax_xlim s) (ax_ylim s) (backgroundImage s) (continuous s) (waistListX s) (waistListY s)
          (imdata_full s) v (hdata s) (vdata s) (fig s) (waistTextBox s) (stdout s).
Definition set_hdata v (s : main) :=
  mk_main (AOI s) (ax_xlim s) (ax_ylim s) (backgroundImage s) (continuous s) (waistListX s) (waistListY s)
          (imdata_full s) (imdata s) v (vdata s) (fig s) (waistTextBox s) (stdout s).
Definition set_vdata v (s : main) :=
  mk_main (AOI s) (ax_xlim s) (ax_ylim s) (backgroundImage s) (continuous s) (waistListX s) (waistListY s)
          (imdata_full s) (imdata s) (hdata s) v (fig s) (waistTextBox s) (stdout s).
Definition set_fig v (s : main) :=
  mk_main (AOI s) (ax_xlim s) (ax_ylim s) (backgroundImage s) (continuous s) (waistListX s) (waistListY s)
          (imdata_full s) (imdata s) (hdata s) (vdata s) v (waistTextBox s) (stdout s).
Definition set_waistTextBox v (s : main) :=
  mk_main (AOI s) (ax_xlim s) (ax_ylim s) (backgroundImage s) (continuous s) (waistListX s) (waistListY s)
          (imdata_full s) (imdata s) (hdata s) (vdata s) (fig s) v (stdout s).
Definition set_stdout v (s : main) :=
  mk_main (AOI s) (ax_xlim s) (ax_ylim s) (backgroundImage s) (continuous s) (waistListX s) (waistListY s)
          (imdata_full s) (imdata s) (hdata s) (vdata s) (fig s) (waistTextBox s) v.

(** [print(e)] *)
Definition print (e : exn) (s : main) : main := set_stdout (stdout s ++ [e]) s.

(* ================================================================== *)
(** ** Methods that mutate [self]: state and exceptions *)

(** A method body: it returns a value or raises, and in both cases leaves
    the attributes as they were assigned up to that point. *)
Definition M (A : Type) : Type := main -> result A * main.

Definition ret {A} (a : A) : M A := fun s => (Ok a, s).
Definition bind {A B} (m : M A) (k : A -> M B) : M B :=
  fun s => match m s with
           | (Ok a, s') => k a s'
           | (Raise e, s') => (Raise e, s')
           end.
Definition lift {A} (r : result A) : M A := fun s => (r, s).
Definition gets {A} (f : main -> A) : M A := fun s => (Ok (f s), s).
Definition modify (f : main -> main) : M unit := fun s => (Ok tt, f s).
Definition modify_fig (f : plots -> plots) : M unit :=
  modify (fun s => set_fig (f (fig s)) s).

(** [try: body except Exception as e: print(e)] *)
Definition try_print (body : M unit) : M unit :=
  fun s => match body s with
           | (Ok _, s') => (Ok tt, s')
           | (Raise e, s') => (Ok tt, print e s')
           end.

Declare Scope method_scope.
Delimit Scope method_scope with M.
Notation "x <- m ;; k" := (bind m (fun x => k))
  (at level 61, m at next level, right associativity) : method_scope.
Notation "' pat <- m ;; k" := (bind m (fun x => match x with pat => k end))
  (at level 61, pat pattern, m at next level, right associativity) : method_scope.
Notation "m ;;; k" := (bind m (fun _ => k))
  (at level 61, right associativity) : method_scope.

(* ================================================================== *)
(** ** The methods of [main] *)

(** [frame - self.backgroundImage]: the scalar [0] broadcasts. *)
Definition sub_background (frame : ndarray) (bg : background) : result ndarray :=
  match bg with
  | NoBackground => Ok (nd_map (fun x => x - 0)%Z frame)
  | BackgroundFrame b => nd_zip Z.sub frame b
  end.

(** [self.imdata_full + self.backgroundImage] *)
Definition add_background (a : ndarray) (bg : background) : result ndarray :=
  match bg with
  | NoBackground => Ok (nd_map (fun x => x + 0)%Z a)
  | BackgroundFrame b => nd_zip Z.add a b
  end.

(** [recordBackground]; [frame] is what [self.cam.get_image()] returns. *)
Definition recordBackground (frame : ndarray) : M unit :=
  modify (set_backgroundImage (BackgroundFrame frame)).

(** [toggleContinuousMode] *)
Definition toggleContinuousMode : M unit :=
  modify (fun s => set_continuous ((continuous s + 1) mod 2)%Z s).

(** The zoom tool of the toolbar, or any other change of the view of
    [self.ax]: the user decides the new limits. *)
Definition zoom_view (xlim ylim : Q * Q) : M unit :=
  modify (fun s => set_ax_ylim ylim (set_ax_xlim xlim s)).

(** [On_reset_AOI] *)
Definition On_reset_AOI : M unit :=
  (modify (set_AOI (mk_AOI 0 1280 0 1024)) ;;;
   modify (fun s => set_ax_xlim (xmin (AOI s), xmax (AOI s)) s) ;;;
   modify (fun s => set_ax_ylim (ymin (AOI s), ymax (AOI s)) s))%M.

(** [On_set_AOI]: two tuple assignments from the view limits. *)
Definition On_set_AOI : M unit :=
  (modify (fun s =>
     let '(lo, hi) := ax_ylim s in
     set_AOI (mk_AOI (xmin (AOI s)) (xmax (AOI s)) lo hi) s) ;;;
   modify (fun s =>
     let '(lo, hi) := ax_xlim s in
     set_AOI (mk_AOI lo hi (ymin (AOI s)) (ymax (AOI s))) s))%M.

Inductive axis : Type := AxisH | AxisV.

(** [get1DIntensity(axis)], reading [self.imdata] *)
Definition get1DIntensity (ax : axis) (im : ndarray)
  : result (list Z * (nat * nat)) :=
  (maxIndex <- Py.np_argmax (flatten im) ;;
   let '(maxYIndex, maxXIndex) := unravel_index maxIndex im in
   oneDIntensity <- match ax with
                    | AxisV => nd_col im maxXIndex
                    | AxisH => nd_row im maxYIndex
                    end ;;
   Ok (oneDIntensity, (maxYIndex, maxXIndex)))%res.

(** [line.set_xdata(np.arange(0, len(y)))] followed by [line.set_ydata(y)] *)
Definition line_of {T} (y : list T) : Line2D T :=
  mk_line (Py.arange (List.length y)) y.

(** The files [saveFileDialog] writes for the name the dialog returned (the
    empty string when the dialog is cancelled), in order, each with the
    pixel array handed to [Image.save].  Failures of the file system are the
    library's and are not modelled. *)
Definition ends_with_png (fileName : string) : bool :=
  String.eqb (string_of_list_ascii (Py.slice_from (-4) (list_ascii_of_string fileName)))
             ".png".

Definition strip4 (fileName : string) : string :=
  string_of_list_ascii (Py.slice_to (-4) (list_ascii_of_string fileName)).

Definition saveFileDialog (fileName : string) (s : main)
  : result (list (string * ndarray)) :=
  if String.eqb fileName "" then Ok []
  else
    (sum <- add_background (imdata_full s) (backgroundImage s) ;;
     let img := astype_uint8 sum in
     let first :=
       if ends_with_png fileName then (fileName, img)
       else ((fileName ++ ".png")%string, img) in
     match backgroundImage s with
     | NoBackground => Ok [first]
     | BackgroundFrame b =>
         let background := astype_uint8 b in
         let second :=
           if ends_with_png fileName
           then ((strip4 fileName ++ "-bg.png")%string, img)
           else ((fileName ++ "-bg.png")%string, img) in
         Ok [first; second]
     end)%res.

(** [On_exposure_change]: the value handed to [update_exposure_time] for a
    slider position, as the real number the expression
    [0.037 * 10 ** (value / 23)] denotes, with true division.  The program
    evaluates that expression in binary64; [On_exposure_change_binary64]
    below is that evaluation, and the two differ by rounding only. *)
Definition On_exposure_change (value : Z) : R :=
  (0.037 * Rpower 10 (IZR value / 23))%R.

(** The same expression as Python evaluates it.  [value / 23] is the
    correctly rounded quotient of two small integers.  [10 ** y] is
    [float.__pow__], a call to the C library's [pow], which has no exact
    binary64 description: it is a parameter.  The product by the literal
    [0.037] is a binary64 multiplication. *)
Definition slider_exponent (value : Z) : float :=
  (float_of_Z value / 23)%float.

Definition On_exposure_change_binary64
  (pow : float -> float -> float) (value : Z) : float :=
  (0.037 * pow 10 (slider_exponent value))%float.

(** Fit parameters [(a, x0, b, wx)] and the initial guess [p0]. *)
Definition params : Type := float * float * float * float.
Definition guess : Type := Z * nat * Z * Q.

Definition width_of (p : params) : float := let '(_, _, _, w) := p in w.

Section Fit.

(** [numpy.exp] on one float. *)
Variable np_exp : float -> float.

(** [gaussian(x, a, x0, b, wx)] at one abscissa *)
Definition gaussian (x : float) (p : params) : float :=
  let '(a, x0, b, wx) := p in
  let a := PrimFloat.abs a in
  let t := PrimFloat.div (PrimFloat.sub x x0) wx in
  PrimFloat.add (PrimFloat.mul a (np_exp (PrimFloat.mul (-2) (PrimFloat.mul t t)))) b.

(** [curve_fit(f, xaxis, data, p0=p0)]: the fitted parameters, or an
    exception (no convergence, too few points, ...). *)
Variable curve_fit :
  (float -> params -> float) -> list Z -> list Z -> guess -> result params.

(** Lines 365-377 of [calc_waists]: projections, initial guesses and the two
    fits.  Nothing is assigned to [self] here. *)
Definition fit_axes (s : main) : result (params * params) :=
  (let xdata := sum_axis0 (imdata s) in
   let ydata := sum_axis1 (imdata s) in
   let xaxis := Py.arange (List.length xdata) in
   let yaxis := Py.arange (List.length ydata) in
   mx <- Py.np_max xdata ;;
   ix <- Py.np_argmax xdata ;;
   let p0x := (mx, ix, 0%Z, (xmax (AOI s) - xmin (AOI s)) / 5) in
   my <- Py.np_max ydata ;;
   iy <- Py.np_argmax ydata ;;
   let p0y := (my, iy, 0%Z, (ymax (AOI s) - ymin (AOI s)) / 5) in
   px <- curve_fit gaussian xaxis xdata p0x ;;
   py <- curve_fit gaussian yaxis ydata p0y ;;
   Ok (px, py))%res.

(** The body of the [try] of [calc_waists]. *)
Definition calc_waists_body : M unit :=
  (s0 <- gets (fun s => s) ;;
   ' (px, py) <- lift (fit_axes s0) ;;
   let xaxis := Py.arange (List.length (sum_axis0 (imdata s0))) in
   let yaxis := Py.arange (List.length (sum_axis1 (imdata s0))) in
   hfit <- lift (rescale255 (map (fun x => gaussian (float_of_Z x) px) xaxis)) ;;
   vfit <- lift (rescale255 (map (fun y => gaussian (float_of_Z y) py) yaxis)) ;;
   modify_fig (set_hintfit (line_of hfit)) ;;;
   modify_fig (set_vintfit (line_of vfit)) ;;;
   let wx := PrimFloat.abs (width_of px) in
   let wy := PrimFloat.abs (width_of py) in
   modify (fun s => set_waistListX (Py.np_roll (waistListX s) 1) s) ;;;
   modify (fun s => set_waistListY (Py.np_roll (waistListY s) 1) s) ;;;
   lx <- gets waistListX ;;
   lx' <- lift (Py.setitem0 lx (PrimFloat.mul wx pixel_size)) ;;
   modify (set_waistListX lx') ;;;
   ly <- gets waistListY ;;
   ly' <- lift (Py.setitem0 ly (PrimFloat.mul wy pixel_size)) ;;
   modify (set_waistListY ly') ;;;
   modify (set_waistTextBox
             (Some (PrimFloat.mul wx pixel_size, PrimFloat.mul wy pixel_size))))%M.

(** [calc_waists] *)
Definition calc_waists : M unit := try_print calc_waists_body.

(** One pass through the [while self.run_stream] loop of [capture_image];
    [frame] is what [self.cam.get_image()] returns. *)
Definition loop_body (frame : ndarray) : M unit :=
  (bg <- gets backgroundImage ;;
   full <- lift (sub_background frame bg) ;;
   modify (set_imdata_full full) ;;;
   modify_fig (set_image full) ;;;
   maxIndex <- lift (Py.np_argmax (flatten full)) ;;
   aoi <- gets AOI ;;
   modify (set_imdata (nd_crop (py_int (ymin aoi)) (py_int (ymax aoi))
                               (py_int (xmin aoi)) (py_int (xmax aoi)) full)) ;;;
   im <- gets imdata ;;
   h <- lift (get1DIntensity AxisH im) ;;
   modify (set_hdata (fst h)) ;;;
   v <- lift (get1DIntensity AxisV im) ;;
   modify (set_vdata (fst v)) ;;;
   modify_fig (set_hplot (line_of (fst h))) ;;;
   modify_fig (set_vplot (line_of (fst v))) ;;;
   let vint := map float_of_Z (sum_axis1 im) in
   let hint := map float_of_Z (sum_axis0 im) in
   vint <- lift (rescale255 vint) ;;
   hint <- lift (rescale255 hint) ;;
   modify_fig (set_hintplot (line_of hint)) ;;;
   modify_fig (set_vintplot (line_of vint)) ;;;
   modify (fun s => set_fig (set_wxplot (line_of (waistListX s)) (fig s)) s) ;;;
   modify (fun s => set_fig (set_wyplot (line_of (waistListY s)) (fig s)) s) ;;;
   c <- gets continuous ;;
   if (c =? 1)%Z then calc_waists else ret tt)%M.

(** The loop itself over the frames the camera delivers until
    [run_stream] is cleared; an exception ends the thread. *)
Fixpoint capture_loop (frames : list ndarray) : M unit :=
  match frames with
  | [] => ret tt
  | f :: rest => (loop_body f ;;; capture_loop rest)%M
  end.

(** [capture_image]: the set-up on a first frame (lines 277-310), then the
    loop.  [imshow] with an [extent] sets the view of [self.ax] to it. *)
Definition capture_image (first : ndarray) (frames : list ndarray) : M unit :=
  (modify (set_imdata first) ;;;
   modify_fig (set_image first) ;;;
   modify (fun s => set_ax_ylim (ymin (AOI s), ymax (AOI s))
                      (set_ax_xlim (xmin (AOI s), xmax (AOI s)) s)) ;;;
   h <- lift (get1DIntensity AxisH first) ;;
   modify (set_hdata (fst h)) ;;;
   modify_fig (set_hplot (line_of (fst h))) ;;;
   modify_fig (set_hintplot (line_of (Py.zeros (List.length (sum_axis0 first))))) ;;;
   modify_fig (set_hintfit (line_of (Py.zeros (List.length (sum_axis0 first))))) ;;;
   v <- lift (get1DIntensity AxisV first) ;;
   modify (set_vdata (fst v)) ;;;
   modify_fig (set_vplot (line_of (fst v))) ;;;
   modify_fig (set_vintplot (line_of (map float_of_Z (sum_axis1 first)))) ;;;
   modify_fig (set_vintfit (line_of (Py.zeros (List.length (sum_axis1 first))))) ;;;
   modify (fun s => set_fig (set_wxplot (line_of (waistListX s)) (fig s)) s) ;;;
   modify (fun s => set_fig (set_wyplot (line_of (waistListY s)) (fig s)) s) ;;;
   capture_loop frames)%M.

End Fit.

(** [main.__init__] up to the first frame, with the view of [self.ax] as
    [imshow] leaves it (the [extent] given). *)
Definition empty_nd : ndarray := mk_nd 0 [].
Definition empty_line {T} : Line2D T := mk_line [] [].

Definition main_init : main :=
  mk_main AOI_init (0, 1280) (0, 1024) NoBackground 0%Z
          (Py.zeros 20) (Py.zeros 20)
          empty_nd empty_nd [] []
          (mk_plots empty_nd empty_line empty_line empty_line empty_line
                    empty_line empty_line
                    (line_of (Py.zeros 20)) (line_of (Py.zeros 20)))
          None [].

(** Running a method for its final state. *)
Definition exec {A} (m : M A) (s : main) : main := snd (m s).

(* ================================================================== *)
(** ** Notions used in the statements *)

(** Lines 396 and 398 of [calc_waists] on one axis: the history is rolled by
    one place and its first cell overwritten. *)
Definition history_push {A} (buf : list A) (v : A) : result (list A) :=
  Py.setitem0 (Py.np_roll buf 1) v.


(** The invariant the specification asks of an AOI rectangle. *)
Definition valid_AOI (sensorWidth sensorHeight : Q) (a : AOI_rect) : Prop :=
  (0 <= xmin a /\ xmin a < xmax a /\ xmax a <= sensorWidth /\
   0 <= ymin a /\ ymin a < ymax a /\ ymax a <= sensorHeight)%Q.

(** An AOI with integer pixel bounds. *)
Definition AOI_of_Z (x0 x1 y0 y1 : Z) : AOI_rect :=
  mk_AOI (inject_Z x0) (inject_Z x1) (inject_Z y0) (inject_Z y1).

(** The crop of line 317 for a given AOI. *)
Definition crop_AOI (a : AOI_rect) (full : ndarray) : ndarray :=
  nd_crop (py_int (ymin a)) (py_int (ymax a)) (py_int (xmin a)) (py_int (xmax a)) full.

(** The name of the first file [saveFileDialog] writes. *)
Definition png_name (fileName : string) : string :=
  if ends_with_png fileName then fileName else (fileName ++ ".png")%string.

(** The name of the second file. *)
Definition bg_name (fileName : string) : string :=
  if ends_with_png fileName then (strip4 fileName ++ "-bg.png")%string
  else (fileName ++ "-bg.png")%string.

(** Stand-ins for the external functions where a statement is evaluated on
    concrete data: an exponential that is never consulted, an optimizer that
    never converges and one that always returns the same parameters. *)
Definition no_exp (x : float) : float := x.
Definition fit_never (f : float -> params -> float) (xs ys : list Z) (p0 : guess)
  : result params := Raise (FitFailure 0).
Definition fit_const (p : params) (f : float -> params -> float)
  (xs ys : list Z) (p0 : guess) : result params := Ok p.

(** A method leaves the attribute (or view of the state) [f] alone. *)
Definition preserves {X A} (f : main -> X) (m : M A) : Prop :=
  forall s, f (snd (m s)) = f s.

(** The recorded background, if any, is a well-formed frame of the shape
    of the frames the camera delivers. *)
Definition background_fits (bg : background) (frame : ndarray) : Prop :=
  match bg with
  | NoBackground => True
  | BackgroundFrame b => wf b /\ shape frame = shape b
  end.

(** Concrete situations the statements are evaluated on. *)

(** The view after zooming out past the left edge of the sensor. *)
Definition zoomed_out : main := exec (zoom_view (-5, 50) (0, 50)) main_init.

(** A one-pixel frame of value 15 captured over a recorded background of
    value 10, continuous mode off. *)
Definition bg_10 : ndarray := mk_nd 1 [[10%Z]].
Definition frame_15 : ndarray := mk_nd 1 [[15%Z]].
Definition after_frame_15 : main :=
  exec (loop_body no_exp fit_never frame_15) (exec (recordBackground bg_10) main_init).

(** A frame darker than the recorded background in its first pixel. *)
Definition bg_pair : ndarray := mk_nd 2 [[10; 50]]%Z.
Definition frame_pair : ndarray := mk_nd 2 [[3; 200]]%Z.

(** The view zoomed to columns 1..3 and rows 0..2, then taken as AOI. *)
Definition zoomed_spot : main :=
  exec On_set_AOI (exec (zoom_view (1, 3) (0, 2)) main_init).

(** Parameters an optimizer might return, with a negative width. *)
Definition fitted_10 : params := (200, 0, 5, -10)%float.

(** A frame with no light at all. *)
Definition dark_frame : ndarray := mk_nd 2 [[0; 0]; [0; 0]]%Z.
Definition after_dark_frame : main :=
  exec (loop_body no_exp fit_never dark_frame) main_init.

(** A 2 x 3 frame whose brightest pixel is in row 1, column 2. *)
Definition spot_frame : ndarray := mk_nd 3 [[1; 2; 3]; [4; 5; 9]]%Z.

(** The state after a pass over the spot frame with the AOI on columns
    1..3 and rows 0..2. *)
Definition after_spot_frame : main :=
  exec (loop_body no_exp fit_never spot_frame) zoomed_spot.

(** Views with fractional limits, taken as AOI: a width of 3/2 over two
    columns, and a width of 9/4 and a height of 3/2 over two columns and one
    row. *)
Definition half_zoomed : main :=
  exec On_set_AOI (exec (zoom_view (1 # 2, 2) (0, 2)) main_init).
Definition quarter_zoomed : main :=
  exec On_set_AOI (exec (zoom_view (1 # 4, 5 # 2) (0, 3 # 2)) main_init).

(** What is asked of the C library's [pow] at one exponent: the result is
    the real power up to a relative error of [1e-15], a few units in the
    last place. *)
Definition pow_accurate (pow : float -> float -> float) (y : float) : Prop :=
  near (1 / 1000000000000000) (F2R (pow 10%float y)) (Rpower 10 (F2R y)).

(** The exponent computed for a slider value is [value / 23] up to one part
    in [2^52]; a check on the mantissa and exponent, by integer arithmetic. *)
Definition slider_exponent_ok (value : Z) : bool :=
  match FloatOps.Prim2SF (slider_exponent value) with
  | SpecFloat.S754_finite false m e =>
      ((e <=? 0) &&
       (Z.abs (23 * Zpos m - value * 2 ^ (- e)) * 2 ^ 52 <=? value * 2 ^ (- e)))%Z
  | _ => false
  end.

(** A [pow] that is exact at the exponents 1, 2 and 3, the slider values
    23, 46 and 69. *)
Definition pow10_exact (x y : float) : float :=
  if PrimFloat.eqb y 1 then 10%float
  else if PrimFloat.eqb y 2 then 100%float
  else if PrimFloat.eqb y 3 then 1000%float else nan.

(** [x] is within one unit in the last place of 255. *)
Definition close255 (x : float) : bool :=
  (PrimFloat.leb (255 - 0x1p-45) x && PrimFloat.leb x (255 + 0x1p-45))%float.

(** The image of a maximum [z] under the rescaling is close to 255. *)
Definition maps_to_255 (z : Z) : bool :=
  close255 (PrimFloat.mul (float_of_Z z) (PrimFloat.div 255 (float_of_Z z))).

(** [P] on every integer of [lo, lo + 2^depth). *)
Fixpoint all_in (P : Z -> bool) (depth : nat) (lo : Z) : bool :=
  match depth with
  | O => P lo
  | S d => all_in P d lo && all_in P d (lo + 2 ^ Z.of_nat d)
  end.

(** ** The camera frame *)

(** [n] consecutive runs of [w] elements of a buffer. *)
Fixpoint chunks (w n : nat) (buf : list Z) : list (list Z) :=
  match n with
  | O => []
  | S k => firstn w buf :: chunks w k (skipn w buf)
  end.

(** [img_array.shape = (h, w)] on a one-dimensional array: numpy raises
    [ValueError] unless the array has [h * w] elements. *)
Definition reshape (h w : nat) (buf : list Z) : result ndarray :=
  if (List.length buf =? h * w)%nat then Ok (mk_nd w (chunks w h buf))
  else Raise ValueError.

(** One [ctypes.c_ubyte] read by [np.frombuffer]. *)
Definition ubyte (b : Byte.byte) : Z := Z.of_N (Byte.to_N b).

(** [cameraAPI.get_image] for [self.shape = (width, height)]; [c_img] is the
    buffer after the driver copied the image into it. *)
Definition get_image (shape : nat * nat) (c_img : list Byte.byte)
  : result ndarray :=
  (img_array <- reshape (snd shape) (fst shape) (map ubyte c_img) ;;
   Ok (nd_map (fun x => x) img_array))%res.

(** ** Invariants of methods *)

(** A method keeps the property [P] of the state, whether it returns or
    raises. *)
Definition keeps {A} (P : main -> Prop) (m : M A) : Prop :=
  forall s, P s -> P (snd (m s)).

(** Both history buffers hold 20 values. *)
Definition capacity_20 (s : main) : Prop :=
  List.length (waistListX s) = 20%nat /\ List.length (waistListY s) = 20%nat.

(** What only [calc_waists] assigns: the fit overlays, the histories, the
    text box and the printed exceptions. *)
Definition fit_outputs (s : main)
  : Line2D float * Line2D float * list float * list float
    * option (float * float) * list exn :=
  (hintfit (fig s), vintfit (fig s), waistListX s, waistListY s,
   waistTextBox s, stdout s).

(** What the user sets and the capture thread only reads. *)
Definition user_settings (s : main)
  : AOI_rect * (Q * Q) * (Q * Q) * background * Z :=
  (AOI s, ax_xlim s, ax_ylim s, backgroundImage s, continuous s).

(** [n] clicks on the button of [toggleContinuousMode]. *)
Fixpoint toggles (n : nat) (s : main) : main :=
  match n with
  | O => s
  | S k => exec toggleContinuousMode (toggles k s)
  end.

(** Every cell is a byte. *)
Definition byte_valued (a : ndarray) : Prop :=
  Forall (Forall (fun x => 0 <= x < 256)%Z) (rows a).

(** Position [(i, j)] comes before [(r, c)] in row-major order. *)
Definition before (i j r c : nat) : Prop := (i < r \/ (i = r /\ j < c))%nat.

(* ================================================================== *)
(** * Properties *)

Unset Implicit Arguments.

(** ** Python sequences *)

Section ListFacts.
Context {A : Type}.

Lemma np_roll_length (l : list A) (k : nat) :
  List.length (Py.np_roll l k) = List.length l.
Proof.
  unfold Py.np_roll. destruct (List.length l) as [|n] eqn:E; [assumption|].
  rewrite length_app, length_skipn, length_firstn, E.
  pose proof (Nat.mod_upper_bound k (S n)). lia.
Qed.

(** Rolling by one brings the last element to the front. *)
Lemma np_roll_1 (l : list A) (d : A) :
  l <> [] -> Py.np_roll l 1 = last l d :: removelast l.
Proof.
  intros Hne. destruct (exists_last Hne) as [front [x ->]].
  rewrite last_last, removelast_last.
  unfold Py.np_roll. rewrite length_app. cbn [List.length].
  replace (List.length front + 1)%nat with (S (List.length front)) by lia.
  destruct front as [|y front'].
  - reflexivity.
  - cbn [List.length]. rewrite Nat.mod_small by lia.
    replace (S (S (List.length front')) - 1)%nat with (List.length (y :: front'))
      by (cbn [List.length]; lia).
    rewrite skipn_app, firstn_app, skipn_all, firstn_all, Nat.sub_diag.
    cbn. now rewrite app_nil_r.
Qed.

Lemma history_push_cons (l : list A) (v : A) :
  l <> [] -> history_push l v = Ok (v :: removelast l).
Proof.
  intros Hne. unfold history_push.
  rewrite (np_roll_1 l v Hne). reflexivity.
Qed.



End ListFacts.

(** ** Arrays *)

Lemma zip_with_length {A B C} (f : A -> B -> C) (l : list A) (m : list B) :
  List.length (zip_with f l m) = Nat.min (List.length l) (List.length m).
Proof.
  revert m. induction l as [|x l IH]; intros [|y m]; cbn; auto.
Qed.

Lemma zip_with_nth {A B C} (f : A -> B -> C) (l : list A) (m : list B)
      (i : nat) (da : A) (db : B) (dc : C) :
  (i < List.length l)%nat -> (i < List.length m)%nat ->
  nth i (zip_with f l m) dc = f (nth i l da) (nth i m db).
Proof.
  revert m i. induction l as [|x l IH]; intros [|y m] [|i]; cbn; intros; try lia; auto.
  apply IH; lia.
Qed.

Lemma wf_nth_length (a : ndarray) (i : nat) :
  wf a -> (i < nrows a)%nat -> List.length (nth i (rows a) []) = ncols a.
Proof.
  unfold wf, nrows. intros Hwf Hi.
  rewrite Forall_forall in Hwf. apply Hwf, nth_In, Hi.
Qed.

Lemma wfb_wf (a : ndarray) : wfb a = true <-> wf a.
Proof.
  unfold wfb, wf. rewrite forallb_forall, Forall_forall.
  split; intros H r Hr; specialize (H r Hr); now apply Nat.eqb_eq.
Qed.

Lemma shape_eqb_true (a b : ndarray) : shape a = shape b -> shape_eqb a b = true.
Proof.
  unfold shape, shape_eqb. intros [= -> ->]. now rewrite !Nat.eqb_refl.
Qed.

Lemma nd_zip_ok (f : Z -> Z -> Z) (a b : ndarray) :
  shape a = shape b ->
  nd_zip f a b = Ok (mk_nd (ncols a) (zip_with (zip_with f) (rows a) (rows b))).
Proof.
  intros H. unfold nd_zip. now rewrite shape_eqb_true.
Qed.

Lemma nd_zip_cell (f : Z -> Z -> Z) (a b : ndarray) (i j : nat) :
  wf a -> wf b -> shape a = shape b ->
  (i < nrows a)%nat -> (j < ncols a)%nat ->
  cell (mk_nd (ncols a) (zip_with (zip_with f) (rows a) (rows b))) i j
  = f (cell a i j) (cell b i j).
Proof.
  intros Ha Hb Hs Hi Hj. unfold shape in Hs. injection Hs as Hr Hc.
  unfold cell. cbn [rows].
  rewrite (zip_with_nth (zip_with f) (rows a) (rows b) i [] [] []);
    [| exact Hi | unfold nrows in Hr; rewrite <- Hr; exact Hi ].
  apply zip_with_nth.
  - rewrite wf_nth_length; assumption.
  - rewrite wf_nth_length; [ lia | assumption | lia ].
Qed.

Lemma nd_zip_shape (f : Z -> Z -> Z) (a b : ndarray) :
  shape a = shape b ->
  shape (mk_nd (ncols a) (zip_with (zip_with f) (rows a) (rows b))) = shape a.
Proof.
  unfold shape, nrows. cbn [rows ncols]. intros [= Hr Hc].
  rewrite zip_with_length, <- Hr, Nat.min_id. reflexivity.
Qed.

Lemma nd_zip_wf (f : Z -> Z -> Z) (a b : ndarray) :
  wf a -> wf b -> shape a = shape b ->
  wf (mk_nd (ncols a) (zip_with (zip_with f) (rows a) (rows b))).
Proof.
  unfold wf, shape, nrows. cbn [rows ncols]. intros Ha Hb [= Hr Hc].
  rewrite <- Hc in Hb. clear Hc. revert Ha Hb Hr.
  generalize (ncols a), (rows b). induction (rows a) as [|r l IH];
    intros n [|r' l'] Ha Hb Hr; cbn in *; try discriminate; constructor.
  - inversion Ha; inversion Hb; subst. rewrite zip_with_length. lia.
  - inversion Ha; inversion Hb; subst. apply IH; auto.
Qed.

Lemma nd_map_cell (f : Z -> Z) (a : ndarray) (i j : nat) :
  wf a -> (i < nrows a)%nat -> (j < ncols a)%nat ->
  cell (nd_map f a) i j = f (cell a i j).
Proof.
  intros Ha Hi Hj. unfold cell, nd_map. cbn [rows].
  rewrite (nth_indep _ [] (map f [])) by (rewrite length_map; exact Hi).
  rewrite map_nth.
  rewrite (nth_indep _ 0%Z (f 0%Z))
    by (rewrite length_map, wf_nth_length; assumption).
  apply map_nth.
Qed.

Lemma nd_map_ext (f g : Z -> Z) (a : ndarray) :
  (forall x, f x = g x) -> nd_map f a = nd_map g a.
Proof.
  intros H. unfold nd_map. f_equal. apply map_ext. intros r. now apply map_ext.
Qed.

Lemma nd_map_map (f g : Z -> Z) (a : ndarray) :
  nd_map f (nd_map g a) = nd_map (fun x => f (g x)) a.
Proof.
  unfold nd_map. cbn [rows ncols]. f_equal. rewrite map_map.
  apply map_ext. intros r. apply map_map.
Qed.

(** ** File names *)

Lemma list_ascii_of_string_app (s t : string) :
  list_ascii_of_string (s ++ t) = list_ascii_of_string s ++ list_ascii_of_string t.
Proof.
  induction s as [|c s IH]; cbn; [reflexivity | now rewrite IH].
Qed.

Lemma adjust_index_neg (k n : nat) :
  (0 < k <= n)%nat -> Py.adjust_index (- Z.of_nat k) n = (n - k)%nat.
Proof.
  intros Hk. unfold Py.adjust_index.
  destruct (Z.ltb_spec (- Z.of_nat k) 0); [|lia].
  destruct (Z.ltb_spec (- Z.of_nat k + Z.of_nat n) 0); lia.
Qed.

Lemma adjust_index_len (n : nat) : Py.adjust_index (Z.of_nat n) n = n.
Proof.
  unfold Py.adjust_index.
  destruct (Z.ltb_spec (Z.of_nat n) 0); [lia|]. now rewrite Z.leb_refl.
Qed.

Lemma adjust_index_nonneg (i : Z) (n : nat) :
  (0 <= i <= Z.of_nat n)%Z -> Py.adjust_index i n = Z.to_nat i.
Proof.
  intros Hi. unfold Py.adjust_index.
  destruct (Z.ltb_spec i 0); [lia|].
  destruct (Z.leb_spec (Z.of_nat n) i); lia.
Qed.

Lemma slice_from_suffix {A} (l x : list A) :
  x <> [] -> Py.slice_from (- Z.of_nat (List.length x)) (l ++ x) = x.
Proof.
  intros Hx. unfold Py.slice_from, Py.slice, Py.slice_len.
  assert (0 < List.length x)%nat by (destruct x; [congruence | cbn; lia]).
  rewrite adjust_index_len, adjust_index_neg by (rewrite length_app; lia).
  rewrite length_app.
  replace (List.length l + List.length x - List.length x)%nat with (List.length l) by lia.
  rewrite skipn_app, skipn_all, Nat.sub_diag. cbn [app skipn].
  apply firstn_all2. lia.
Qed.

Lemma slice_to_suffix {A} (l x : list A) :
  x <> [] -> Py.slice_to (- Z.of_nat (List.length x)) (l ++ x) = l.
Proof.
  intros Hx. unfold Py.slice_to, Py.slice, Py.slice_len.
  assert (0 < List.length x)%nat by (destruct x; [congruence | cbn; lia]).
  rewrite (adjust_index_nonneg 0) by lia.
  rewrite adjust_index_neg by (rewrite length_app; lia).
  rewrite length_app. cbn [Z.to_nat skipn].
  replace (List.length l + List.length x - List.length x - 0)%nat with (List.length l) by lia.
  rewrite firstn_app, firstn_all, Nat.sub_diag. cbn. apply app_nil_r.
Qed.

Lemma ends_with_png_suffix (base : string) :
  ends_with_png (base ++ ".png") = true.
Proof.
  unfold ends_with_png. rewrite list_ascii_of_string_app.
  change (-4)%Z with (- Z.of_nat (List.length (list_ascii_of_string ".png")))%Z.
  rewrite (slice_from_suffix (list_ascii_of_string base)
             (list_ascii_of_string ".png")) by discriminate.
  reflexivity.
Qed.

Lemma strip4_suffix (base : string) : strip4 (base ++ ".png") = base.
Proof.
  unfold strip4. rewrite list_ascii_of_string_app.
  change (-4)%Z with (- Z.of_nat (List.length (list_ascii_of_string ".png")))%Z.
  rewrite (slice_to_suffix (list_ascii_of_string base)
             (list_ascii_of_string ".png")) by discriminate.
  apply string_of_list_ascii_of_string.
Qed.

(** ** The history buffers *)



(** ** The area of interest *)

Lemma AOI_init_valid : valid_AOI 1280 1024 AOI_init.
Proof.
  unfold valid_AOI, AOI_init, Qle, Qlt. cbn. lia.
Qed.

(** C5, as the code has it: a set-AOI request is applied unconditionally.
    The AOI becomes the current view limits of the image axes, whatever they
    are; nothing is validated and nothing is rejected.  The AOI the program
    starts with, and the one a reset restores, is the full 1280 x 1024
    sensor, which satisfies the invariant. *)
Theorem On_set_AOI_takes_view_limits (s : main) :
  AOI (exec On_set_AOI s)
  = mk_AOI (fst (ax_xlim s)) (snd (ax_xlim s)) (fst (ax_ylim s)) (snd (ax_ylim s))
  /\ AOI (exec On_reset_AOI s) = AOI_init
  /\ AOI main_init = AOI_init
  /\ valid_AOI 1280 1024 AOI_init.
Proof.
  repeat split; try apply AOI_init_valid.
  unfold exec, On_set_AOI, bind, modify. cbn.
  destruct (ax_ylim s) as [ylo yhi]. cbn.
  destruct (ax_xlim s) as [xlo xhi]. reflexivity.
Qed.

(** C5 fails as stated: with the view zoomed out to x in [-5, 50], the
    request replaces a valid AOI by a rectangle that leaves the sensor. *)
Lemma On_set_AOI_accepts_out_of_bounds :
  valid_AOI 1280 1024 (AOI zoomed_out) /\
  AOI (exec On_set_AOI zoomed_out) = mk_AOI (-5) 50 0 50 /\
  AOI (exec On_set_AOI zoomed_out) <> AOI zoomed_out /\
  ~ valid_AOI 1280 1024 (AOI (exec On_set_AOI zoomed_out)).
Proof.
  split; [exact AOI_init_valid|]. split; [reflexivity|]. split.
  - discriminate.
  - unfold valid_AOI, Qle, Qlt. cbn. lia.
Qed.

(** ** Saving the image *)

Lemma nd_map_shape (f : Z -> Z) (a : ndarray) : shape (nd_map f a) = shape a.
Proof.
  unfold shape, nrows, nd_map. cbn [rows ncols]. now rewrite length_map.
Qed.

Lemma astype_uint8_cell (a : ndarray) (i j : nat) :
  wf a -> (i < nrows a)%nat -> (j < ncols a)%nat ->
  cell (astype_uint8 a) i j = (cell a i j mod 256)%Z.
Proof.
  intros. unfold astype_uint8. now rewrite nd_map_cell.
Qed.

(** C6, as the code has it by design: for a non-empty file name, the image
    written under the chosen name (with [.png] appended unless the name ends
    in it) is the residual frame plus the background, pixel by pixel, reduced
    to eight bits; that is the residual itself only while no background is
    recorded.  When a background frame has been recorded, a second file is
    written beside it, named with the suffix [-bg.png]. *)
Theorem saveFileDialog_writes_residual_plus_background
        (fileName : string) (s : main) :
  fileName <> ""%string ->
  wf (imdata_full s) ->
  (backgroundImage s = NoBackground ->
     saveFileDialog fileName s
     = Ok [(png_name fileName, astype_uint8 (imdata_full s))]) /\
  (forall b, backgroundImage s = BackgroundFrame b ->
     wf b -> shape (imdata_full s) = shape b ->
     exists img other,
       saveFileDialog fileName s
       = Ok [(png_name fileName, img); (bg_name fileName, other)] /\
       shape img = shape b /\
       forall i j, (i < nrows b)%nat -> (j < ncols b)%nat ->
         cell img i j = ((cell (imdata_full s) i j + cell b i j) mod 256)%Z) /\
  (forall base, fileName = (base ++ ".png")%string ->
     png_name fileName = fileName /\
     bg_name fileName = (base ++ "-bg.png")%string) /\
  (ends_with_png fileName = false ->
     png_name fileName = (fileName ++ ".png")%string /\
     bg_name fileName = (fileName ++ "-bg.png")%string).
Proof.
  intros Hname Hwf.
  assert (Hneq : String.eqb fileName "" = false) by now apply String.eqb_neq.
  repeat split.
  - intros Hbg. unfold saveFileDialog. rewrite Hneq, Hbg. cbn.
    unfold png_name, astype_uint8. rewrite nd_map_map.
    rewrite (nd_map_ext (fun x => (x + 0) mod 256)%Z (fun x => x mod 256)%Z)
      by (intros x; now rewrite Z.add_0_r).
    destruct (ends_with_png fileName); reflexivity.
  - intros b Hbg Hb Hshape.
    set (sum := mk_nd (ncols (imdata_full s))
                      (zip_with (zip_with Z.add) (rows (imdata_full s)) (rows b))).
    exists (astype_uint8 sum), (astype_uint8 sum).
    assert (Hs : shape sum = shape (imdata_full s)) by now apply nd_zip_shape.
    assert (Hw : wf sum) by now apply nd_zip_wf.
    split; [| split].
    + unfold saveFileDialog. rewrite Hneq, Hbg. cbn [add_background].
      rewrite nd_zip_ok by assumption. cbn [rbind].
      unfold png_name, bg_name. destruct (ends_with_png fileName); reflexivity.
    + rewrite <- Hshape, <- Hs. apply nd_map_shape.
    + intros i j Hi Hj.
      pose proof (f_equal fst Hshape) as Hr. pose proof (f_equal snd Hshape) as Hc.
      pose proof (f_equal fst Hs) as Hr'. pose proof (f_equal snd Hs) as Hc'.
      cbn [fst snd shape] in Hr, Hc, Hr', Hc'.
      rewrite astype_uint8_cell by (try assumption; lia).
      unfold sum. rewrite nd_zip_cell; try assumption; try lia.
  - subst fileName. unfold png_name. now rewrite ends_with_png_suffix.
  - subst fileName. unfold bg_name.
    now rewrite ends_with_png_suffix, strip4_suffix.
  - unfold png_name. now rewrite H.
  - unfold bg_name. now rewrite H.
Qed.

Lemma saveFileDialog_writes_residual_plus_background_witness :
  saveFileDialog "beam" (set_imdata_full frame_15 main_init)
  = Ok [("beam.png"%string, frame_15)].
Proof.
  exact (proj1 (saveFileDialog_writes_residual_plus_background
                  "beam" (set_imdata_full frame_15 main_init)
                  ltac:(discriminate)
                  ltac:(repeat constructor))
               eq_refl).
Defined.

(** C6 fails as stated: after a frame of value 15 over a background of value
    10 the residual is 5, yet the image saved under the chosen name holds 15. *)
Lemma saveFileDialog_does_not_write_residual :
  imdata_full after_frame_15 = mk_nd 1 [[5%Z]] /\
  backgroundImage after_frame_15 = BackgroundFrame bg_10 /\
  saveFileDialog "beam" after_frame_15
  = Ok [("beam.png"%string, mk_nd 1 [[15%Z]]);
        ("beam-bg.png"%string, mk_nd 1 [[15%Z]])].
Proof.
  repeat split; vm_compute; reflexivity.
Qed.

(** ** The exposure slider *)

Local Open Scope R_scope.

Lemma pow_lt_inv (a y : R) (n : nat) :
  0 <= a -> 0 <= y -> a ^ n < y ^ n -> a < y.
Proof.
  intros Ha Hy H. destruct (Rlt_le_dec a y) as [|Hle]; [assumption|].
  exfalso. assert (y ^ n <= a ^ n) by (apply pow_incr; lra). lra.
Qed.

Lemma exposure_ratio (v : Z) :
  On_exposure_change v / 0.037 = Rpower 10 (IZR v / 23).
Proof.
  unfold On_exposure_change. field. lra.
Qed.

(** The 23rd power of the exposure over 0.037 ms is ten to the slider value. *)
Lemma exposure_pow23 (v : Z) :
  (On_exposure_change v / 0.037) ^ 23 = Rpower 10 (IZR v).
Proof.
  rewrite exposure_ratio, <- Rpower_pow by apply exp_pos.
  rewrite Rpower_mult. f_equal. simpl. field.
Qed.

Lemma exposure_50_bounds : 5.52 < On_exposure_change 50 < 5.53.
Proof.
  pose proof (exposure_pow23 50) as H.
  replace (IZR 50) with (INR 50) in H by (simpl; lra).
  rewrite Rpower_pow in H by lra.
  assert (Hpos : 0 < On_exposure_change 50 / 0.037)
    by (rewrite exposure_ratio; apply exp_pos).
  assert (H1 : 149.19 < On_exposure_change 50 / 0.037).
  { apply (pow_lt_inv _ _ 23); [lra | lra |]. rewrite H. simpl. lra. }
  assert (H2 : On_exposure_change 50 / 0.037 < 149.45).
  { apply (pow_lt_inv _ _ 23); [lra | lra |]. rewrite H. simpl. lra. }
  lra.
Qed.

(** C9, as the code has it: the exposure handed to the camera for a slider
    value [v] is [0.037 * 10^(v/23)] ms, the positive number whose ratio to
    0.037 has [10^v] as its 23rd power; for [v = 50] that is between 5.52
    and 5.53 ms. *)
Theorem On_exposure_change_formula :
  (forall v : Z,
      On_exposure_change v = 0.037 * Rpower 10 (IZR v / 23) /\
      0 < On_exposure_change v /\
      (On_exposure_change v / 0.037) ^ 23 = Rpower 10 (IZR v)) /\
  5.52 < On_exposure_change 50 < 5.53.
Proof.
  split; [| exact exposure_50_bounds].
  intros v. split; [reflexivity | split].
  - unfold On_exposure_change. apply Rmult_lt_0_compat; [lra | apply exp_pos].
  - apply exposure_pow23.
Qed.

(** C9 fails as stated: the exposure for slider value 50 is below 5.53 ms,
    almost a millisecond away from 6.51 ms. *)
Lemma On_exposure_change_50_not_6_51 :
  ~ (Rabs (On_exposure_change 50 - 6.51) <= 0.9).
Proof.
  pose proof exposure_50_bounds as [_ Hhi]. intros Habs.
  unfold Rabs in Habs.
  destruct (Rcase_abs (On_exposure_change 50 - 6.51)); lra.
Qed.

Local Close Scope R_scope.

(** ** Slices and crops *)

Lemma adjust_index_le (i : Z) (n : nat) : (Py.adjust_index i n <= n)%nat.
Proof.
  unfold Py.adjust_index.
  destruct (Z.ltb_spec i 0).
  - destruct (Z.ltb_spec (i + Z.of_nat n) 0); lia.
  - destruct (Z.leb_spec (Z.of_nat n) i); lia.
Qed.

Lemma slice_len_le (lo hi : Z) (n : nat) : (Py.slice_len lo hi n <= n)%nat.
Proof.
  unfold Py.slice_len. pose proof (adjust_index_le hi n). lia.
Qed.

Lemma slice_length {A} (lo hi : Z) (l : list A) :
  List.length (Py.slice lo hi l) = Py.slice_len lo hi (List.length l).
Proof.
  unfold Py.slice. rewrite length_firstn, length_skipn.
  unfold Py.slice_len. pose proof (adjust_index_le hi (List.length l)). lia.
Qed.

Lemma slice_len_in_range (lo hi : Z) (n : nat) :
  (0 <= lo <= hi)%Z -> (hi <= Z.of_nat n)%Z ->
  Py.slice_len lo hi n = Z.to_nat (hi - lo).
Proof.
  intros H1 H2. unfold Py.slice_len.
  rewrite !adjust_index_nonneg by lia. lia.
Qed.

Lemma slice_incl {A} (lo hi : Z) (l : list A) (x : A) :
  In x (Py.slice lo hi l) -> In x l.
Proof.
  unfold Py.slice. intros H.
  set (n := Py.slice_len lo hi (List.length l)) in *.
  set (k := Py.adjust_index lo (List.length l)) in *.
  rewrite <- (firstn_skipn k l). apply in_or_app. right.
  rewrite <- (firstn_skipn n (skipn k l)). apply in_or_app. now left.
Qed.

Lemma slice_nth {A} (lo hi : Z) (l : list A) (i : nat) (d : A) :
  (i < Py.slice_len lo hi (List.length l))%nat ->
  nth i (Py.slice lo hi l) d = nth (Py.adjust_index lo (List.length l) + i) l d.
Proof.
  intros Hi. unfold Py.slice.
  rewrite nth_firstn.
  destruct (Nat.ltb_spec i (Py.slice_len lo hi (List.length l))); [| lia].
  apply nth_skipn.
Qed.

Lemma py_int_inject_Z (z : Z) : py_int (inject_Z z) = z.
Proof.
  unfold py_int, inject_Z. cbn. apply Z.quot_1_r.
Qed.

Lemma nd_crop_wf (r0 r1 c0 c1 : Z) (a : ndarray) :
  wf a -> wf (nd_crop r0 r1 c0 c1 a).
Proof.
  unfold wf, nd_crop. cbn [rows ncols]. intros Ha.
  rewrite Forall_forall in *. intros r Hr.
  apply in_map_iff in Hr as [r' [<- Hin]].
  rewrite slice_length. f_equal. apply Ha. eapply slice_incl, Hin.
Qed.

Lemma nd_crop_nrows (r0 r1 c0 c1 : Z) (a : ndarray) :
  nrows (nd_crop r0 r1 c0 c1 a) = Py.slice_len r0 r1 (nrows a).
Proof.
  unfold nrows, nd_crop. cbn [rows]. now rewrite length_map, slice_length.
Qed.

(** A cell of the crop is the cell of the full frame displaced by the
    lower bounds. *)
Lemma nd_crop_cell (r0 r1 c0 c1 : Z) (a : ndarray) (i j : nat) :
  wf a ->
  (i < Py.slice_len r0 r1 (nrows a))%nat ->
  (j < Py.slice_len c0 c1 (ncols a))%nat ->
  cell (nd_crop r0 r1 c0 c1 a) i j
  = cell a (Py.adjust_index r0 (nrows a) + i) (Py.adjust_index c0 (ncols a) + j).
Proof.
  intros Ha Hi Hj. unfold cell, nd_crop. cbn [rows].
  rewrite (nth_indep _ [] (Py.slice c0 c1 []))
    by (rewrite length_map, slice_length; exact Hi).
  rewrite map_nth.
  rewrite (slice_nth r0 r1 (rows a) i []) by exact Hi.
  fold (nrows a).
  assert (Hrow : (Py.adjust_index r0 (nrows a) + i < nrows a)%nat).
  { unfold Py.slice_len in Hi. pose proof (adjust_index_le r1 (nrows a)). lia. }
  pose proof (wf_nth_length a _ Ha Hrow) as Hlen.
  rewrite slice_nth by (rewrite Hlen; exact Hj).
  now rewrite Hlen.
Qed.

(** ** Projections *)

Lemma sum_axis1_length (a : ndarray) : List.length (sum_axis1 a) = nrows a.
Proof.
  unfold sum_axis1, nrows. apply length_map.
Qed.

Lemma sum_axis0_length (a : ndarray) :
  wf a -> List.length (sum_axis0 a) = ncols a.
Proof.
  unfold wf, sum_axis0. generalize (ncols a) as n. intros n.
  induction (rows a) as [|r rs IH]; intros Hwf.
  - apply repeat_length.
  - cbn [fold_right]. inversion Hwf as [|? ? Hr Hrs]; subst.
    rewrite zip_with_length, IH by assumption. lia.
Qed.

(** The sums are those of the columns and of the rows. *)
Lemma sum_axis0_nth (a : ndarray) (j : nat) :
  wf a -> (j < ncols a)%nat ->
  nth j (sum_axis0 a) 0%Z
  = fold_right Z.add 0%Z (map (fun r => nth j r 0%Z) (rows a)).
Proof.
  intros Hwf Hj. pose proof (sum_axis0_length a) as Hlen.
  unfold wf, sum_axis0 in *. revert Hwf Hlen Hj. generalize (ncols a) as n. intros n.
  induction (rows a) as [|r rs IH]; intros Hwf Hlen Hj.
  - cbn. apply nth_repeat.
  - inversion Hwf as [|? ? Hr Hrs]; subst. cbn [fold_right map].
    assert (Hacc : List.length (fold_right (zip_with Z.add)
                                  (repeat 0%Z (List.length r)) rs)
                   = List.length r).
    { clear IH Hlen Hj Hwf. induction rs as [|r' rs' IH']; [apply repeat_length|].
      inversion Hrs; subst. cbn [fold_right].
      rewrite zip_with_length, IH' by assumption. lia. }
    rewrite (zip_with_nth Z.add r _ j 0%Z 0%Z 0%Z) by lia.
    f_equal. apply IH; [assumption | intros _; exact Hacc | exact Hj].
Qed.

Lemma sum_axis1_nth (a : ndarray) (i : nat) :
  nth i (sum_axis1 a) 0%Z = fold_right Z.add 0%Z (nth i (rows a) []).
Proof.
  unfold sum_axis1.
  apply (map_nth (fun r => fold_right Z.add 0%Z r) (rows a) [] i).
Qed.

(** ** The position of the maximum *)

Lemma argmax_from_spec (pre l : list Z) (best : Z) (besti : nat) :
  (besti < List.length pre)%nat ->
  best = nth besti pre 0%Z ->
  (forall j, (j < List.length pre)%nat -> (nth j pre 0 <= best)%Z) ->
  (forall j, (j < besti)%nat -> (nth j pre 0 < best)%Z) ->
  let k := Py.argmax_from best besti (List.length pre) l in
  (k < List.length (pre ++ l))%nat /\
  (forall j, (j < List.length (pre ++ l))%nat ->
             (nth j (pre ++ l) 0 <= nth k (pre ++ l) 0)%Z) /\
  (forall j, (j < k)%nat -> (nth j (pre ++ l) 0 < nth k (pre ++ l) 0)%Z).
Proof.
  revert pre best besti. induction l as [|x t IH]; intros pre best besti Hb Hv Hle Hlt.
  - cbn [Py.argmax_from]. rewrite app_nil_r. subst best. auto.
  - cbn [Py.argmax_from].
    replace (pre ++ x :: t) with ((pre ++ [x]) ++ t) by now rewrite <- app_assoc.
    replace (S (List.length pre)) with (List.length (pre ++ [x]))
      by (rewrite length_app; cbn; lia).
    assert (Hx : nth (List.length pre) (pre ++ [x]) 0%Z = x)
      by (rewrite app_nth2, Nat.sub_diag by lia; reflexivity).
    assert (Hold : forall j, (j < List.length pre)%nat ->
                             nth j (pre ++ [x]) 0%Z = nth j pre 0%Z)
      by (intros; now apply app_nth1).
    destruct (Z.ltb_spec best x) as [Hlt'|Hge].
    + apply IH.
      * rewrite length_app. cbn. lia.
      * now rewrite Hx.
      * intros j Hj. rewrite length_app in Hj. cbn in Hj.
        destruct (Nat.eq_dec j (List.length pre)) as [->|Hne].
        -- rewrite Hx. lia.
        -- rewrite Hold by lia. specialize (Hle j). lia.
      * intros j Hj. rewrite Hold by lia. specialize (Hle j). lia.
    + apply IH.
      * rewrite length_app. cbn. lia.
      * rewrite Hold by lia. exact Hv.
      * intros j Hj. rewrite length_app in Hj. cbn in Hj.
        destruct (Nat.eq_dec j (List.length pre)) as [->|Hne].
        -- rewrite Hx. lia.
        -- rewrite Hold by lia. apply Hle. lia.
      * intros j Hj. rewrite Hold by lia. now apply Hlt.
Qed.

(** [np.argmax] returns the first index of a largest element. *)
Lemma np_argmax_spec (l : list Z) :
  l <> [] ->
  exists k, Py.np_argmax l = Ok k /\ (k < List.length l)%nat /\
    (forall j, (j < List.length l)%nat -> (nth j l 0 <= nth k l 0)%Z) /\
    (forall j, (j < k)%nat -> (nth j l 0 < nth k l 0)%Z).
Proof.
  destruct l as [|x t]; [congruence|]. intros _.
  exists (Py.argmax_from x 0 1 t). split; [reflexivity|].
  apply (argmax_from_spec [x] t x 0%nat); cbn; try lia; try reflexivity.
  intros [|j] Hj; [lia | cbn in Hj; lia].
Qed.

(** ** Row-major positions *)

Lemma flatten_length (a : ndarray) :
  wf a -> List.length (flatten a) = (nrows a * ncols a)%nat.
Proof.
  unfold wf, flatten, nrows. generalize (ncols a) as w. intros w.
  induction (rows a) as [|r rs IH]; intros Hwf; [reflexivity|].
  inversion Hwf; subst. cbn [List.concat List.length].
  rewrite length_app, IH by assumption. lia.
Qed.

Lemma flatten_nth (a : ndarray) (k : nat) :
  wf a -> (k < nrows a * ncols a)%nat ->
  nth k (flatten a) 0%Z = cell a (k / ncols a) (k mod ncols a).
Proof.
  unfold wf, flatten, nrows, cell. generalize (ncols a) as w. intros w.
  revert k. induction (rows a) as [|r rs IH]; intros k Hwf Hk; [cbn in Hk; lia|].
  inversion Hwf as [|? ? Hr Hrs]; subst.
  assert (Hw : (0 < List.length r)%nat) by (destruct (List.length r); cbn in Hk; lia).
  cbn [List.concat]. destruct (Nat.ltb_spec k (List.length r)) as [Hlt|Hge].
  - rewrite app_nth1, Nat.div_small, Nat.mod_small by assumption. reflexivity.
  - rewrite app_nth2 by assumption.
    assert (Hk' : (k - List.length r < List.length rs * List.length r)%nat)
      by (cbn [List.length] in Hk; lia).
    rewrite (IH _ Hrs Hk').
    replace k with ((k - List.length r) + 1 * List.length r)%nat at 3 4 by lia.
    rewrite Nat.div_add, Nat.Div0.mod_add by lia.
    replace ((k - List.length r) / List.length r + 1)%nat
      with (S ((k - List.length r) / List.length r)) by lia.
    reflexivity.
Qed.

Lemma flatten_position (a : ndarray) (i j : nat) :
  wf a -> (i < nrows a)%nat -> (j < ncols a)%nat ->
  (i * ncols a + j < nrows a * ncols a)%nat /\
  cell a i j = nth (i * ncols a + j) (flatten a) 0%Z.
Proof.
  intros Ha Hi Hj.
  assert (Hk : (i * ncols a + j < nrows a * ncols a)%nat) by nia.
  split; [exact Hk|].
  rewrite flatten_nth by assumption.
  rewrite (Nat.add_comm (i * ncols a) j), Nat.div_add, Nat.Div0.mod_add by lia.
  rewrite Nat.div_small, Nat.mod_small by assumption. reflexivity.
Qed.

Lemma flatten_nonempty (a : ndarray) :
  wf a -> (0 < nrows a)%nat -> (0 < ncols a)%nat -> flatten a <> [].
Proof.
  intros Ha Hr Hc Hnil. apply (f_equal (@List.length Z)) in Hnil.
  rewrite flatten_length in Hnil by assumption. cbn in Hnil. nia.
Qed.

(** [get1DIntensity] on a non-empty array: the row and the column through
    the first largest pixel. *)
Lemma get1DIntensity_run (im : ndarray) :
  wf im -> (0 < nrows im)%nat -> (0 < ncols im)%nat ->
  exists k,
    Py.np_argmax (flatten im) = Ok k /\
    (k / ncols im < nrows im)%nat /\ (k mod ncols im < ncols im)%nat /\
    (forall i j, (i < nrows im)%nat -> (j < ncols im)%nat ->
        (cell im i j <= cell im (k / ncols im) (k mod ncols im))%Z) /\
    get1DIntensity AxisH im
    = Ok (nth (k / ncols im) (rows im) [], (k / ncols im, k mod ncols im))%nat /\
    get1DIntensity AxisV im
    = Ok (map (fun r => nth (k mod ncols im) r 0%Z) (rows im),
          (k / ncols im, k mod ncols im))%nat.
Proof.
  intros Ha Hr Hc.
  destruct (np_argmax_spec (flatten im) (flatten_nonempty im Ha Hr Hc))
    as (k & Hk & Hlt & Hmax & _).
  rewrite flatten_length in Hlt by assumption.
  assert (Hrow : (k / ncols im < nrows im)%nat)
    by (apply Nat.Div0.div_lt_upper_bound; lia).
  assert (Hcol : (k mod ncols im < ncols im)%nat)
    by (apply Nat.mod_upper_bound; lia).
  exists k. repeat split; try assumption.
  - intros i j Hi Hj.
    destruct (flatten_position im i j Ha Hi Hj) as [Hpos ->].
    rewrite <- flatten_nth by assumption.
    apply Hmax. now rewrite flatten_length.
  - unfold get1DIntensity. rewrite Hk. cbn [rbind unravel_index].
    unfold nd_row, Py.getitem.
    destruct (nth_error (rows im) (k / ncols im)) as [r|] eqn:E.
    + cbn [rbind]. now rewrite (nth_error_nth _ _ _ E).
    + apply nth_error_None in E. unfold nrows in Hrow. lia.
  - unfold get1DIntensity. rewrite Hk. cbn [rbind unravel_index].
    unfold nd_col. apply Nat.ltb_lt in Hcol. rewrite Hcol. reflexivity.
Qed.

(** ** Rescaling *)

Lemma rescale255_run (v : list float) :
  v <> [] ->
  exists m, np_fmax v = Ok m /\
    rescale255 v = Ok (map (fun x => PrimFloat.mul x (PrimFloat.div 255 m)) v).
Proof.
  destruct v as [|x t]; [congruence|]. intros _.
  exists (fold_left fmax2 t x). split; reflexivity.
Qed.

Lemma nonempty_of_length {A} (l : list A) : (0 < List.length l)%nat -> l <> [].
Proof.
  destruct l; cbn; [lia | discriminate].
Qed.

(** ** Attributes a method leaves alone *)

Lemma pres_ret {X A} (f : main -> X) (a : A) : preserves f (ret a).
Proof. intros s. reflexivity. Qed.

Lemma pres_lift {X A} (f : main -> X) (r : result A) : preserves f (lift r).
Proof. intros s. reflexivity. Qed.

Lemma pres_gets {X A} (f : main -> X) (g : main -> A) : preserves f (gets g).
Proof. intros s. reflexivity. Qed.

Lemma pres_modify {X} (f : main -> X) (g : main -> main) :
  (forall s, f (g s) = f s) -> preserves f (modify g).
Proof. intros H s. apply H. Qed.

Lemma pres_bind {X A B} (f : main -> X) (m : M A) (k : A -> M B) :
  preserves f m -> (forall a, preserves f (k a)) -> preserves f (bind m k).
Proof.
  intros Hm Hk s. unfold bind. specialize (Hm s).
  destruct (m s) as [[a|e] s']; cbn [snd] in *.
  - now rewrite Hk.
  - exact Hm.
Qed.

Lemma pres_try_print {X} (f : main -> X) (body : M unit) :
  preserves f body -> (forall e s, f (print e s) = f s) ->
  preserves f (try_print body).
Proof.
  intros Hb Hp s. unfold try_print. specialize (Hb s).
  destruct (body s) as [[a|e] s']; cbn [snd] in *.
  - exact Hb.
  - now rewrite Hp.
Qed.

Lemma bind_gets {A B} (f : main -> A) (k : A -> M B) (s : main) :
  bind (gets f) k s = k (f s) s.
Proof. reflexivity. Qed.

Lemma bind_lift_ok {A B} (a : A) (k : A -> M B) (s : main) :
  bind (lift (Ok a)) k s = k a s.
Proof. reflexivity. Qed.

Lemma bind_lift_raise {A B} (e : exn) (k : A -> M B) (s : main) :
  bind (lift (Raise e)) k s = (Raise e, s).
Proof. reflexivity. Qed.

Lemma bind_modify {B} (g : main -> main) (k : unit -> M B) (s : main) :
  bind (modify g) k s = k tt (g s).
Proof. reflexivity. Qed.

Lemma bind_modify_fig {B} (g : plots -> plots) (k : unit -> M B) (s : main) :
  bind (modify_fig g) k s = k tt (set_fig (g (fig s)) s).
Proof. reflexivity. Qed.

Ltac pres_step :=
  lazymatch goal with
  | |- preserves _ (bind _ _) => apply pres_bind; [| intros ?]
  | |- preserves _ (ret _) => apply pres_ret
  | |- preserves _ (lift _) => apply pres_lift
  | |- preserves _ (gets _) => apply pres_gets
  | |- preserves _ (modify _) => apply pres_modify; intros ?; reflexivity
  | |- preserves _ (modify_fig _) => apply pres_modify; intros ?; reflexivity
  | |- preserves _ (try_print _) =>
      apply pres_try_print; [| intros ? ?; reflexivity]
  | |- preserves _ (calc_waists _ _) => unfold calc_waists, calc_waists_body
  | |- preserves _ (if ?c then _ else _) => destruct c
  | |- preserves _ (match ?x with _ => _ end) => destruct x
  end.

Ltac pres := cbv zeta; repeat pres_step.

(** ** Subtracting the background *)

Lemma nd_map_wf (f : Z -> Z) (a : ndarray) : wf a -> wf (nd_map f a).
Proof.
  unfold wf, nd_map. cbn [rows ncols]. intros Ha.
  rewrite Forall_forall in *. intros r Hr.
  apply in_map_iff in Hr as [r' [<- Hin]].
  rewrite length_map. now apply Ha.
Qed.

(** With a background that fits, the subtraction of line 313 returns a
    well-formed array of the shape of the frame. *)
Lemma sub_background_run (frame : ndarray) (bg : background) :
  wf frame -> background_fits bg frame ->
  exists full, sub_background frame bg = Ok full /\ wf full /\
               shape full = shape frame.
Proof.
  intros Hf Hbg. destruct bg as [|b]; cbn [sub_background background_fits] in *.
  - eexists. split; [reflexivity|]. split.
    + now apply nd_map_wf.
    + apply nd_map_shape.
  - destruct Hbg as [Hb Hs]. eexists. split; [now apply nd_zip_ok|]. split.
    + now apply nd_zip_wf.
    + now apply nd_zip_shape.
Qed.

Lemma crop_AOI_shape (a : AOI_rect) (x y : ndarray) :
  shape x = shape y -> shape (crop_AOI a x) = shape (crop_AOI a y).
Proof.
  intros H. pose proof (f_equal fst H) as Hr. pose proof (f_equal snd H) as Hc.
  cbn [fst snd shape] in Hr, Hc.
  unfold shape, crop_AOI. rewrite !nd_crop_nrows. cbn [nd_crop ncols].
  now rewrite Hr, Hc.
Qed.

(** ** Facts about binary64 values, by evaluation *)

Lemma fold_fmax2_zeros (n : nat) :
  fold_left fmax2 (repeat 0%float n) 0%float = 0%float.
Proof.
  induction n as [|n IH]; [reflexivity|]. cbn [repeat fold_left].
  change (fmax2 0 0) with 0%float. exact IH.
Qed.

Lemma fmax2_cases (a b : float) : fmax2 a b = a \/ fmax2 a b = b.
Proof.
  unfold fmax2. destruct (PrimFloat.is_nan a); [now left|].
  destruct (PrimFloat.is_nan b); [now right|].
  destruct (PrimFloat.ltb a b); [now right | now left].
Qed.

Lemma np_fmax_In (v : list float) (m : float) : np_fmax v = Ok m -> In m v.
Proof.
  destruct v as [|x t]; [discriminate|]. cbn [np_fmax]. intros [= <-].
  revert x. induction t as [|y t IH]; intros x; [now left|].
  cbn [fold_left]. destruct (IH (fmax2 x y)) as [H|H].
  - rewrite <- H. destruct (fmax2_cases x y) as [E|E]; rewrite E.
    + now left.
    + right. now left.
  - right. right. exact H.
Qed.

Lemma all_in_spec (P : Z -> bool) (d : nat) (lo z : Z) :
  all_in P d lo = true -> (lo <= z < lo + 2 ^ Z.of_nat d)%Z -> P z = true.
Proof.
  revert lo. induction d as [|d IH]; intros lo H Hz.
  - cbn in *. replace z with lo by lia. exact H.
  - cbn [all_in] in H. apply andb_prop in H as [H1 H2].
    rewrite Nat2Z.inj_succ, Z.pow_succ_r in Hz by lia.
    destruct (Z.lt_ge_cases z (lo + 2 ^ Z.of_nat d)).
    + apply (IH lo); [assumption | lia].
    + apply (IH (lo + 2 ^ Z.of_nat d)%Z); [assumption | lia].
Qed.

(** Every positive integer up to [2^19] (more than 255 times 1280) is sent
    to within one unit in the last place of 255. *)
Lemma maps_to_255_upto (z : Z) : (1 <= z <= 524288)%Z -> maps_to_255 z = true.
Proof.
  intros Hz. apply (all_in_spec maps_to_255 19 1); [| cbn; lia].
  vm_compute. reflexivity.
Qed.

Lemma rescale_zeros (n : nat) (m : float) :
  np_fmax (map float_of_Z (repeat 0%Z (S n))) = Ok m ->
  map (fun x => PrimFloat.mul x (PrimFloat.div 255 m))
      (map float_of_Z (repeat 0%Z (S n)))
  = repeat PrimFloat.nan (S n).
Proof.
  rewrite map_repeat. change (float_of_Z 0) with 0%float.
  cbn [repeat np_fmax]. rewrite fold_fmax2_zeros. intros [= <-].
  change (0%float :: repeat 0%float n) with (repeat 0%float (S n)).
  rewrite map_repeat. reflexivity.
Qed.

Section FitFacts.

Variable np_exp : float -> float.
Variable curve_fit :
  (float -> params -> float) -> list Z -> list Z -> guess -> result params.

Let calc_waists' := calc_waists np_exp curve_fit.

(** [calc_waists] never raises. *)
Lemma calc_waists_returns (s : main) : fst (calc_waists' s) = Ok tt.
Proof.
  unfold calc_waists', calc_waists, try_print.
  destruct (calc_waists_body np_exp curve_fit s) as [[[]|e] s']; reflexivity.
Qed.

(** What [calc_waists] never assigns: the frames, the projections' curves,
    the raw curves and the AOI. *)
Lemma calc_waists_keeps (s : main) :
  let s' := snd (calc_waists' s) in
  AOI s' = AOI s /\ imdata_full s' = imdata_full s /\ imdata s' = imdata s /\
  hdata s' = hdata s /\ vdata s' = vdata s /\
  backgroundImage s' = backgroundImage s /\ continuous s' = continuous s /\
  image (fig s') = image (fig s) /\
  hplot (fig s') = hplot (fig s) /\ vplot (fig s') = vplot (fig s) /\
  hintplot (fig s') = hintplot (fig s) /\ vintplot (fig s') = vintplot (fig s).
Proof.
  cbv zeta. revert s.
  assert (K : forall X (f : main -> X),
             (forall e s, f (print e s) = f s) ->
             preserves f (calc_waists_body np_exp curve_fit) ->
             forall s, f (snd (calc_waists' s)) = f s).
  { intros X f Hp Hb. apply pres_try_print; assumption. }
  intros s. unfold calc_waists_body in K.
  repeat split.
  - apply (K _ AOI); [reflexivity | pres].
  - apply (K _ imdata_full); [reflexivity | pres].
  - apply (K _ imdata); [reflexivity | pres].
  - apply (K _ hdata); [reflexivity | pres].
  - apply (K _ vdata); [reflexivity | pres].
  - apply (K _ backgroundImage); [reflexivity | pres].
  - apply (K _ continuous); [reflexivity | pres].
  - apply (K _ (fun s => image (fig s))); [reflexivity | pres].
  - apply (K _ (fun s => hplot (fig s))); [reflexivity | pres].
  - apply (K _ (fun s => vplot (fig s))); [reflexivity | pres].
  - apply (K _ (fun s => hintplot (fig s))); [reflexivity | pres].
  - apply (K _ (fun s => vintplot (fig s))); [reflexivity | pres].
Qed.

Ltac run_method :=
  cbn [bind gets lift modify modify_fig ret fst snd
       AOI ax_xlim ax_ylim backgroundImage continuous waistListX waistListY
       imdata_full imdata hdata vdata fig waistTextBox stdout
       set_AOI set_ax_xlim set_ax_ylim set_backgroundImage set_continuous
       set_waistListX set_waistListY set_imdata_full set_imdata set_hdata
       set_vdata set_fig set_waistTextBox set_stdout
       image hplot vplot hintplot vintplot hintfit vintfit wxplot wyplot
       set_image set_hplot set_vplot set_hintplot set_vintplot set_hintfit
       set_vintfit set_wxplot set_wyplot].

(** One pass of the capture loop over a frame whose crop is not empty: no
    step raises, and every attribute the pass assigns is determined. *)
Lemma loop_body_run (s : main) (frame full : ndarray) :
  sub_background frame (backgroundImage s) = Ok full ->
  wf full ->
  (0 < nrows (crop_AOI (AOI s) full))%nat ->
  (0 < ncols (crop_AOI (AOI s) full))%nat ->
  exists k mh mv,
    Py.np_argmax (flatten (crop_AOI (AOI s) full)) = Ok k /\
    np_fmax (map float_of_Z (sum_axis0 (crop_AOI (AOI s) full))) = Ok mh /\
    np_fmax (map float_of_Z (sum_axis1 (crop_AOI (AOI s) full))) = Ok mv /\
    fst (loop_body np_exp curve_fit frame s) = Ok tt /\
    let im := crop_AOI (AOI s) full in
    let s' := exec (loop_body np_exp curve_fit frame) s in
    imdata_full s' = full /\ image (fig s') = full /\
    imdata s' = im /\ AOI s' = AOI s /\
    hdata s' = nth (k / ncols im) (rows im) [] /\
    vdata s' = map (fun r => nth (k mod ncols im) r 0%Z) (rows im) /\
    hplot (fig s') = line_of (hdata s') /\
    vplot (fig s') = line_of (vdata s') /\
    hintplot (fig s')
    = line_of (map (fun x => PrimFloat.mul x (PrimFloat.div 255 mh))
                   (map float_of_Z (sum_axis0 im))) /\
    vintplot (fig s')
    = line_of (map (fun x => PrimFloat.mul x (PrimFloat.div 255 mv))
                   (map float_of_Z (sum_axis1 im))).
Proof.
  intros Hsub Hwf Hr Hc.
  set (im := crop_AOI (AOI s) full) in *.
  assert (Him : wf im) by (apply nd_crop_wf, Hwf).
  assert (Hfull : flatten full <> []).
  { apply flatten_nonempty; [assumption | |].
    - unfold im, crop_AOI in Hr. rewrite nd_crop_nrows in Hr.
      pose proof (slice_len_le (py_int (ymin (AOI s))) (py_int (ymax (AOI s)))
                               (nrows full)). lia.
    - unfold im, crop_AOI, nd_crop in Hc. cbn [ncols] in Hc.
      pose proof (slice_len_le (py_int (xmin (AOI s))) (py_int (xmax (AOI s)))
                               (ncols full)). lia. }
  destruct (np_argmax_spec _ Hfull) as (k0 & Hk0 & _).
  destruct (get1DIntensity_run im Him Hr Hc) as (k & Hk & _ & _ & _ & HH & HV).
  destruct (rescale255_run (map float_of_Z (sum_axis0 im))) as (mh & Hmh & Hh).
  { apply nonempty_of_length. now rewrite length_map, sum_axis0_length. }
  destruct (rescale255_run (map float_of_Z (sum_axis1 im))) as (mv & Hmv & Hv).
  { apply nonempty_of_length. now rewrite length_map, sum_axis1_length. }
  exists k, mh, mv. split; [exact Hk|]. split; [exact Hmh|]. split; [exact Hmv|].
  unfold exec, loop_body. run_method.
  rewrite Hsub. run_method. rewrite Hk0. run_method.
  fold (crop_AOI (AOI s) full). fold im.
  rewrite HH. run_method. rewrite HV. run_method.
  rewrite Hv. run_method. rewrite Hh. run_method.
  match goal with
  | |- context [(if ?c then calc_waists _ _ else ret tt) ?st] =>
      set (s1 := st); destruct c
  end.
  - pose proof (calc_waists_returns s1) as Hret.
    pose proof (calc_waists_keeps s1) as Hkeep. cbv zeta in Hkeep.
    unfold calc_waists' in *.
    destruct Hkeep as (K1 & K2 & K3 & K4 & K5 & _ & _ & K8 & K9 & K10 & K11 & K12).
    split; [exact Hret|]. cbv zeta.
    rewrite K1, K2, K3, K4, K5, K8, K9, K10, K11, K12.
    repeat split.
  - repeat split.
Qed.

(** ** The residual frame *)

(** C1: for a raw frame [F] and a recorded background [B] of the same shape,
    a pass of the capture loop stores as full residual the array of the
    differences [F - B], cell by cell and with no clamping (the values are
    integers and may be negative); the AOI crop is taken from that residual
    afterwards. *)
Theorem loop_body_full_residual (s : main) (F B : ndarray) :
  backgroundImage s = BackgroundFrame B ->
  wf F -> wf B -> shape F = shape B ->
  let s' := exec (loop_body np_exp curve_fit F) s in
  shape (imdata_full s') = shape F /\
  (forall i j, (i < nrows F)%nat -> (j < ncols F)%nat ->
     cell (imdata_full s') i j = (cell F i j - cell B i j)%Z) /\
  ((0 < nrows F)%nat -> (0 < ncols F)%nat ->
     imdata s' = crop_AOI (AOI s) (imdata_full s')).
Proof.
  intros Hbg HF HB Hshape.
  set (full := mk_nd (ncols F) (zip_with (zip_with Z.sub) (rows F) (rows B))).
  assert (Hsub : sub_background F (backgroundImage s) = Ok full)
    by (rewrite Hbg; cbn [sub_background]; now apply nd_zip_ok).
  assert (Hfull : imdata_full (exec (loop_body np_exp curve_fit F) s) = full).
  { unfold exec, loop_body.
    rewrite bind_gets, Hsub, bind_lift_ok, bind_modify.
    match goal with
    | |- imdata_full (snd (?m ?st)) = _ =>
        transitivity (imdata_full st); [| reflexivity];
        generalize st; change (preserves imdata_full m)
    end.
    pres. }
  cbv zeta. rewrite Hfull. split; [| split].
  - now apply nd_zip_shape.
  - intros i j Hi Hj. now apply nd_zip_cell.
  - intros Hr Hc.
    assert (Hne : flatten full <> []).
    { apply flatten_nonempty.
      - now apply nd_zip_wf.
      - pose proof (f_equal fst (nd_zip_shape Z.sub F B Hshape)) as E.
        cbn [fst shape] in E. unfold full. lia.
      - exact Hc. }
    destruct (np_argmax_spec _ Hne) as (k0 & Hk0 & _).
    unfold exec, loop_body.
    rewrite bind_gets, Hsub, bind_lift_ok, bind_modify, bind_modify_fig.
    rewrite Hk0, bind_lift_ok, bind_gets, bind_modify.
    match goal with
    | |- imdata (snd (?m ?st)) = _ =>
        transitivity (imdata st); [| reflexivity];
        generalize st; change (preserves imdata m)
    end.
    pres.
Qed.

(** ** The crop of an AOI with integer bounds *)

Lemma crop_valid_dims (a : AOI_rect) (full : ndarray) (x0 x1 y0 y1 : Z) :
  a = AOI_of_Z x0 x1 y0 y1 ->
  valid_AOI (inject_Z (Z.of_nat (ncols full))) (inject_Z (Z.of_nat (nrows full))) a ->
  nrows (crop_AOI a full) = Z.to_nat (y1 - y0) /\
  ncols (crop_AOI a full) = Z.to_nat (x1 - x0) /\
  (0 < Z.to_nat (y1 - y0))%nat /\ (0 < Z.to_nat (x1 - x0))%nat.
Proof.
  intros -> Hv. unfold valid_AOI, AOI_of_Z, Qle, Qlt in Hv.
  cbn [xmin xmax ymin ymax inject_Z Qnum Qden] in Hv.
  unfold crop_AOI, AOI_of_Z. cbn [xmin xmax ymin ymax].
  rewrite !py_int_inject_Z, nd_crop_nrows. cbn [nd_crop ncols].
  rewrite !slice_len_in_range by lia. lia.
Qed.

(** ** Rescaling for display *)

(** C7, as the code has it: in a pass of the capture loop each projection
    is multiplied, element by element in binary64, by [255 / max] with no
    guard on [max].  When the maximum is a positive sum (up to [2^19]) its
    image is within one unit in the last place of 255.  When a projection is
    all zero the division [255 / 0] is carried out, its result is [+inf],
    and every element becomes NaN instead of staying zero. *)
Theorem display_rescale_unguarded (s : main) (frame : ndarray) :
  wf frame ->
  background_fits (backgroundImage s) frame ->
  (0 < nrows (crop_AOI (AOI s) frame))%nat ->
  (0 < ncols (crop_AOI (AOI s) frame))%nat ->
  let s' := exec (loop_body np_exp curve_fit frame) s in
  let hsum := sum_axis0 (imdata s') in
  let vsum := sum_axis1 (imdata s') in
  exists zh zv,
    In zh hsum /\ In zv vsum /\
    np_fmax (map float_of_Z hsum) = Ok (float_of_Z zh) /\
    np_fmax (map float_of_Z vsum) = Ok (float_of_Z zv) /\
    ydata (hintplot (fig s'))
    = map (fun x => PrimFloat.mul x (PrimFloat.div 255 (float_of_Z zh)))
          (map float_of_Z hsum) /\
    ydata (vintplot (fig s'))
    = map (fun x => PrimFloat.mul x (PrimFloat.div 255 (float_of_Z zv)))
          (map float_of_Z vsum) /\
    ((1 <= zh <= 524288)%Z -> maps_to_255 zh = true) /\
    ((1 <= zv <= 524288)%Z -> maps_to_255 zv = true) /\
    (hsum = repeat 0%Z (List.length hsum) ->
       ydata (hintplot (fig s')) = repeat PrimFloat.nan (List.length hsum)) /\
    (vsum = repeat 0%Z (List.length vsum) ->
       ydata (vintplot (fig s')) = repeat PrimFloat.nan (List.length vsum)) /\
    PrimFloat.div 255 (float_of_Z 0) = PrimFloat.infinity.
Proof.
  intros Hframe Hbg Hr Hc.
  destruct (sub_background_run frame _ Hframe Hbg) as (full & Hsub & Hwf & Hshape).
  pose proof (crop_AOI_shape (AOI s) full frame Hshape) as Hcs.
  pose proof (f_equal fst Hcs) as Er. pose proof (f_equal snd Hcs) as Ec.
  cbn [fst snd shape] in Er, Ec. rewrite <- Er in Hr. rewrite <- Ec in Hc.
  assert (Hcrop : wf (crop_AOI (AOI s) full)) by now apply nd_crop_wf.
  destruct (loop_body_run s frame full Hsub Hwf Hr Hc) as (k & mh & mv & Hrun).
  destruct Hrun as (_ & Hmh & Hmv & _ & Hrun). cbv zeta in Hrun.
  destruct Hrun as (_ & _ & Him & _ & _ & _ & _ & _ & Hhint & Hvint).
  cbv zeta. rewrite Him, Hhint, Hvint. cbn [ydata line_of].
  set (im := crop_AOI (AOI s) full) in *.
  destruct (proj1 (in_map_iff _ _ _) (np_fmax_In _ _ Hmh)) as (zh & Ezh & Hzh).
  destruct (proj1 (in_map_iff _ _ _) (np_fmax_In _ _ Hmv)) as (zv & Ezv & Hzv).
  subst mh mv. exists zh, zv.
  repeat split; try assumption; try reflexivity.
  - apply maps_to_255_upto.
  - apply maps_to_255_upto.
  - rewrite sum_axis0_length by assumption. intros E. rewrite E in Hmh |- *.
    destruct (ncols im) as [|n]; [lia|].
    rewrite (rescale_zeros n _ Hmh). reflexivity.
  - rewrite sum_axis1_length. intros E. rewrite E in Hmv |- *.
    destruct (nrows im) as [|n]; [lia|].
    rewrite (rescale_zeros n _ Hmv). reflexivity.
Qed.

(** ** The waist calculation *)

(** When [fit_axes] returns, both projections were non-empty and both calls
    of [curve_fit] returned. *)
Lemma fit_axes_ok_inv (s : main) (px py : params) :
  fit_axes np_exp curve_fit s = Ok (px, py) ->
  sum_axis0 (imdata s) <> [] /\ sum_axis1 (imdata s) <> [] /\
  exists p0x p0y,
    curve_fit (gaussian np_exp)
              (Py.arange (List.length (sum_axis0 (imdata s))))
              (sum_axis0 (imdata s)) p0x = Ok px /\
    curve_fit (gaussian np_exp)
              (Py.arange (List.length (sum_axis1 (imdata s))))
              (sum_axis1 (imdata s)) p0y = Ok py.
Proof.
  unfold fit_axes. cbv zeta. intros H.
  destruct (Py.np_max (sum_axis0 (imdata s))) as [mx|] eqn:Emx; [|discriminate].
  destruct (Py.np_argmax (sum_axis0 (imdata s))) as [ix|] eqn:Eix; [|discriminate].
  destruct (Py.np_max (sum_axis1 (imdata s))) as [my|] eqn:Emy; [|discriminate].
  destruct (Py.np_argmax (sum_axis1 (imdata s))) as [iy|] eqn:Eiy; [|discriminate].
  cbn [rbind] in H.
  match type of H with
  | rbind (curve_fit _ _ _ ?p) _ = _ =>
      destruct (curve_fit (gaussian np_exp)
                  (Py.arange (List.length (sum_axis0 (imdata s))))
                  (sum_axis0 (imdata s)) p) as [qx|] eqn:Efx; [|discriminate];
      cbn [rbind] in H
  end.
  match type of H with
  | rbind (curve_fit _ _ _ ?p) _ = _ =>
      destruct (curve_fit (gaussian np_exp)
                  (Py.arange (List.length (sum_axis1 (imdata s))))
                  (sum_axis1 (imdata s)) p) as [qy|] eqn:Efy; [|discriminate];
      cbn [rbind] in H
  end.
  injection H as <- <-.
  split; [| split].
  - intros E. rewrite E in Emx. discriminate.
  - intros E. rewrite E in Emy. discriminate.
  - eauto.
Qed.

(** A failed fit: the exception is printed and nothing else changes. *)
Lemma calc_waists_raise (s : main) (e : exn) :
  fit_axes np_exp curve_fit s = Raise e ->
  calc_waists np_exp curve_fit s = (Ok tt, print e s).
Proof.
  intros H. unfold calc_waists, try_print, calc_waists_body.
  rewrite bind_gets, H, bind_lift_raise. reflexivity.
Qed.

(** A successful fit, step by step. *)
Lemma calc_waists_ok (s : main) (px py : params) :
  fit_axes np_exp curve_fit s = Ok (px, py) ->
  waistListX s <> [] -> waistListY s <> [] ->
  exists hfit vfit,
    calc_waists np_exp curve_fit s
    = (Ok tt,
       set_waistTextBox
         (Some (PrimFloat.mul (PrimFloat.abs (width_of px)) pixel_size,
                PrimFloat.mul (PrimFloat.abs (width_of py)) pixel_size))
         (set_waistListY
            (PrimFloat.mul (PrimFloat.abs (width_of py)) pixel_size
               :: removelast (waistListY s))
            (set_waistListX
               (PrimFloat.mul (PrimFloat.abs (width_of px)) pixel_size
                  :: removelast (waistListX s))
               (set_fig (set_vintfit (line_of vfit)
                           (set_hintfit (line_of hfit) (fig s))) s)))).
Proof.
  intros Hfit HX HY.
  destruct (fit_axes_ok_inv s px py Hfit) as (Hx & Hy & _).
  destruct (rescale255_run
              (map (fun x => gaussian np_exp (float_of_Z x) px)
                   (Py.arange (List.length (sum_axis0 (imdata s))))))
    as (mh & _ & Hh).
  { apply nonempty_of_length. unfold Py.arange.
    rewrite !length_map, length_seq. destruct (sum_axis0 (imdata s)); [congruence | cbn; lia]. }
  destruct (rescale255_run
              (map (fun y => gaussian np_exp (float_of_Z y) py)
                   (Py.arange (List.length (sum_axis1 (imdata s))))))
    as (mv & _ & Hv).
  { apply nonempty_of_length. unfold Py.arange.
    rewrite !length_map, length_seq. destruct (sum_axis1 (imdata s)); [congruence | cbn; lia]. }
  eexists _, _.
  unfold calc_waists, try_print, calc_waists_body.
  rewrite bind_gets, Hfit, bind_lift_ok. cbv zeta.
  rewrite Hh, bind_lift_ok, Hv, bind_lift_ok.
  rewrite !bind_modify_fig, !bind_modify, bind_gets.
  run_method.
  change (Py.setitem0 (Py.np_roll (waistListX s) 1)
            (PrimFloat.mul (PrimFloat.abs (width_of px)) pixel_size))
    with (history_push (waistListX s)
            (PrimFloat.mul (PrimFloat.abs (width_of px)) pixel_size)).
  rewrite history_push_cons by assumption. run_method.
  change (Py.setitem0 (Py.np_roll (waistListY s) 1)
            (PrimFloat.mul (PrimFloat.abs (width_of py)) pixel_size))
    with (history_push (waistListY s)
            (PrimFloat.mul (PrimFloat.abs (width_of py)) pixel_size)).
  rewrite history_push_cons by assumption. run_method.
  reflexivity.
Qed.

(** On success each history buffer receives one push. *)
Lemma calc_waists_pushes (s : main) (px py : params) :
  fit_axes np_exp curve_fit s = Ok (px, py) ->
  waistListX s <> [] -> waistListY s <> [] ->
  history_push (waistListX s)
               (PrimFloat.mul (PrimFloat.abs (width_of px)) pixel_size)
  = Ok (waistListX (exec (calc_waists np_exp curve_fit) s)) /\
  history_push (waistListY s)
               (PrimFloat.mul (PrimFloat.abs (width_of py)) pixel_size)
  = Ok (waistListY (exec (calc_waists np_exp curve_fit) s)).
Proof.
  intros Hfit HX HY.
  destruct (calc_waists_ok s px py Hfit HX HY) as (hfit & vfit & Hrun).
  unfold exec. rewrite Hrun. cbn [snd].
  rewrite !history_push_cons by assumption. split; reflexivity.
Qed.

(** Whatever happens, the history buffers keep their length. *)
Lemma calc_waists_keeps_capacity (s : main) :
  waistListX s <> [] -> waistListY s <> [] ->
  List.length (waistListX (exec (calc_waists np_exp curve_fit) s))
  = List.length (waistListX s) /\
  List.length (waistListY (exec (calc_waists np_exp curve_fit) s))
  = List.length (waistListY s).
Proof.
  intros HX HY.
  destruct (fit_axes np_exp curve_fit s) as [[px py]|e] eqn:E.
  - destruct (calc_waists_pushes s px py E HX HY) as [Hx Hy].
    rewrite history_push_cons in Hx, Hy by assumption.
    injection Hx as <-. injection Hy as <-. cbn [List.length].
    rewrite !removelast_firstn_len, !length_firstn.
    destruct (waistListX s), (waistListY s); try congruence. cbn [List.length]. lia.
  - unfold exec. rewrite (calc_waists_raise s e E). split; reflexivity.
Qed.

(** C3: when the fit of either axis fails (the optimizer raises, or a
    projection is empty), [calc_waists] still returns normally; the fit
    overlays, the waist display and both history buffers are what they were
    (the whole state is, but for the printed exception).  A history buffer
    changes only if both fits returned; and with non-empty history buffers
    an invocation either prints an exception and changes nothing else, or
    fits both axes and prints nothing. *)
Theorem calc_waists_failure_retains (s : main) (e : exn) :
  fit_axes np_exp curve_fit s = Raise e ->
  let s' := exec (calc_waists np_exp curve_fit) s in
  fst (calc_waists np_exp curve_fit s) = Ok tt /\
  s' = print e s /\
  hintfit (fig s') = hintfit (fig s) /\ vintfit (fig s') = vintfit (fig s) /\
  waistTextBox s' = waistTextBox s /\
  waistListX s' = waistListX s /\ waistListY s' = waistListY s /\
  (forall t : main,
      waistListX (exec (calc_waists np_exp curve_fit) t) <> waistListX t \/
      waistListY (exec (calc_waists np_exp curve_fit) t) <> waistListY t ->
      exists px py p0x p0y,
        curve_fit (gaussian np_exp)
                  (Py.arange (List.length (sum_axis0 (imdata t))))
                  (sum_axis0 (imdata t)) p0x = Ok px /\
        curve_fit (gaussian np_exp)
                  (Py.arange (List.length (sum_axis1 (imdata t))))
                  (sum_axis1 (imdata t)) p0y = Ok py) /\
  (forall t : main,
      waistListX t <> [] -> waistListY t <> [] ->
      (exists e', fit_axes np_exp curve_fit t = Raise e' /\
                  exec (calc_waists np_exp curve_fit) t = print e' t) \/
      (exists px py, fit_axes np_exp curve_fit t = Ok (px, py) /\
                     stdout (exec (calc_waists np_exp curve_fit) t) = stdout t)).
Proof.
  intros H. cbv zeta. unfold exec. rewrite (calc_waists_raise s e H).
  cbn [fst snd]. repeat split.
  - intros t Ht.
    destruct (fit_axes np_exp curve_fit t) as [[px py]|e'] eqn:E.
    + destruct (fit_axes_ok_inv t px py E) as (_ & _ & p0x & p0y & Hx & Hy).
      exists px, py, p0x, p0y. split; assumption.
    + rewrite (calc_waists_raise t e' E) in Ht. cbn in Ht.
      destruct Ht as [Ht|Ht]; congruence.
  - intros t HX HY.
    destruct (fit_axes np_exp curve_fit t) as [[px py]|e'] eqn:E.
    + right. exists px, py. split; [reflexivity|].
      destruct (calc_waists_ok t px py E HX HY) as (hfit & vfit & Hrun).
      rewrite Hrun. reflexivity.
    + left. exists e'. split; [reflexivity|].
      now rewrite (calc_waists_raise t e' E).
Qed.


End FitFacts.

(** ** The statements on concrete frames *)

Lemma loop_body_full_residual_witness :
  cell (imdata_full (exec (loop_body no_exp fit_never frame_pair)
                          (exec (recordBackground bg_pair) main_init))) 0 0
  = (3 - 10)%Z.
Proof.
  exact (proj1 (proj2 (loop_body_full_residual
                         no_exp fit_never
                         (exec (recordBackground bg_pair) main_init)
                         frame_pair bg_pair eq_refl
                         ltac:(repeat constructor) ltac:(repeat constructor)
                         eq_refl))
               0%nat 0%nat ltac:(cbn; lia) ltac:(cbn; lia)).
Defined.

Lemma calc_waists_failure_retains_witness :
  exec (calc_waists no_exp fit_never) after_frame_15
  = print (FitFailure 0) after_frame_15.
Proof.
  exact (proj1 (proj2 (calc_waists_failure_retains
                         no_exp fit_never after_frame_15 (FitFailure 0)
                         ltac:(vm_compute; reflexivity)))).
Defined.


(** On the spot frame the raw curves are a row and a column of the crop,
    the projections are its column and row sums: different data. *)
Example raw_curve_is_not_projection :
  let s' := exec (loop_body no_exp fit_never spot_frame) zoomed_spot in
  rows (imdata s') = [[2; 3]; [5; 9]]%Z /\
  hdata s' = [5; 9]%Z /\ vdata s' = [3; 9]%Z /\
  sum_axis0 (imdata s') = [7; 12]%Z /\ sum_axis1 (imdata s') = [5; 14]%Z.
Proof.
  vm_compute. repeat split.
Qed.

Lemma display_rescale_unguarded_witness :
  exists zh,
    ydata (hintplot (fig (exec (loop_body no_exp fit_never spot_frame)
                               zoomed_spot)))
    = map (fun x => PrimFloat.mul x (PrimFloat.div 255 (float_of_Z zh)))
          (map float_of_Z
               (sum_axis0 (imdata (exec (loop_body no_exp fit_never spot_frame)
                                        zoomed_spot)))).
Proof.
  pose proof (display_rescale_unguarded
                no_exp fit_never zoomed_spot spot_frame
                ltac:(repeat constructor) I
                ltac:(vm_compute; lia) ltac:(vm_compute; lia)) as H.
  cbv zeta in H. destruct H as (zh & zv & _ & _ & _ & _ & H & _).
  exists zh. exact H.
Defined.

(** C7 fails as stated: on a dark frame both column sums are zero, the
    rescaling divides 255 by zero, and the curve handed to the display is
    made of NaN, not of zeros. *)
Lemma display_rescale_divides_by_zero :
  sum_axis0 (imdata after_dark_frame) = [0; 0]%Z /\
  np_fmax (map float_of_Z (sum_axis0 (imdata after_dark_frame))) = Ok 0%float /\
  PrimFloat.div 255 0 = PrimFloat.infinity /\
  ydata (hintplot (fig after_dark_frame)) = [PrimFloat.nan; PrimFloat.nan] /\
  ydata (hintplot (fig after_dark_frame)) <> [0; 0]%float.
Proof.
  repeat split; try (vm_compute; reflexivity).
  intros E.
  assert (H : map PrimFloat.is_nan (ydata (hintplot (fig after_dark_frame)))
              = map PrimFloat.is_nan [0; 0]%float) by now rewrite E.
  vm_compute in H. discriminate.
Qed.

(* ================================================================== *)
(** * Further properties of the code *)

(** ** Frames from the camera *)

Lemma chunks_spec (w n : nat) (buf : list Z) :
  List.length buf = (n * w)%nat ->
  List.length (chunks w n buf) = n /\
  Forall (fun r => List.length r = w) (chunks w n buf) /\
  List.concat (chunks w n buf) = buf.
Proof.
  revert buf. induction n as [|n IH]; intros buf Hlen.
  - cbn in *. destruct buf; [repeat split; constructor | discriminate].
  - cbn [chunks List.length List.concat].
    assert (Hk : List.length (skipn w buf) = (n * w)%nat)
      by (rewrite length_skipn, Hlen; cbn; lia).
    destruct (IH _ Hk) as (H1 & H2 & H3).
    repeat split.
    + now rewrite H1.
    + constructor; [| exact H2]. rewrite length_firstn, Hlen. cbn. lia.
    + rewrite H3. apply firstn_skipn.
Qed.

Lemma ubyte_range (b : Byte.byte) : (0 <= ubyte b < 256)%Z.
Proof.
  unfold ubyte. pose proof (Byte.to_N_bounded b). lia.
Qed.

(** X1: a buffer of [width * height] bytes becomes a well-formed array of
    [height] rows and [width] columns whose row-major reading is the buffer
    and whose cells are bytes, so that the conversion to 8 bits made when an
    image is saved changes nothing; a buffer of any other size raises. *)
Theorem get_image_frame (width height : nat) (c_img : list Byte.byte) :
  (List.length c_img = (height * width)%nat ->
   exists frame,
     get_image (width, height) c_img = Ok frame /\
     wf frame /\ shape frame = (height, width) /\
     flatten frame = map ubyte c_img /\
     (forall i j, (i < height)%nat -> (j < width)%nat ->
        (0 <= cell frame i j < 256)%Z) /\
     astype_uint8 frame = frame) /\
  (List.length c_img <> (height * width)%nat ->
   get_image (width, height) c_img = Raise ValueError).
Proof.
  unfold get_image, reshape. cbn [fst snd]. rewrite length_map. split; intros Hlen.
  - apply Nat.eqb_eq in Hlen as Heq. rewrite Heq. cbn [rbind].
    destruct (chunks_spec width height (map ubyte c_img)) as (H1 & H2 & H3);
      [now rewrite length_map|].
    set (a := mk_nd width (chunks width height (map ubyte c_img))) in *.
    assert (Hid : nd_map (fun x => x) a = a).
    { unfold nd_map, a. cbn [rows ncols]. f_equal.
      rewrite <- (map_id (chunks _ _ _)) at 2. apply map_ext, map_id. }
    rewrite Hid. exists a.
    assert (Hwf : wf a) by exact H2.
    assert (Hcell : forall i j, (i < height)%nat -> (j < width)%nat ->
                                (0 <= cell a i j < 256)%Z).
    { intros i j Hi Hj.
      destruct (flatten_position a i j Hwf) as [Hpos ->];
        [unfold nrows, a; cbn [rows]; lia | exact Hj |].
      unfold flatten, a. cbn [rows]. rewrite H3.
      rewrite (nth_indep _ 0%Z (ubyte Byte.x00)).
      - rewrite map_nth. apply ubyte_range.
      - unfold nrows, a in Hpos. cbn [rows ncols] in Hpos.
        rewrite length_map, Hlen. rewrite H1 in Hpos. exact Hpos. }
    repeat split; try assumption.
    + unfold shape, nrows, a. cbn [rows ncols]. now rewrite H1.
    + apply Hcell; assumption.
    + apply Hcell; assumption.
    + unfold astype_uint8, nd_map, a. cbn [rows ncols]. f_equal.
      rewrite <- (map_id (chunks _ _ _)) at 2.
      apply map_ext_in. intros r Hr.
      rewrite <- (map_id r) at 2. apply map_ext_in. intros x Hx.
      apply Z.mod_small.
      assert (Hin : In x (map ubyte c_img))
        by (rewrite <- H3; apply in_concat; eauto).
      apply in_map_iff in Hin as (b & <- & _). apply ubyte_range.
  - apply Nat.eqb_neq in Hlen. now rewrite Hlen.
Qed.

Lemma get_image_frame_witness :
  exists frame,
    get_image (2, 1)%nat [Byte.x03; Byte.xc8] = Ok frame /\ wf frame.
Proof.
  destruct (proj1 (get_image_frame 2 1 [Byte.x03; Byte.xc8]) eq_refl)
    as (frame & H & Hwf & _).
  exists frame. split; assumption.
Defined.

(** ** Rolling an array *)

(** X2: [np_roll] is numpy's roll: the result has the length of the array,
    the element at index [i] is found at index [(i + shift) mod n], and a
    shift by the length of the array changes nothing. *)
Theorem np_roll_moves_elements {A} (l : list A) (shift i : nat) (d : A) :
  (i < List.length l)%nat ->
  List.length (Py.np_roll l shift) = List.length l /\
  nth ((i + shift) mod List.length l) (Py.np_roll l shift) d = nth i l d /\
  Py.np_roll l (List.length l) = l.
Proof.
  intros Hi. split; [apply np_roll_length|].
  unfold Py.np_roll.
  destruct (List.length l) as [|m] eqn:En; [lia|].
  rewrite <- En in *. set (n := List.length l) in *.
  assert (Hn : (0 < n)%nat) by lia.
  split.
  - set (k := (shift mod n)%nat).
    assert (Hk : (k < n)%nat) by (apply Nat.mod_upper_bound; lia).
    rewrite <- Nat.Div0.add_mod_idemp_r. fold k.
    assert (Hlen : List.length (skipn (n - k) l) = k)
      by (rewrite length_skipn; fold n; lia).
    destruct (Nat.lt_ge_cases i (n - k)) as [Hlt|Hge].
    + rewrite Nat.mod_small by lia.
      rewrite app_nth2 by lia. rewrite Hlen.
      replace (i + k - k)%nat with i by lia.
      rewrite nth_firstn.
      destruct (Nat.ltb_spec i (n - k)); [reflexivity | lia].
    + replace (i + k)%nat with ((i + k - n) + 1 * n)%nat by lia.
      rewrite Nat.Div0.mod_add, Nat.mod_small by lia.
      rewrite app_nth1 by lia. rewrite nth_skipn. f_equal. lia.
  - rewrite Nat.Div0.mod_same, Nat.sub_0_r.
    unfold n. rewrite skipn_all, firstn_all. reflexivity.
Qed.

Lemma np_roll_moves_elements_witness :
  nth ((2 + 1) mod 3) (Py.np_roll [10; 20; 30]%Z 1) 0%Z = 30%Z.
Proof.
  exact (proj1 (proj2 (np_roll_moves_elements [10; 20; 30]%Z 1 2 0%Z
                         ltac:(cbn; lia)))).
Defined.

(** ** File names *)

Lemma string_of_list_ascii_app (l m : list ascii) :
  string_of_list_ascii (l ++ m)
  = (string_of_list_ascii l ++ string_of_list_ascii m)%string.
Proof.
  induction l as [|c l IH]; cbn; [reflexivity | now rewrite IH].
Qed.

Lemma append_inj_l (base x y : string) :
  (base ++ x)%string = (base ++ y)%string -> x = y.
Proof.
  induction base as [|c base IH]; cbn; intros H; [exact H|].
  injection H as H. now apply IH.
Qed.

(** A name passes the test of [saveFileDialog] only if it is some base
    followed by [.png]. *)
Lemma ends_with_png_inv (fileName : string) :
  ends_with_png fileName = true ->
  fileName = (strip4 fileName ++ ".png")%string.
Proof.
  unfold ends_with_png, strip4. intros H. apply String.eqb_eq in H.
  apply (f_equal list_ascii_of_string) in H.
  rewrite list_ascii_of_string_of_list_ascii in H.
  set (l := list_ascii_of_string fileName) in *.
  pose proof H as Hpng.
  assert (Hl : l = Py.slice_to (-4) l ++ list_ascii_of_string ".png").
  { rewrite <- H. clear H.
    unfold Py.slice_from, Py.slice_to, Py.slice, Py.slice_len.
    change (-4)%Z with (- Z.of_nat 4)%Z.
    rewrite adjust_index_len.
    assert (Hlong : (4 <= List.length l)%nat).
    { destruct (Nat.lt_ge_cases (List.length l) 4) as [Hshort|Hlong]; [|exact Hlong].
      exfalso. apply (f_equal (@List.length ascii)) in Hpng.
      unfold Py.slice_from in Hpng. rewrite slice_length in Hpng.
      pose proof (slice_len_le (-4) (Z.of_nat (List.length l)) (List.length l)).
      cbn in Hpng. lia. }
    rewrite (adjust_index_neg 4) by lia.
    rewrite (adjust_index_nonneg 0) by lia. cbn [Z.to_nat skipn].
    replace (List.length l - (List.length l - 4))%nat with 4%nat by lia.
    rewrite Nat.sub_0_r.
    rewrite (firstn_all2 (n := 4)) by (rewrite length_skipn; lia).
    symmetry. apply firstn_skipn. }
  rewrite <- (string_of_list_ascii_of_string fileName) at 1. fold l.
  rewrite Hl at 1. rewrite string_of_list_ascii_app. reflexivity.
Qed.

(** X3: whatever name the dialog returns, the image goes to a name ending
    in [.png] (the extension is added once, never doubled), the background
    file to a different name ending in [-bg.png], and the two names are the
    same base with these two endings. *)
Theorem saved_names_well_formed (fileName : string) :
  exists base,
    png_name fileName = (base ++ ".png")%string /\
    bg_name fileName = (base ++ "-bg.png")%string /\
    png_name fileName <> bg_name fileName /\
    png_name (png_name fileName) = png_name fileName /\
    (ends_with_png fileName = true -> fileName = (base ++ ".png")%string) /\
    (ends_with_png fileName = false -> fileName = base).
Proof.
  assert (Hne : forall b : string, (b ++ ".png")%string <> (b ++ "-bg.png")%string).
  { intros b Hb. apply append_inj_l in Hb. discriminate. }
  unfold png_name, bg_name.
  destruct (ends_with_png fileName) eqn:E.
  - exists (strip4 fileName). pose proof (ends_with_png_inv fileName E) as Hf.
    repeat split; try assumption; try discriminate.
    + rewrite Hf at 1. apply Hne.
    + now rewrite E.
    + intros _. exact Hf.
  - exists fileName. repeat split; try discriminate.
    + apply Hne.
    + now rewrite ends_with_png_suffix.
Qed.

(** ** The continuous-mode flag *)

(** X4: the flag of continuous mode is 0 or 1 after any click; from a
    value that is 0 or 1, [n] clicks leave it flipped exactly when [n] is
    odd, so two clicks restore it.  Nothing else changes. *)
Theorem toggleContinuousMode_parity (s : main) (n : nat) :
  (continuous s = 0 \/ continuous s = 1)%Z ->
  continuous (toggles n s) = ((continuous s + Z.of_nat n) mod 2)%Z /\
  (continuous (toggles n s) = 0 \/ continuous (toggles n s) = 1)%Z /\
  toggles 2 s = s /\
  fit_outputs (toggles n s) = fit_outputs s /\
  AOI (toggles n s) = AOI s /\
  backgroundImage (toggles n s) = backgroundImage s.
Proof.
  intros Hc.
  assert (Hval : continuous (toggles n s) = ((continuous s + Z.of_nat n) mod 2)%Z).
  { induction n as [|n IH].
    - cbn [toggles Z.of_nat]. rewrite Z.add_0_r. destruct Hc as [-> | ->]; reflexivity.
    - cbn [toggles]. unfold exec, toggleContinuousMode, modify. cbn [snd continuous set_continuous].
      rewrite IH, Nat2Z.inj_succ, Zplus_mod_idemp_l. f_equal. lia. }
  split; [exact Hval|]. split; [| split; [| split; [| split]]].
  - rewrite Hval. pose proof (Z.mod_pos_bound (continuous s + Z.of_nat n) 2). lia.
  - cbn [toggles]. unfold exec, toggleContinuousMode, modify.
    cbn [snd continuous set_continuous].
    destruct s as [a x y b c wx wy f im h v fg t o].
    cbn [continuous] in Hc. unfold set_continuous.
    cbn [AOI ax_xlim ax_ylim backgroundImage continuous waistListX waistListY
         imdata_full imdata hdata vdata fig waistTextBox stdout].
    destruct Hc as [-> | ->]; reflexivity.
  - clear Hval. induction n as [|n IH]; [reflexivity|]. cbn [toggles]. rewrite <- IH. reflexivity.
  - clear Hval. induction n as [|n IH]; [reflexivity|]. cbn [toggles]. rewrite <- IH. reflexivity.
  - clear Hval. induction n as [|n IH]; [reflexivity|]. cbn [toggles]. rewrite <- IH. reflexivity.
Qed.

Lemma toggleContinuousMode_parity_witness :
  continuous (toggles 3 main_init) = ((0 + 3) mod 2)%Z.
Proof.
  exact (proj1 (toggleContinuousMode_parity main_init 3 (or_introl eq_refl))).
Defined.

(** ** Setting and resetting the AOI *)

(** X5: a reset makes the AOI the full 1280 x 1024 sensor and the view
    equal to it, so a set-AOI request right after a reset leaves the AOI at
    the full sensor; a set-AOI request repeated without moving the view
    changes nothing more; and neither operation touches the view limits
    (set) or anything but AOI and view (reset). *)
Theorem AOI_reset_then_set (s : main) :
  ax_xlim (exec On_reset_AOI s) = (0, 1280)%Q /\
  ax_ylim (exec On_reset_AOI s) = (0, 1024)%Q /\
  AOI (exec On_set_AOI (exec On_reset_AOI s)) = AOI_init /\
  exec On_set_AOI (exec On_reset_AOI s) = exec On_reset_AOI s /\
  exec On_reset_AOI (exec On_reset_AOI s) = exec On_reset_AOI s /\
  exec On_set_AOI (exec On_set_AOI s) = exec On_set_AOI s /\
  ax_xlim (exec On_set_AOI s) = ax_xlim s /\
  ax_ylim (exec On_set_AOI s) = ax_ylim s /\
  fit_outputs (exec On_reset_AOI s) = fit_outputs s /\
  backgroundImage (exec On_reset_AOI s) = backgroundImage s.
Proof.
  destruct s as [a [xlo xhi] [ylo yhi] b c wx wy f im h v fg tb o].
  repeat split; reflexivity.
Qed.

(** ** The exposure curve *)

Local Open Scope R_scope.

Lemma exposure_increasing (v w : Z) :
  (v < w)%Z -> On_exposure_change v < On_exposure_change w.
Proof.
  intros H. unfold On_exposure_change.
  apply Rmult_lt_compat_l; [lra|].
  apply Rpower_lt; [lra|].
  apply IZR_lt in H. lra.
Qed.

(** X6: over the range of the slider, 1 to 100, each step multiplies the
    exposure by a factor between 1.105 and 1.106, 23 steps multiply it by
    ten to within one part in ten thousand, and a larger slider value gives
    an exposure larger by more than a tenth; at the slider value 23 the
    exposure is 0.37 ms to within 0.0001 ms. *)
Theorem exposure_grows_by_steps (v : Z) :
  (1 <= v <= 100)%Z ->
  (v = 23%Z -> 0.3699 < On_exposure_change v < 0.3701) /\
  ((v + 1 <= 100)%Z ->
     1.105 * On_exposure_change v < On_exposure_change (v + 1)
       < 1.106 * On_exposure_change v) /\
  ((v + 23 <= 100)%Z ->
     9.999 * On_exposure_change v < On_exposure_change (v + 23)
       < 10.001 * On_exposure_change v) /\
  (forall w : Z, (v < w <= 100)%Z ->
     1.105 * On_exposure_change v < On_exposure_change w).
Proof.
  intros _.
  assert (Hpos : 0 < On_exposure_change v)
    by (unfold On_exposure_change; apply Rmult_lt_0_compat; [lra | apply exp_pos]).
  assert (Hstep : On_exposure_change (v + 1)
                  = Rpower 10 (1 / 23) * On_exposure_change v).
  { unfold On_exposure_change. rewrite plus_IZR.
    replace ((IZR v + 1) / 23) with (1 / 23 + IZR v / 23) by field.
    rewrite Rpower_plus. ring. }
  assert (Hdec : On_exposure_change (v + 23) = 10 * On_exposure_change v).
  { unfold On_exposure_change. rewrite plus_IZR.
    replace ((IZR v + 23) / 23) with (IZR v / 23 + 1) by field.
    rewrite Rpower_plus, Rpower_1 by lra. ring. }
  assert (Hr : Rpower 10 (1 / 23) ^ 23 = 10).
  { rewrite <- Rpower_pow by apply exp_pos.
    rewrite Rpower_mult.
    replace (1 / 23 * INR 23) with 1 by (simpl; field).
    apply Rpower_1. lra. }
  assert (Hrpos : 0 < Rpower 10 (1 / 23)) by apply exp_pos.
  assert (Hlo : 1.105 < Rpower 10 (1 / 23)).
  { apply (pow_lt_inv _ _ 23); [lra | lra |]. rewrite Hr. simpl. lra. }
  assert (Hhi : Rpower 10 (1 / 23) < 1.106).
  { apply (pow_lt_inv _ _ 23); [lra | lra |]. rewrite Hr. simpl. lra. }
  assert (Hone : 1.105 * On_exposure_change v < On_exposure_change (v + 1))
    by (rewrite Hstep; apply Rmult_lt_compat_r; assumption).
  split; [| split; [| split]].
  - intros ->. unfold On_exposure_change.
    replace (23 / 23) with 1 by field.
    rewrite Rpower_1 by lra. lra.
  - intros _. rewrite Hstep. split; apply Rmult_lt_compat_r; assumption.
  - intros _. rewrite Hdec. lra.
  - intros w [Hw _].
    destruct (Z.eq_dec w (v + 1)) as [-> | Hne]; [exact Hone|].
    assert (On_exposure_change (v + 1) < On_exposure_change w)
      by (apply exposure_increasing; lia).
    lra.
Qed.

Lemma exposure_grows_by_steps_witness :
  1.105 * On_exposure_change 50 < On_exposure_change 51
    < 1.106 * On_exposure_change 50 /\
  9.999 * On_exposure_change 50 < On_exposure_change 73
    < 10.001 * On_exposure_change 50.
Proof.
  destruct (exposure_grows_by_steps 50 ltac:(lia)) as (_ & H1 & H2 & _).
  split; [exact (H1 ltac:(lia)) | exact (H2 ltac:(lia))].
Defined.

Lemma exposure_1_lower : 0.04 < On_exposure_change 1.
Proof.
  pose proof (exposure_pow23 1) as H.
  replace (IZR 1) with (INR 1) in H by (simpl; lra).
  rewrite Rpower_pow in H by lra.
  assert (Hpos : 0 < On_exposure_change 1 / 0.037)
    by (rewrite exposure_ratio; apply exp_pos).
  assert (H1 : 1.082 < On_exposure_change 1 / 0.037).
  { apply (pow_lt_inv _ _ 23); [lra | lra |]. rewrite H. simpl. lra. }
  lra.
Qed.

Lemma exposure_100_upper : On_exposure_change 100 < 825.
Proof.
  pose proof (exposure_pow23 100) as H.
  replace (IZR 100) with (INR 100) in H by (rewrite INR_IZR_INZ; reflexivity).
  rewrite Rpower_pow in H by lra.
  assert (Hpos : 0 < On_exposure_change 100 / 0.037)
    by (rewrite exposure_ratio; apply exp_pos).
  assert (H2 : On_exposure_change 100 / 0.037 < 22297).
  { apply (pow_lt_inv _ _ 23); [lra | lra |]. rewrite H.
    rewrite !pow_IZR. apply IZR_lt. vm_compute. reflexivity. }
  lra.
Qed.

(** X7: over the range of the slider, 1 to 100, the exposure handed to the
    camera stays between 0.04 ms and 825 ms. *)
Theorem exposure_range (v : Z) :
  (1 <= v <= 100)%Z -> 0.04 < On_exposure_change v < 825.
Proof.
  intros [Hlo Hhi]. split.
  - destruct (Z.eq_dec v 1) as [-> | Hne]; [exact exposure_1_lower|].
    pose proof exposure_1_lower.
    assert (On_exposure_change 1 < On_exposure_change v)
      by (apply exposure_increasing; lia).
    lra.
  - destruct (Z.eq_dec v 100) as [-> | Hne]; [exact exposure_100_upper|].
    pose proof exposure_100_upper.
    assert (On_exposure_change v < On_exposure_change 100)
      by (apply exposure_increasing; lia).
    lra.
Qed.

Lemma exposure_range_witness : 0.04 < On_exposure_change 50 < 825.
Proof.
  exact (exposure_range 50 ltac:(lia)).
Defined.

Local Close Scope R_scope.

(** ** Invariants: the rules *)

Lemma keeps_ret {A} (P : main -> Prop) (a : A) : keeps P (ret a).
Proof. intros s H. exact H. Qed.

Lemma keeps_lift {A} (P : main -> Prop) (r : result A) : keeps P (lift r).
Proof. intros s H. exact H. Qed.

Lemma keeps_gets {A} (P : main -> Prop) (f : main -> A) : keeps P (gets f).
Proof. intros s H. exact H. Qed.

Lemma keeps_modify (P : main -> Prop) (g : main -> main) :
  (forall s, P s -> P (g s)) -> keeps P (modify g).
Proof. intros H s Hs. apply H, Hs. Qed.

Lemma keeps_bind {A B} (P : main -> Prop) (m : M A) (k : A -> M B) :
  keeps P m -> (forall a, keeps P (k a)) -> keeps P (bind m k).
Proof.
  intros Hm Hk s Hs. unfold bind. specialize (Hm s Hs).
  destruct (m s) as [[a|e] s']; cbn [snd] in *.
  - now apply Hk.
  - exact Hm.
Qed.

(** Reading an attribute and branching on it: the continuation is entered
    with the value read in the very state it starts from. *)
Lemma keeps_bind_gets {A B} (P : main -> Prop) (f : main -> A) (k : A -> M B) :
  (forall s, P s -> P (snd (k (f s) s))) -> keeps P (bind (gets f) k).
Proof. intros H s Hs. apply H, Hs. Qed.

Lemma keeps_of_preserves {X A} (f : main -> X) (m : M A) (v : X) :
  preserves f m -> keeps (fun s => f s = v) m.
Proof. intros H s Hs. now rewrite H. Qed.

Lemma flatten_empty (a : ndarray) :
  wf a -> (nrows a = 0 \/ ncols a = 0)%nat -> flatten a = [].
Proof.
  intros Hwf H. apply length_zero_iff_nil.
  rewrite flatten_length by assumption. destruct H as [-> | ->]; lia.
Qed.

Lemma nd_map_id (a : ndarray) (f : Z -> Z) :
  (forall x, f x = x) -> nd_map f a = a.
Proof.
  intros H. destruct a as [n rs]. unfold nd_map. cbn [rows ncols]. f_equal.
  rewrite <- (map_id rs) at 2. apply map_ext. intros r.
  rewrite <- (map_id r) at 2. now apply map_ext.
Qed.

(** [get1DIntensity] raises on an array without cells. *)
Lemma get1DIntensity_empty (ax : axis) (im : ndarray) :
  wf im -> (nrows im = 0 \/ ncols im = 0)%nat ->
  get1DIntensity ax im = Raise ValueError.
Proof.
  intros Hwf H. unfold get1DIntensity.
  rewrite (flatten_empty im Hwf H). reflexivity.
Qed.

(** X8: [get1DIntensity] raises [ValueError] on an array without cells;
    otherwise both axes report the same position [(r, c)], that of a largest
    pixel, and of the first one in row-major order: no pixel exceeds it and
    every pixel before it is strictly smaller.  The horizontal result is row
    [r] of the array and the vertical result is its column [c]. *)
Theorem get1DIntensity_first_maximum (im : ndarray) :
  wf im ->
  ((nrows im = 0 \/ ncols im = 0)%nat ->
     forall ax, get1DIntensity ax im = Raise ValueError) /\
  ((0 < nrows im)%nat -> (0 < ncols im)%nat ->
     exists r c,
       get1DIntensity AxisH im = Ok (nth r (rows im) [], (r, c)) /\
       get1DIntensity AxisV im
       = Ok (map (fun row => nth c row 0%Z) (rows im), (r, c)) /\
       (r < nrows im)%nat /\ (c < ncols im)%nat /\
       (forall i j, (i < nrows im)%nat -> (j < ncols im)%nat ->
          (cell im i j <= cell im r c)%Z) /\
       (forall i j, (i < nrows im)%nat -> (j < ncols im)%nat ->
          before i j r c -> (cell im i j < cell im r c)%Z)).
Proof.
  intros Hwf. split.
  - intros H ax. now apply get1DIntensity_empty.
  - intros Hr Hc.
    destruct (get1DIntensity_run im Hwf Hr Hc)
      as (k & Hk & Hrow & Hcol & Hmax & HH & HV).
    destruct (np_argmax_spec (flatten im) (flatten_nonempty im Hwf Hr Hc))
      as (k' & Hk' & Hlt & _ & Hfirst).
    assert (k' = k) by congruence. subst k'.
    rewrite flatten_length in Hlt by assumption.
    exists (k / ncols im)%nat, (k mod ncols im)%nat.
    repeat split; try assumption.
    intros i j Hi Hj Hbefore.
    destruct (flatten_position im i j Hwf Hi Hj) as [Hpos ->].
    rewrite <- (flatten_nth im k Hwf Hlt).
    apply Hfirst.
    pose proof (Nat.div_mod_eq k (ncols im)) as Hdm.
    unfold before in Hbefore. destruct Hbefore as [Hb | [-> Hb]]; nia.
Qed.

Lemma get1DIntensity_first_maximum_witness :
  exists r c,
    get1DIntensity AxisH (mk_nd 2 [[9; 1]; [9; 9]]%Z)
    = Ok (nth r (rows (mk_nd 2 [[9; 1]; [9; 9]]%Z)) [], (r, c)).
Proof.
  destruct (proj2 (get1DIntensity_first_maximum (mk_nd 2 [[9; 1]; [9; 9]]%Z)
                     ltac:(repeat constructor))
                  ltac:(cbn; lia) ltac:(cbn; lia))
    as (r & c & H & _).
  exists r, c. exact H.
Defined.

(** ** The capture loop *)

Section LoopFacts.

Variable np_exp : float -> float.
Variable curve_fit :
  (float -> params -> float) -> list Z -> list Z -> guess -> result params.

Ltac run_fields :=
  cbn [fst snd
       AOI ax_xlim ax_ylim backgroundImage continuous waistListX waistListY
       imdata_full imdata hdata vdata fig waistTextBox stdout
       set_AOI set_ax_xlim set_ax_ylim set_backgroundImage set_continuous
       set_waistListX set_waistListY set_imdata_full set_imdata set_hdata
       set_vdata set_fig set_waistTextBox set_stdout
       image hplot vplot hintplot vintplot hintfit vintfit wxplot wyplot
       set_image set_hplot set_vplot set_hintplot set_vintplot set_hintfit
       set_vintfit set_wxplot set_wyplot].

(** The residual is stored before anything can raise. *)
Lemma loop_body_imdata_full (s : main) (frame full : ndarray) :
  sub_background frame (backgroundImage s) = Ok full ->
  imdata_full (exec (loop_body np_exp curve_fit frame) s) = full.
Proof.
  intros Hsub. unfold exec, loop_body.
  rewrite bind_gets, Hsub, bind_lift_ok, bind_modify.
  match goal with
  | |- imdata_full (snd (?m ?st)) = _ =>
      transitivity (imdata_full st); [| reflexivity];
      generalize st; change (preserves imdata_full m)
  end.
  pres.
Qed.

(** A pass over a frame whose crop has no cell stops in [get1DIntensity]. *)
Lemma loop_body_empty_crop (s : main) (frame full : ndarray) :
  sub_background frame (backgroundImage s) = Ok full ->
  wf full -> (0 < nrows full)%nat -> (0 < ncols full)%nat ->
  (nrows (crop_AOI (AOI s) full) = 0 \/ ncols (crop_AOI (AOI s) full) = 0)%nat ->
  loop_body np_exp curve_fit frame s
  = (Raise ValueError,
     set_imdata (crop_AOI (AOI s) full)
       (set_fig (set_image full (fig s)) (set_imdata_full full s))).
Proof.
  intros Hsub Hwf Hr Hc Hempty.
  destruct (np_argmax_spec _ (flatten_nonempty full Hwf Hr Hc)) as (k0 & Hk0 & _).
  unfold loop_body.
  rewrite bind_gets, Hsub, bind_lift_ok, bind_modify, bind_modify_fig.
  rewrite Hk0, bind_lift_ok, bind_gets, bind_modify, bind_gets.
  run_fields. fold (crop_AOI (AOI s) full).
  rewrite (get1DIntensity_empty AxisH (crop_AOI (AOI s) full)
             (nd_crop_wf _ _ _ _ _ Hwf) Hempty).
  rewrite bind_lift_raise. reflexivity.
Qed.

(** X9: for a non-empty frame and a background that fits, a pass of the
    capture loop raises exactly when the AOI crop has no cell, and then with
    [ValueError], after the residual and the empty crop were stored and
    before any curve was updated; when the crop has cells the pass returns,
    whatever the optimizer does. *)
Theorem loop_body_raises_iff_crop_empty (s : main) (frame : ndarray) :
  wf frame -> (0 < nrows frame)%nat -> (0 < ncols frame)%nat ->
  background_fits (backgroundImage s) frame ->
  let crop := crop_AOI (AOI s) frame in
  let s' := exec (loop_body np_exp curve_fit frame) s in
  ((0 < nrows crop)%nat /\ (0 < ncols crop)%nat ->
     fst (loop_body np_exp curve_fit frame s) = Ok tt) /\
  ((nrows crop = 0 \/ ncols crop = 0)%nat ->
     fst (loop_body np_exp curve_fit frame s) = Raise ValueError /\
     shape (imdata s') = shape crop /\
     hdata s' = hdata s /\ vdata s' = vdata s /\
     hplot (fig s') = hplot (fig s) /\ vplot (fig s') = vplot (fig s) /\
     hintplot (fig s') = hintplot (fig s) /\
     vintplot (fig s') = vintplot (fig s) /\
     fit_outputs s' = fit_outputs s).
Proof.
  intros Hframe Hr Hc Hbg.
  destruct (sub_background_run frame _ Hframe Hbg) as (full & Hsub & Hwf & Hshape).
  pose proof (crop_AOI_shape (AOI s) full frame Hshape) as Hcs.
  pose proof (f_equal fst Hcs) as Er. pose proof (f_equal snd Hcs) as Ec.
  pose proof (f_equal fst Hshape) as Fr. pose proof (f_equal snd Hshape) as Fc.
  cbn [fst snd shape] in Er, Ec, Fr, Fc.
  cbv zeta. split.
  - intros [H1 H2]. rewrite <- Er in H1. rewrite <- Ec in H2.
    destruct (loop_body_run np_exp curve_fit s frame full Hsub Hwf H1 H2)
      as (k & mh & mv & _ & _ & _ & Hok & _).
    exact Hok.
  - intros Hempty. rewrite <- Er, <- Ec in Hempty.
    unfold exec.
    rewrite (loop_body_empty_crop s frame full Hsub Hwf) by (assumption || lia).
    cbn [fst snd]. repeat split; try reflexivity.
    run_fields. exact Hcs.
Qed.

(** X10: Python counts a negative slice bound from the far end.  When the
    view was zoomed out to the left of the sensor, so that the AOI has a
    left bound [-W <= int(xmin) < 0] and a right bound
    [0 <= int(xmax) <= W + int(xmin)] on a frame of [W] columns, the crop
    has no column and the pass of the capture loop raises [ValueError]. *)
Theorem negative_AOI_bound_stops_capture (s : main) (frame : ndarray) :
  wf frame -> (0 < nrows frame)%nat -> (0 < ncols frame)%nat ->
  background_fits (backgroundImage s) frame ->
  (- Z.of_nat (ncols frame) <= py_int (xmin (AOI s)) < 0)%Z ->
  (0 <= py_int (xmax (AOI s))
   <= Z.of_nat (ncols frame) + py_int (xmin (AOI s)))%Z ->
  ncols (crop_AOI (AOI s) frame) = 0%nat /\
  fst (loop_body np_exp curve_fit frame s) = Raise ValueError.
Proof.
  intros Hframe Hr Hc Hbg Hlo Hhi.
  assert (Hcols : ncols (crop_AOI (AOI s) frame) = 0%nat).
  { unfold crop_AOI, nd_crop. cbn [ncols]. unfold Py.slice_len, Py.adjust_index.
    destruct (Z.ltb_spec (py_int (xmin (AOI s))) 0); [| lia].
    destruct (Z.ltb_spec (py_int (xmin (AOI s)) + Z.of_nat (ncols frame)) 0); [lia|].
    destruct (Z.ltb_spec (py_int (xmax (AOI s))) 0); [lia|].
    destruct (Z.leb_spec (Z.of_nat (ncols frame)) (py_int (xmax (AOI s)))); lia. }
  split; [exact Hcols|].
  destruct (sub_background_run frame _ Hframe Hbg) as (full & Hsub & Hwf & Hshape).
  pose proof (crop_AOI_shape (AOI s) full frame Hshape) as Hcs.
  pose proof (f_equal snd Hcs) as Ec.
  pose proof (f_equal fst Hshape) as Fr. pose proof (f_equal snd Hshape) as Fc.
  cbn [fst snd shape] in Ec, Fr, Fc.
  rewrite (loop_body_empty_crop s frame full Hsub Hwf) by (lia || (right; lia)).
  reflexivity.
Qed.

(** *** The residual at the two ends *)

(** X11: before any background is recorded the residual a pass stores is
    the frame itself; with the frame itself as background it is zero in
    every cell.  Both hold whether or not the pass goes on to raise. *)
Theorem residual_edge_cases (s : main) (frame : ndarray) :
  wf frame ->
  (backgroundImage s = NoBackground ->
     imdata_full (exec (loop_body np_exp curve_fit frame) s) = frame) /\
  (backgroundImage s = BackgroundFrame frame ->
     shape (imdata_full (exec (loop_body np_exp curve_fit frame) s))
     = shape frame /\
     forall i j, (i < nrows frame)%nat -> (j < ncols frame)%nat ->
       cell (imdata_full (exec (loop_body np_exp curve_fit frame) s)) i j = 0%Z).
Proof.
  intros Hwf. split; intros Hbg.
  - rewrite (loop_body_imdata_full s frame (nd_map (fun x => x - 0)%Z frame))
      by (rewrite Hbg; reflexivity).
    apply nd_map_id. intros x. apply Z.sub_0_r.
  - rewrite (loop_body_imdata_full s frame
               (mk_nd (ncols frame)
                      (zip_with (zip_with Z.sub) (rows frame) (rows frame))))
      by (rewrite Hbg; cbn [sub_background]; now apply nd_zip_ok).
    split; [now apply nd_zip_shape|].
    intros i j Hi Hj. rewrite nd_zip_cell by (assumption || reflexivity).
    apply Z.sub_diag.
Qed.

(** *** Saving right after a pass *)

Lemma zip_add_sub (r r' : list Z) :
  List.length r = List.length r' ->
  zip_with Z.add (zip_with Z.sub r r') r' = r.
Proof.
  revert r'. induction r as [|x r IH]; intros [|y r'] H; cbn in *;
    try discriminate; [reflexivity|].
  f_equal; [lia | apply IH; lia].
Qed.

Lemma zip_rows_add_sub (n : nat) (a b : list (list Z)) :
  Forall (fun r => List.length r = n) a ->
  Forall (fun r => List.length r = n) b ->
  List.length a = List.length b ->
  zip_with (zip_with Z.add) (zip_with (zip_with Z.sub) a b) b = a.
Proof.
  revert b. induction a as [|r a IH]; intros [|r' b] Ha Hb H; cbn in *;
    try discriminate; [reflexivity|].
  inversion Ha; inversion Hb; subst.
  f_equal; [apply zip_add_sub; congruence | apply IH; auto].
Qed.

Lemma loop_body_keeps_background (frame : ndarray) :
  preserves backgroundImage (loop_body np_exp curve_fit frame).
Proof.
  unfold loop_body. pres.
Qed.

(** X12: an image saved right after a pass of the capture loop holds the
    raw frame of that pass, whatever background is being subtracted: adding
    the background back undoes the subtraction, and the conversion to 8 bits
    loses nothing on a frame of bytes.  When a background is recorded the
    second file receives the same pixels as the first. *)
Theorem save_after_pass_writes_raw_frame
        (s : main) (frame : ndarray) (fileName : string) :
  wf frame ->
  background_fits (backgroundImage s) frame ->
  astype_uint8 frame = frame ->
  fileName <> ""%string ->
  saveFileDialog fileName (exec (loop_body np_exp curve_fit frame) s)
  = Ok ((png_name fileName, frame)
          :: match backgroundImage s with
             | NoBackground => []
             | BackgroundFrame _ => [(bg_name fileName, frame)]
             end).
Proof.
  intros Hwf Hbg Hbytes Hname.
  assert (Hneq : String.eqb fileName "" = false) by now apply String.eqb_neq.
  pose proof (loop_body_keeps_background frame s) as Hkeep.
  fold (exec (loop_body np_exp curve_fit frame) s) in Hkeep.
  unfold saveFileDialog. rewrite Hneq, Hkeep.
  destruct (backgroundImage s) as [|b] eqn:Eb.
  - rewrite (loop_body_imdata_full s frame (nd_map (fun x => x - 0)%Z frame))
      by (rewrite Eb; reflexivity).
    cbn [add_background rbind]. rewrite nd_map_map.
    rewrite (nd_map_id frame (fun x => (x - 0 + 0)%Z)) by (intros; lia).
    rewrite Hbytes. unfold png_name.
    destruct (ends_with_png fileName); reflexivity.
  - destruct Hbg as [Hb Hshape].
    set (full := mk_nd (ncols frame)
                       (zip_with (zip_with Z.sub) (rows frame) (rows b))).
    rewrite (loop_body_imdata_full s frame full)
      by (rewrite Eb; cbn [sub_background]; now apply nd_zip_ok).
    assert (Hfs : shape full = shape b)
      by (unfold full; rewrite nd_zip_shape; assumption).
    cbn [add_background]. rewrite nd_zip_ok by exact Hfs. cbn [rbind].
    assert (Hsum : mk_nd (ncols full)
                         (zip_with (zip_with Z.add) (rows full) (rows b))
                   = frame).
    { unfold full. cbn [rows ncols].
      pose proof (f_equal fst Hshape) as Hr. pose proof (f_equal snd Hshape) as Hc.
      cbn [fst snd shape] in Hr, Hc.
      rewrite (zip_rows_add_sub (ncols frame)).
      - destruct frame; reflexivity.
      - exact Hwf.
      - unfold wf in Hb. now rewrite Hc.
      - exact Hr. }
    rewrite Hsum, Hbytes. unfold png_name, bg_name.
    destruct (ends_with_png fileName); reflexivity.
Qed.

(** *** What the capture loop never touches *)

Lemma capture_loop_preserves {X} (f : main -> X) (frames : list ndarray) :
  (forall frame, preserves f (loop_body np_exp curve_fit frame)) ->
  preserves f (capture_loop np_exp curve_fit frames).
Proof.
  intros H. induction frames as [|frame rest IH]; cbn [capture_loop].
  - apply pres_ret.
  - apply pres_bind; [apply H | intros _; exact IH].
Qed.

(** X13: however many frames arrive and whatever happens while they are
    processed, the capture loop never changes the AOI, the view limits, the
    recorded background or the continuous-mode flag: these are the user's. *)
Theorem capture_loop_never_changes_settings (frames : list ndarray) (s : main) :
  user_settings (exec (capture_loop np_exp curve_fit frames) s) = user_settings s.
Proof.
  apply (capture_loop_preserves user_settings frames).
  intros frame. unfold loop_body. pres.
Qed.

Ltac keeps_step :=
  lazymatch goal with
  | |- keeps _ (bind (gets continuous) _) => fail
  | |- keeps _ (bind _ _) => apply keeps_bind; [| intros ?]
  | |- keeps _ (ret _) => apply keeps_ret
  | |- keeps _ (lift _) => apply keeps_lift
  | |- keeps _ (gets _) => apply keeps_gets
  | |- keeps _ (modify _) => apply keeps_modify; intros ? ?; assumption
  | |- keeps _ (modify_fig _) => apply keeps_modify; intros ? ?; assumption
  end.

Lemma capture_loop_keeps (P : main -> Prop) (frames : list ndarray) :
  (forall frame, keeps P (loop_body np_exp curve_fit frame)) ->
  keeps P (capture_loop np_exp curve_fit frames).
Proof.
  intros H. induction frames as [|frame rest IH]; cbn [capture_loop].
  - apply keeps_ret.
  - apply keeps_bind; [apply H | intros _; exact IH].
Qed.

(** With continuous mode off a pass never reaches [calc_waists]. *)
Lemma loop_body_idle_fit (frame : ndarray) (v : _) :
  keeps (fun s => continuous s = 0%Z /\ fit_outputs s = v)
        (loop_body np_exp curve_fit frame).
Proof.
  unfold loop_body. cbv zeta. repeat keeps_step.
  apply keeps_bind_gets. intros s [Hc Hv]. rewrite Hc.
  change (0 =? 1)%Z with false. cbv beta iota. cbn [ret snd].
  split; assumption.
Qed.

(** X14: while continuous mode is off the capture loop leaves the fit
    overlays, both history buffers and the waist text box as they are, and
    prints nothing, for any number of frames: the fit then runs only from
    the button. *)
Theorem capture_loop_without_continuous_mode (frames : list ndarray) (s : main) :
  continuous s = 0%Z ->
  fit_outputs (exec (capture_loop np_exp curve_fit frames) s) = fit_outputs s.
Proof.
  intros Hc.
  apply (capture_loop_keeps (fun t => continuous t = 0%Z /\ fit_outputs t = fit_outputs s)
                            frames (fun frame => loop_body_idle_fit frame _) s).
  split; [exact Hc | reflexivity].
Qed.

(** *** The capacity of the history buffers *)

Lemma calc_waists_keeps_capacity_20 :
  keeps capacity_20 (calc_waists np_exp curve_fit).
Proof.
  intros s [HX HY].
  destruct (calc_waists_keeps_capacity np_exp curve_fit s) as [HX' HY'].
  - intros E. rewrite E in HX. discriminate.
  - intros E. rewrite E in HY. discriminate.
  - unfold exec in HX', HY'. split; congruence.
Qed.

Lemma loop_body_keeps_capacity (frame : ndarray) :
  keeps capacity_20 (loop_body np_exp curve_fit frame).
Proof.
  unfold loop_body. cbv zeta. repeat keeps_step.
  apply keeps_bind; [apply keeps_gets|]. intros c.
  destruct (c =? 1)%Z; [apply calc_waists_keeps_capacity_20 | apply keeps_ret].
Qed.

Lemma capture_image_keeps_capacity (first : ndarray) (frames : list ndarray) :
  keeps capacity_20 (capture_image np_exp curve_fit first frames).
Proof.
  unfold capture_image. repeat keeps_step.
  apply capture_loop_keeps. apply loop_body_keeps_capacity.
Qed.

(** X15: both history buffers hold 20 values from the start and keep
    holding 20 through everything the program does to its state: the whole
    of [capture_image] and its loop over any frames, whether passes raise or
    fits fail, [calc_waists] from the button, and every user action. *)
Theorem history_capacity_is_invariant
        (s : main) (first frame : ndarray) (frames : list ndarray)
        (xlim ylim : Q * Q) :
  capacity_20 s ->
  capacity_20 main_init /\
  capacity_20 (exec (capture_image np_exp curve_fit first frames) s) /\
  capacity_20 (exec (capture_loop np_exp curve_fit frames) s) /\
  capacity_20 (exec (loop_body np_exp curve_fit frame) s) /\
  capacity_20 (exec (calc_waists np_exp curve_fit) s) /\
  capacity_20 (exec (recordBackground frame) s) /\
  capacity_20 (exec toggleContinuousMode s) /\
  capacity_20 (exec (zoom_view xlim ylim) s) /\
  capacity_20 (exec On_set_AOI s) /\
  capacity_20 (exec On_reset_AOI s).
Proof.
  intros H. split; [split; reflexivity|].
  split; [exact (capture_image_keeps_capacity first frames s H)|].
  split; [exact (capture_loop_keeps capacity_20 frames loop_body_keeps_capacity s H)|].
  split; [exact (loop_body_keeps_capacity frame s H)|].
  split; [exact (calc_waists_keeps_capacity_20 s H)|].
  destruct s as [a [xlo xhi] [ylo yhi] b c wx wy f im h v fg tb o].
  repeat split; apply H.
Qed.

(** *** The fit overlays *)

(** X16: after a fit of both axes the two overlay curves have one point
    per projection element: as many as the crop has columns for the
    horizontal one and rows for the vertical one, on the abscissas
    [0, 1, 2, ...]; each is the Gaussian of the fitted parameters multiplied
    by [255 / max], where [max] is the largest value that Gaussian takes on
    those abscissas. *)
Theorem fit_overlay_points (s : main) (px py : params) :
  fit_axes np_exp curve_fit s = Ok (px, py) ->
  wf (imdata s) ->
  waistListX s <> [] -> waistListY s <> [] ->
  let s' := exec (calc_waists np_exp curve_fit) s in
  exists mh mv,
    np_fmax (map (fun x => gaussian np_exp (float_of_Z x) px)
                 (Py.arange (ncols (imdata s)))) = Ok mh /\
    np_fmax (map (fun y => gaussian np_exp (float_of_Z y) py)
                 (Py.arange (nrows (imdata s)))) = Ok mv /\
    ydata (hintfit (fig s'))
    = map (fun x => PrimFloat.mul x (PrimFloat.div 255 mh))
          (map (fun x => gaussian np_exp (float_of_Z x) px)
               (Py.arange (ncols (imdata s)))) /\
    ydata (vintfit (fig s'))
    = map (fun x => PrimFloat.mul x (PrimFloat.div 255 mv))
          (map (fun y => gaussian np_exp (float_of_Z y) py)
               (Py.arange (nrows (imdata s)))) /\
    xdata (hintfit (fig s')) = Py.arange (ncols (imdata s)) /\
    xdata (vintfit (fig s')) = Py.arange (nrows (imdata s)) /\
    List.length (ydata (hintfit (fig s'))) = ncols (imdata s) /\
    List.length (ydata (vintfit (fig s'))) = nrows (imdata s).
Proof.
  intros Hfit Hwf HX HY.
  destruct (fit_axes_ok_inv np_exp curve_fit s px py Hfit) as (Hx & Hy & _).
  pose proof (sum_axis0_length (imdata s) Hwf) as L0.
  pose proof (sum_axis1_length (imdata s)) as L1.
  destruct (rescale255_run
              (map (fun x => gaussian np_exp (float_of_Z x) px)
                   (Py.arange (List.length (sum_axis0 (imdata s))))))
    as (mh & Hmh & Hh).
  { apply nonempty_of_length. unfold Py.arange.
    rewrite !length_map, length_seq.
    destruct (sum_axis0 (imdata s)); [congruence | cbn; lia]. }
  destruct (rescale255_run
              (map (fun y => gaussian np_exp (float_of_Z y) py)
                   (Py.arange (List.length (sum_axis1 (imdata s))))))
    as (mv & Hmv & Hv).
  { apply nonempty_of_length. unfold Py.arange.
    rewrite !length_map, length_seq.
    destruct (sum_axis1 (imdata s)); [congruence | cbn; lia]. }
  exists mh, mv. cbv zeta.
  unfold exec, calc_waists, try_print, calc_waists_body.
  rewrite bind_gets, Hfit, bind_lift_ok. cbv zeta.
  rewrite Hh, bind_lift_ok, Hv, bind_lift_ok.
  rewrite !bind_modify_fig, !bind_modify, bind_gets.
  cbn [bind gets lift modify modify_fig ret]. run_fields.
  change (Py.setitem0 (Py.np_roll (waistListX s) 1)
            (PrimFloat.mul (PrimFloat.abs (width_of px)) pixel_size))
    with (history_push (waistListX s)
            (PrimFloat.mul (PrimFloat.abs (width_of px)) pixel_size)).
  rewrite history_push_cons by assumption.
  cbn [bind gets lift modify modify_fig ret]. run_fields.
  change (Py.setitem0 (Py.np_roll (waistListY s) 1)
            (PrimFloat.mul (PrimFloat.abs (width_of py)) pixel_size))
    with (history_push (waistListY s)
            (PrimFloat.mul (PrimFloat.abs (width_of py)) pixel_size)).
  rewrite history_push_cons by assumption.
  cbn [bind gets lift modify modify_fig ret]. run_fields.
  cbn [ydata xdata line_of]. rewrite L0, L1 in *.
  split; [exact Hmh|]. split; [exact Hmv|].
  repeat split; try reflexivity.
  - unfold Py.arange. now rewrite !length_map, length_seq.
  - unfold Py.arange. now rewrite !length_map, length_seq.
  - unfold Py.arange. now rewrite !length_map, length_seq.
  - unfold Py.arange. now rewrite !length_map, length_seq.
Qed.

End LoopFacts.

(** ** The statements of this part on concrete frames *)

Lemma loop_body_raises_iff_crop_empty_witness :
  fst (loop_body no_exp fit_never frame_pair
         (exec On_set_AOI (exec (zoom_view (1, 1) (0, 1)) main_init)))
  = Raise ValueError.
Proof.
  exact (proj1 (proj2 (loop_body_raises_iff_crop_empty
                         no_exp fit_never
                         (exec On_set_AOI (exec (zoom_view (1, 1) (0, 1)) main_init))
                         frame_pair
                         ltac:(repeat constructor)
                         ltac:(cbn; lia) ltac:(cbn; lia) I)
                      ltac:(right; reflexivity))).
Defined.

Lemma negative_AOI_bound_stops_capture_witness :
  fst (loop_body no_exp fit_never frame_pair
         (exec On_set_AOI (exec (zoom_view (-1, 1) (0, 1)) main_init)))
  = Raise ValueError.
Proof.
  exact (proj2 (negative_AOI_bound_stops_capture
                  no_exp fit_never
                  (exec On_set_AOI (exec (zoom_view (-1, 1) (0, 1)) main_init))
                  frame_pair
                  ltac:(repeat constructor)
                  ltac:(cbn; lia) ltac:(cbn; lia) I
                  ltac:(vm_compute; split; discriminate || reflexivity)
                  ltac:(vm_compute; split; discriminate))).
Defined.

Lemma residual_edge_cases_witness :
  imdata_full (exec (loop_body no_exp fit_never frame_pair) main_init) = frame_pair.
Proof.
  exact (proj1 (residual_edge_cases no_exp fit_never main_init frame_pair
                  ltac:(repeat constructor))
               eq_refl).
Defined.

Lemma save_after_pass_writes_raw_frame_witness :
  saveFileDialog "beam"
    (exec (loop_body no_exp fit_never frame_pair)
          (exec (recordBackground bg_pair) main_init))
  = Ok [("beam.png"%string, frame_pair); ("beam-bg.png"%string, frame_pair)].
Proof.
  exact (save_after_pass_writes_raw_frame
           no_exp fit_never (exec (recordBackground bg_pair) main_init)
           frame_pair "beam"
           ltac:(repeat constructor)
           ltac:(split; [repeat constructor | reflexivity])
           eq_refl ltac:(discriminate)).
Defined.

Lemma capture_loop_without_continuous_mode_witness :
  fit_outputs (exec (capture_loop no_exp (fit_const fitted_10)
                                  [frame_15; dark_frame; spot_frame])
                    main_init)
  = fit_outputs main_init.
Proof.
  exact (capture_loop_without_continuous_mode
           no_exp (fit_const fitted_10) [frame_15; dark_frame; spot_frame]
           main_init eq_refl).
Defined.

Lemma history_capacity_is_invariant_witness :
  capacity_20 (exec (capture_image no_exp (fit_const fitted_10) spot_frame
                                   [frame_15; dark_frame])
                    (exec toggleContinuousMode main_init)).
Proof.
  exact (proj1 (proj2 (history_capacity_is_invariant
                         no_exp (fit_const fitted_10)
                         (exec toggleContinuousMode main_init)
                         spot_frame spot_frame [frame_15; dark_frame]
                         (0, 1) (0, 1)
                         ltac:(split; reflexivity)))).
Defined.

Lemma fit_overlay_points_witness :
  exists mh,
    np_fmax (map (fun x => gaussian no_exp (float_of_Z x) fitted_10)
                 (Py.arange (ncols (imdata after_spot_frame)))) = Ok mh /\
    ydata (hintfit (fig (exec (calc_waists no_exp (fit_const fitted_10))
                              after_spot_frame)))
    = map (fun x => PrimFloat.mul x (PrimFloat.div 255 mh))
          (map (fun x => gaussian no_exp (float_of_Z x) fitted_10)
               (Py.arange (ncols (imdata after_spot_frame)))).
Proof.
  destruct (fit_overlay_points
              no_exp (fit_const fitted_10) after_spot_frame fitted_10 fitted_10
              ltac:(vm_compute; reflexivity)
              ltac:(vm_compute; repeat constructor)
              ltac:(vm_compute; discriminate)
              ltac:(vm_compute; discriminate))
    as (mh & mv & H1 & _ & H2 & _).
  exists mh. split; assumption.
Defined.

(** ** The crop of an AOI taken from the view *)

Lemma py_int_floor (q : Q) : (0 <= q)%Q -> py_int q = Qfloor q.
Proof.
  destruct q as [n d]. unfold Qle, py_int, Qfloor. cbn. intros H.
  apply Z.quot_div_nonneg; lia.
Qed.

(** X17: the view limits are not integers in general.  For any AOI inside
    the frame, [0 <= xmin < xmax <= W] and [0 <= ymin < ymax <= H], the crop
    spans the columns [floor xmin .. floor xmax - 1] and the rows
    [floor ymin .. floor ymax - 1] of the residual: its cells are those of
    the residual displaced by the floors of the lower bounds. *)
Theorem crop_of_fractional_AOI (a : AOI_rect) (full : ndarray) :
  wf full ->
  valid_AOI (inject_Z (Z.of_nat (ncols full)))
            (inject_Z (Z.of_nat (nrows full))) a ->
  let x0 := Qfloor (xmin a) in let x1 := Qfloor (xmax a) in
  let y0 := Qfloor (ymin a) in let y1 := Qfloor (ymax a) in
  (0 <= x0 <= x1)%Z /\ (x1 <= Z.of_nat (ncols full))%Z /\
  (0 <= y0 <= y1)%Z /\ (y1 <= Z.of_nat (nrows full))%Z /\
  ncols (crop_AOI a full) = Z.to_nat (x1 - x0) /\
  nrows (crop_AOI a full) = Z.to_nat (y1 - y0) /\
  forall i j, (i < Z.to_nat (y1 - y0))%nat -> (j < Z.to_nat (x1 - x0))%nat ->
    cell (crop_AOI a full) i j = cell full (Z.to_nat y0 + i) (Z.to_nat x0 + j).
Proof.
  intros Hwf (Hx0 & Hx & Hx1 & Hy0 & Hy & Hy1). cbv zeta.
  assert (Fx0 : (0 <= Qfloor (xmin a))%Z)
    by (change 0%Z with (Qfloor 0); now apply Qfloor_resp_le).
  assert (Fy0 : (0 <= Qfloor (ymin a))%Z)
    by (change 0%Z with (Qfloor 0); now apply Qfloor_resp_le).
  assert (Fx : (Qfloor (xmin a) <= Qfloor (xmax a))%Z)
    by (apply Qfloor_resp_le, Qlt_le_weak, Hx).
  assert (Fy : (Qfloor (ymin a) <= Qfloor (ymax a))%Z)
    by (apply Qfloor_resp_le, Qlt_le_weak, Hy).
  assert (Fx1 : (Qfloor (xmax a) <= Z.of_nat (ncols full))%Z)
    by (rewrite <- (Qfloor_Z (Z.of_nat (ncols full))); now apply Qfloor_resp_le).
  assert (Fy1 : (Qfloor (ymax a) <= Z.of_nat (nrows full))%Z)
    by (rewrite <- (Qfloor_Z (Z.of_nat (nrows full))); now apply Qfloor_resp_le).
  assert (Px0 : py_int (xmin a) = Qfloor (xmin a)) by now apply py_int_floor.
  assert (Py0 : py_int (ymin a) = Qfloor (ymin a)) by now apply py_int_floor.
  assert (Px1 : py_int (xmax a) = Qfloor (xmax a))
    by (apply py_int_floor; eapply Qle_trans; [exact Hx0 | now apply Qlt_le_weak]).
  assert (Py1 : py_int (ymax a) = Qfloor (ymax a))
    by (apply py_int_floor; eapply Qle_trans; [exact Hy0 | now apply Qlt_le_weak]).
  assert (Hc : ncols (crop_AOI a full)
               = Z.to_nat (Qfloor (xmax a) - Qfloor (xmin a))).
  { unfold crop_AOI, nd_crop. cbn [ncols]. rewrite Px0, Px1.
    apply slice_len_in_range; lia. }
  assert (Hr : nrows (crop_AOI a full)
               = Z.to_nat (Qfloor (ymax a) - Qfloor (ymin a))).
  { unfold crop_AOI. rewrite nd_crop_nrows, Py0, Py1.
    apply slice_len_in_range; lia. }
  repeat split; try assumption.
  intros i j Hi Hj. unfold crop_AOI.
  rewrite nd_crop_cell.
  - rewrite Px0, Py0, !adjust_index_nonneg by lia. reflexivity.
  - exact Hwf.
  - rewrite <- nd_crop_nrows with (c0 := py_int (xmin a)) (c1 := py_int (xmax a)).
    fold (crop_AOI a full). rewrite Hr. exact Hi.
  - change (Py.slice_len (py_int (xmin a)) (py_int (xmax a)) (ncols full))
      with (ncols (crop_AOI a full)).
    rewrite Hc. exact Hj.
Qed.

Lemma crop_of_fractional_AOI_witness :
  ncols (crop_AOI (mk_AOI (1 # 2) (5 # 2) 0 2) spot_frame) = 2%nat.
Proof.
  exact (proj1 (proj2 (proj2 (proj2 (proj2
           (crop_of_fractional_AOI (mk_AOI (1 # 2) (5 # 2) 0 2) spot_frame
              ltac:(repeat constructor)
              ltac:(unfold valid_AOI, Qle, Qlt; cbn; lia))))))).
Defined.

(** ** What [saveFileDialog] puts on disk *)

Lemma astype_uint8_byte_valued (a : ndarray) : byte_valued (astype_uint8 a).
Proof.
  unfold byte_valued, astype_uint8, nd_map. cbn [rows].
  apply Forall_forall. intros r Hr. apply in_map_iff in Hr as (r' & <- & _).
  apply Forall_forall. intros x Hx. apply in_map_iff in Hx as (x' & <- & _).
  apply Z.mod_pos_bound. lia.
Qed.

(** X18: whenever [saveFileDialog] returns, it has written nothing if the
    dialog was cancelled, and otherwise one PNG file, or two when a
    background is recorded; every pixel written is a byte; and the two files
    of one call hold the same pixels. *)
Theorem saveFileDialog_files
        (fileName : string) (s : main) (files : list (string * ndarray)) :
  saveFileDialog fileName s = Ok files ->
  (fileName = ""%string -> files = []) /\
  (fileName <> ""%string ->
     exists img,
       byte_valued img /\
       files = (png_name fileName, img)
                 :: match backgroundImage s with
                    | NoBackground => []
                    | BackgroundFrame _ => [(bg_name fileName, img)]
                    end).
Proof.
  unfold saveFileDialog. intros H. split.
  - intros ->. cbn in H. now injection H as <-.
  - intros Hname. apply String.eqb_neq in Hname. rewrite Hname in H.
    destruct (add_background (imdata_full s) (backgroundImage s)) as [sum|e] eqn:E;
      [| discriminate].
    cbn [rbind] in H. exists (astype_uint8 sum).
    split; [apply astype_uint8_byte_valued|].
    unfold png_name, bg_name.
    destruct (backgroundImage s); destruct (ends_with_png fileName);
      now injection H as <-.
Qed.

Lemma saveFileDialog_files_witness :
  exists img,
    byte_valued img /\
    [("beam.png"%string, mk_nd 1 [[15%Z]]); ("beam-bg.png"%string, mk_nd 1 [[15%Z]])]
    = [("beam.png"%string, img); ("beam-bg.png"%string, img)].
Proof.
  exact (proj2 (saveFileDialog_files
                  "beam" after_frame_15
                  [("beam.png"%string, mk_nd 1 [[15%Z]]);
                   ("beam-bg.png"%string, mk_nd 1 [[15%Z]])]
                  ltac:(vm_compute; reflexivity))
               ltac:(discriminate)).
Defined.

(** ** The Gaussian model and the signs of its parameters *)

Lemma binary_round_aux_opp (prec emax : Z) (s : bool) (m e : Z)
      (l : SpecFloat.location) :
  SpecFloat.SFopp (SpecFloat.binary_round_aux prec emax s m e l)
  = SpecFloat.binary_round_aux prec emax (negb s) m e l.
Proof.
  unfold SpecFloat.binary_round_aux.
  destruct (SpecFloat.shr_fexp prec emax m e l) as [mrs' e'].
  destruct (SpecFloat.shr_fexp prec emax _ e' SpecFloat.loc_Exact) as [mrs'' e''].
  destruct (SpecFloat.shr_m mrs''); try reflexivity.
  destruct (Z.leb e'' (emax - prec)); reflexivity.
Qed.

Lemma SFdiv_opp_r (prec emax : Z) (x y : SpecFloat.spec_float) :
  SpecFloat.SFdiv prec emax x (SpecFloat.SFopp y)
  = SpecFloat.SFopp (SpecFloat.SFdiv prec emax x y).
Proof.
  destruct x as [sx|sx| |sx mx ex], y as [sy|sy| |sy my ey];
    cbn [SpecFloat.SFdiv SpecFloat.SFopp];
    try reflexivity; try (destruct sx, sy; reflexivity).
  destruct (SpecFloat.SFdiv_core_binary prec emax (Z.pos mx) ex (Z.pos my) ey)
    as [[mz ez] lz].
  rewrite binary_round_aux_opp. destruct sx, sy; reflexivity.
Qed.

Lemma SFmul_opp_opp (prec emax : Z) (x : SpecFloat.spec_float) :
  SpecFloat.SFmul prec emax (SpecFloat.SFopp x) (SpecFloat.SFopp x)
  = SpecFloat.SFmul prec emax x x.
Proof.
  destruct x as [sx|sx| |sx mx ex]; cbn; try reflexivity;
    destruct sx; reflexivity.
Qed.

Lemma float_div_opp_r (x y : float) :
  PrimFloat.div x (PrimFloat.opp y) = PrimFloat.opp (PrimFloat.div x y).
Proof.
  apply FloatAxioms.Prim2SF_inj.
  rewrite FloatAxioms.div_spec, !FloatAxioms.opp_spec, FloatAxioms.div_spec.
  apply SFdiv_opp_r.
Qed.

Lemma float_mul_opp_opp (x : float) :
  PrimFloat.mul (PrimFloat.opp x) (PrimFloat.opp x) = PrimFloat.mul x x.
Proof.
  apply FloatAxioms.Prim2SF_inj.
  rewrite !FloatAxioms.mul_spec, !FloatAxioms.opp_spec. apply SFmul_opp_opp.
Qed.

Lemma float_abs_opp (x : float) :
  PrimFloat.abs (PrimFloat.opp x) = PrimFloat.abs x.
Proof.
  apply FloatAxioms.Prim2SF_inj.
  rewrite !FloatAxioms.abs_spec, FloatAxioms.opp_spec.
  destruct (FloatOps.Prim2SF x); reflexivity.
Qed.

(** X19: in binary64, bit for bit, the model function gives the same value
    for an amplitude and its opposite and for a width and its opposite: the
    data cannot fix the sign of the fitted width, which is why
    [calc_waists] reports its absolute value. *)
Theorem gaussian_ignores_signs
        (np_exp : float -> float) (x a x0 b wx : float) :
  gaussian np_exp x (PrimFloat.opp a, x0, b, wx) = gaussian np_exp x (a, x0, b, wx) /\
  gaussian np_exp x (a, x0, b, PrimFloat.opp wx) = gaussian np_exp x (a, x0, b, wx) /\
  PrimFloat.abs (width_of (a, x0, b, PrimFloat.opp wx))
  = PrimFloat.abs (width_of (a, x0, b, wx)).
Proof.
  unfold gaussian, width_of. split; [| split].
  - now rewrite float_abs_opp.
  - now rewrite float_div_opp_r, float_mul_opp_opp.
  - apply float_abs_opp.
Qed.

(** ** The set-up of [capture_image] *)

(** X20: on a first frame without cells [capture_image] raises [ValueError]
    before any curve exists and before the loop starts.  On a first frame
    with cells and no further frame it returns; the image shown is the raw
    first frame (no background subtracted, no crop), the view is set to the
    AOI, the horizontal overlay and both fit curves start as zeros (one per
    column, or per row), while the vertical overlay starts as the unscaled
    row sums of the frame. *)
Theorem capture_image_setup
        (np_exp : float -> float)
        (curve_fit : (float -> params -> float) -> list Z -> list Z -> guess
                     -> result params)
        (s : main) (first : ndarray) (frames : list ndarray) :
  wf first ->
  ((nrows first = 0 \/ ncols first = 0)%nat ->
     fst (capture_image np_exp curve_fit first frames s) = Raise ValueError) /\
  ((0 < nrows first)%nat -> (0 < ncols first)%nat ->
     let s' := exec (capture_image np_exp curve_fit first []) s in
     fst (capture_image np_exp curve_fit first [] s) = Ok tt /\
     imdata s' = first /\ image (fig s') = first /\
     ax_xlim s' = (xmin (AOI s), xmax (AOI s)) /\
     ax_ylim s' = (ymin (AOI s), ymax (AOI s)) /\
     ydata (hintplot (fig s')) = Py.zeros (ncols first) /\
     ydata (hintfit (fig s')) = Py.zeros (ncols first) /\
     ydata (vintfit (fig s')) = Py.zeros (nrows first) /\
     ydata (vintplot (fig s')) = map float_of_Z (sum_axis1 first) /\
     ydata (wxplot (fig s')) = waistListX s /\
     ydata (wyplot (fig s')) = waistListY s).
Proof.
  intros Hwf. split.
  - intros Hempty. unfold capture_image.
    rewrite bind_modify, bind_modify_fig, bind_modify.
    rewrite (get1DIntensity_empty AxisH first Hwf Hempty), bind_lift_raise.
    reflexivity.
  - intros Hr Hc.
    destruct (get1DIntensity_run first Hwf Hr Hc) as (k & _ & _ & _ & _ & HH & HV).
    cbv zeta. unfold exec, capture_image.
    rewrite bind_modify, bind_modify_fig, bind_modify.
    rewrite HH, bind_lift_ok, bind_modify, !bind_modify_fig.
    rewrite HV, bind_lift_ok, bind_modify, !bind_modify_fig, !bind_modify.
    cbn [capture_loop ret fst snd].
    rewrite (sum_axis0_length first Hwf), sum_axis1_length.
    repeat split.
Qed.

Lemma capture_image_setup_witness :
  fst (capture_image no_exp fit_never empty_nd [spot_frame] main_init)
  = Raise ValueError.
Proof.
  exact (proj1 (capture_image_setup no_exp fit_never main_init empty_nd
                  [spot_frame] ltac:(constructor))
               (or_introl eq_refl)).
Defined.

(** ** Projections and raw curves for any AOI *)

(** The sums along the two axes, written out. *)
Lemma sum_axis0_colsums (a : ndarray) :
  wf a ->
  sum_axis0 a
  = map (fun j => fold_right Z.add 0%Z (map (fun r => nth j r 0%Z) (rows a)))
        (seq 0 (ncols a)).
Proof.
  intros Hwf. apply (nth_ext _ _ 0%Z 0%Z).
  - now rewrite sum_axis0_length, length_map, length_seq.
  - intros j Hj. rewrite sum_axis0_length in Hj by assumption.
    rewrite sum_axis0_nth by assumption.
    rewrite (nth_indep _ 0%Z
               ((fun j => fold_right Z.add 0%Z
                            (map (fun r => nth j r 0%Z) (rows a))) 0%nat))
      by (now rewrite length_map, length_seq).
    rewrite (map_nth (fun j => fold_right Z.add 0%Z
                                 (map (fun r => nth j r 0%Z) (rows a)))).
    now rewrite seq_nth.
Qed.

Lemma sum_axis1_rowsums (a : ndarray) :
  sum_axis1 a
  = map (fun i => fold_right Z.add 0%Z (nth i (rows a) [])) (seq 0 (nrows a)).
Proof.
  apply (nth_ext _ _ 0%Z 0%Z).
  - now rewrite sum_axis1_length, length_map, length_seq.
  - intros i Hi. rewrite sum_axis1_length in Hi.
    rewrite sum_axis1_nth.
    rewrite (nth_indep _ 0%Z
               ((fun i => fold_right Z.add 0%Z (nth i (rows a) [])) 0%nat))
      by (now rewrite length_map, length_seq).
    rewrite (map_nth (fun i => fold_right Z.add 0%Z (nth i (rows a) []))).
    now rewrite seq_nth.
Qed.

(** The crop of a valid AOI spans the floors of its bounds. *)
Lemma valid_AOI_floor_dims (a : AOI_rect) (full : ndarray) :
  valid_AOI (inject_Z (Z.of_nat (ncols full)))
            (inject_Z (Z.of_nat (nrows full))) a ->
  ncols (crop_AOI a full) = Z.to_nat (Qfloor (xmax a) - Qfloor (xmin a)) /\
  nrows (crop_AOI a full) = Z.to_nat (Qfloor (ymax a) - Qfloor (ymin a)) /\
  (0 < ncols full)%nat /\ (0 < nrows full)%nat.
Proof.
  intros (Hx0 & Hx & Hx1 & Hy0 & Hy & Hy1).
  assert (Fx0 : (0 <= Qfloor (xmin a))%Z)
    by (change 0%Z with (Qfloor 0); now apply Qfloor_resp_le).
  assert (Fy0 : (0 <= Qfloor (ymin a))%Z)
    by (change 0%Z with (Qfloor 0); now apply Qfloor_resp_le).
  assert (Fx : (Qfloor (xmin a) <= Qfloor (xmax a))%Z)
    by (apply Qfloor_resp_le, Qlt_le_weak, Hx).
  assert (Fy : (Qfloor (ymin a) <= Qfloor (ymax a))%Z)
    by (apply Qfloor_resp_le, Qlt_le_weak, Hy).
  assert (Fx1 : (Qfloor (xmax a) <= Z.of_nat (ncols full))%Z)
    by (rewrite <- (Qfloor_Z (Z.of_nat (ncols full))); now apply Qfloor_resp_le).
  assert (Fy1 : (Qfloor (ymax a) <= Z.of_nat (nrows full))%Z)
    by (rewrite <- (Qfloor_Z (Z.of_nat (nrows full))); now apply Qfloor_resp_le).
  assert (Px0 : py_int (xmin a) = Qfloor (xmin a)) by now apply py_int_floor.
  assert (Py0 : py_int (ymin a) = Qfloor (ymin a)) by now apply py_int_floor.
  assert (Px1 : py_int (xmax a) = Qfloor (xmax a))
    by (apply py_int_floor; eapply Qle_trans; [exact Hx0 | now apply Qlt_le_weak]).
  assert (Py1 : py_int (ymax a) = Qfloor (ymax a))
    by (apply py_int_floor; eapply Qle_trans; [exact Hy0 | now apply Qlt_le_weak]).
  assert (Wpos : (0 < inject_Z (Z.of_nat (ncols full)))%Q)
    by (eapply Qle_lt_trans; [exact Hx0 |]; eapply Qlt_le_trans; eassumption).
  assert (Hpos : (0 < inject_Z (Z.of_nat (nrows full)))%Q)
    by (eapply Qle_lt_trans; [exact Hy0 |]; eapply Qlt_le_trans; eassumption).
  unfold Qlt in Wpos, Hpos. cbn in Wpos, Hpos.
  repeat split; try lia.
  - unfold crop_AOI, nd_crop. cbn [ncols]. rewrite Px0, Px1.
    apply slice_len_in_range; lia.
  - unfold crop_AOI. rewrite nd_crop_nrows, Py0, Py1.
    apply slice_len_in_range; lia.
Qed.

Section AnyAOI.

Variable np_exp : float -> float.
Variable curve_fit :
  (float -> params -> float) -> list Z -> list Z -> guess -> result params.

(** The crop is stored as soon as the frame has a cell, whatever follows. *)
Lemma loop_body_imdata (s : main) (frame full : ndarray) :
  sub_background frame (backgroundImage s) = Ok full ->
  wf full -> (0 < nrows full)%nat -> (0 < ncols full)%nat ->
  imdata (exec (loop_body np_exp curve_fit frame) s) = crop_AOI (AOI s) full.
Proof.
  intros Hsub Hwf Hr Hc.
  destruct (np_argmax_spec _ (flatten_nonempty full Hwf Hr Hc)) as (k0 & Hk0 & _).
  unfold exec, loop_body.
  rewrite bind_gets, Hsub, bind_lift_ok, bind_modify, bind_modify_fig.
  rewrite Hk0, bind_lift_ok, bind_gets, bind_modify.
  match goal with
  | |- imdata (snd (?m ?st)) = _ =>
      transitivity (imdata st); [| reflexivity];
      generalize st; change (preserves imdata m)
  end.
  pres.
Qed.

(** C8, as the code has it: the bounds of an AOI are view limits and need
    not be integers; [int()] takes their floors.  For every valid AOI the
    horizontal projection of the cropped residual has
    [floor xmax - floor xmin] elements, each the sum down one column, and the
    vertical projection [floor ymax - floor ymin], each the sum along one
    row.  When both numbers are positive the pass returns and the two curves
    drawn from the projections have these lengths; when one is zero the pass
    raises [ValueError].  For integer bounds the two numbers are the width
    [xmax - xmin] and the height [ymax - ymin], and are positive. *)
Theorem projection_lengths_floor (s : main) (frame : ndarray) :
  wf frame ->
  background_fits (backgroundImage s) frame ->
  valid_AOI (inject_Z (Z.of_nat (ncols frame)))
            (inject_Z (Z.of_nat (nrows frame))) (AOI s) ->
  let s' := exec (loop_body np_exp curve_fit frame) s in
  let w := Z.to_nat (Qfloor (xmax (AOI s)) - Qfloor (xmin (AOI s))) in
  let h := Z.to_nat (Qfloor (ymax (AOI s)) - Qfloor (ymin (AOI s))) in
  imdata s' = crop_AOI (AOI s) (imdata_full s') /\
  List.length (sum_axis0 (imdata s')) = w /\
  List.length (sum_axis1 (imdata s')) = h /\
  (forall j, (j < w)%nat ->
     nth j (sum_axis0 (imdata s')) 0%Z
     = fold_right Z.add 0%Z (map (fun r => nth j r 0%Z) (rows (imdata s')))) /\
  (forall i, (i < h)%nat ->
     nth i (sum_axis1 (imdata s')) 0%Z
     = fold_right Z.add 0%Z (nth i (rows (imdata s')) [])) /\
  ((0 < w)%nat -> (0 < h)%nat ->
     fst (loop_body np_exp curve_fit frame s) = Ok tt /\
     List.length (ydata (hintplot (fig s'))) = w /\
     List.length (ydata (vintplot (fig s'))) = h) /\
  ((w = 0 \/ h = 0)%nat ->
     fst (loop_body np_exp curve_fit frame s) = Raise ValueError) /\
  (forall x0 x1 y0 y1 : Z,
     AOI s = AOI_of_Z x0 x1 y0 y1 ->
     w = Z.to_nat (x1 - x0) /\ h = Z.to_nat (y1 - y0) /\
     (0 < w)%nat /\ (0 < h)%nat).
Proof.
  intros Hframe Hbg Hvalid.
  destruct (sub_background_run frame _ Hframe Hbg) as (full & Hsub & Hwf & Hshape).
  pose proof (f_equal fst Hshape) as Er. pose proof (f_equal snd Hshape) as Ec.
  cbn [fst snd shape] in Er, Ec.
  pose proof Hvalid as Hvalid'. rewrite <- Er, <- Ec in Hvalid'.
  destruct (valid_AOI_floor_dims (AOI s) full Hvalid') as (Hc & Hr & Wpos & Hpos).
  pose proof (loop_body_imdata_full np_exp curve_fit s frame full Hsub) as Hfull.
  pose proof (loop_body_imdata s frame full Hsub Hwf Hpos Wpos) as Him.
  assert (Hcrop : wf (crop_AOI (AOI s) full)) by now apply nd_crop_wf.
  cbv zeta. rewrite Hfull, Him.
  split; [reflexivity|].
  split; [now rewrite sum_axis0_length|].
  split; [now rewrite sum_axis1_length|].
  split; [intros j Hj; apply sum_axis0_nth; [assumption | lia]|].
  split; [intros i _; apply sum_axis1_nth|].
  split.
  - intros Hw Hh.
    destruct (loop_body_run np_exp curve_fit s frame full Hsub Hwf)
      as (k & mh & mv & _ & _ & _ & Hok & Hrun); [lia | lia |].
    cbv zeta in Hrun.
    destruct Hrun as (_ & _ & _ & _ & _ & _ & _ & _ & Hhint & Hvint).
    rewrite Hhint, Hvint. cbn [ydata line_of].
    rewrite !length_map, sum_axis0_length, sum_axis1_length by assumption.
    split; [exact Hok | split; assumption].
  - split.
    { intros Hempty.
      rewrite (loop_body_empty_crop np_exp curve_fit s frame full
                 Hsub Hwf Hpos Wpos); [reflexivity | lia]. }
    intros x0 x1 y0 y1 Ha. rewrite Ha in Hvalid |- *.
    unfold valid_AOI, AOI_of_Z, Qle, Qlt in Hvalid.
    cbn [xmin xmax ymin ymax inject_Z Qnum Qden] in Hvalid.
    unfold AOI_of_Z. cbn [xmin xmax ymin ymax]. rewrite !Qfloor_Z.
    repeat split; lia.
Qed.

(** C10, as the code has it: for every cropped frame with a cell, the raw
    curves a pass displays are not the projections.  The horizontal curve is
    the row, and the vertical curve the column, of the crop through its
    first largest pixel in row-major order; they have as many elements as
    the crop has columns and rows, which for a valid AOI are
    [floor xmax - floor xmin] and [floor ymax - floor ymin], and the AOI
    width and height when the bounds are integers.  The projections, the
    sums down each column and along each row, are computed apart: rescaled
    by [255 / max] they are the two overlay curves, and unscaled they are
    the data handed to the optimizer.  The pass returns, and the image it
    shows is the whole residual. *)
Theorem raw_curves_row_and_column_of_maximum (s : main) (frame : ndarray) :
  wf frame ->
  background_fits (backgroundImage s) frame ->
  (0 < nrows (crop_AOI (AOI s) frame))%nat ->
  (0 < ncols (crop_AOI (AOI s) frame))%nat ->
  let s' := exec (loop_body np_exp curve_fit frame) s in
  let im := imdata s' in
  let colsums :=
    map (fun j => fold_right Z.add 0%Z (map (fun row => nth j row 0%Z) (rows im)))
        (seq 0 (ncols im)) in
  let rowsums :=
    map (fun i => fold_right Z.add 0%Z (nth i (rows im) [])) (seq 0 (nrows im)) in
  exists r c mh mv,
    fst (loop_body np_exp curve_fit frame s) = Ok tt /\
    image (fig s') = imdata_full s' /\
    im = crop_AOI (AOI s) (imdata_full s') /\
    shape im = shape (crop_AOI (AOI s) frame) /\
    (r < nrows im)%nat /\ (c < ncols im)%nat /\
    (forall i j, (i < nrows im)%nat -> (j < ncols im)%nat ->
        (cell im i j <= cell im r c)%Z) /\
    (forall i j, (i < nrows im)%nat -> (j < ncols im)%nat ->
        before i j r c -> (cell im i j < cell im r c)%Z) /\
    hdata s' = nth r (rows im) [] /\
    vdata s' = map (fun row => nth c row 0%Z) (rows im) /\
    (forall j, (j < ncols im)%nat -> nth j (hdata s') 0%Z = cell im r j) /\
    (forall i, (i < nrows im)%nat -> nth i (vdata s') 0%Z = cell im i c) /\
    List.length (hdata s') = ncols im /\
    List.length (vdata s') = nrows im /\
    hplot (fig s') = line_of (hdata s') /\
    vplot (fig s') = line_of (vdata s') /\
    np_fmax (map float_of_Z colsums) = Ok mh /\
    np_fmax (map float_of_Z rowsums) = Ok mv /\
    ydata (hintplot (fig s'))
    = map (fun x => PrimFloat.mul x (PrimFloat.div 255 mh))
          (map float_of_Z colsums) /\
    ydata (vintplot (fig s'))
    = map (fun x => PrimFloat.mul x (PrimFloat.div 255 mv))
          (map float_of_Z rowsums) /\
    (forall px py, fit_axes np_exp curve_fit s' = Ok (px, py) ->
       exists p0x p0y,
         curve_fit (gaussian np_exp) (Py.arange (ncols im)) colsums p0x = Ok px /\
         curve_fit (gaussian np_exp) (Py.arange (nrows im)) rowsums p0y = Ok py) /\
    (valid_AOI (inject_Z (Z.of_nat (ncols frame)))
               (inject_Z (Z.of_nat (nrows frame))) (AOI s) ->
       List.length (hdata s')
       = Z.to_nat (Qfloor (xmax (AOI s)) - Qfloor (xmin (AOI s))) /\
       List.length (vdata s')
       = Z.to_nat (Qfloor (ymax (AOI s)) - Qfloor (ymin (AOI s))) /\
       forall x0 x1 y0 y1 : Z,
         AOI s = AOI_of_Z x0 x1 y0 y1 ->
         List.length (hdata s') = Z.to_nat (x1 - x0) /\
         List.length (vdata s') = Z.to_nat (y1 - y0)).
Proof.
  intros Hframe Hbg Hr Hc.
  destruct (sub_background_run frame _ Hframe Hbg) as (full & Hsub & Hwf & Hshape).
  pose proof (crop_AOI_shape (AOI s) full frame Hshape) as Hcs.
  pose proof (f_equal fst Hcs) as Er. pose proof (f_equal snd Hcs) as Ec.
  pose proof (f_equal fst Hshape) as Fr. pose proof (f_equal snd Hshape) as Fc.
  cbn [fst snd shape] in Er, Ec, Fr, Fc.
  rewrite <- Er in Hr. rewrite <- Ec in Hc.
  assert (Hcrop : wf (crop_AOI (AOI s) full)) by now apply nd_crop_wf.
  destruct (loop_body_run np_exp curve_fit s frame full Hsub Hwf Hr Hc)
    as (k & mh & mv & Hk & Hmh & Hmv & Hok & Hrun).
  cbv zeta in Hrun.
  destruct Hrun
    as (Hfull & Himg & Him & Haoi & Hhd & Hvd & Hhp & Hvp & Hhint & Hvint).
  destruct (get1DIntensity_run (crop_AOI (AOI s) full) Hcrop Hr Hc)
    as (k' & Hk' & Hrow & Hcol & Hmax & HH & HV).
  assert (k' = k) by congruence. subst k'.
  destruct (np_argmax_spec (flatten (crop_AOI (AOI s) full))
              (flatten_nonempty _ Hcrop Hr Hc))
    as (k' & Hk'' & Hlt & _ & Hfirst).
  assert (k' = k) by congruence. subst k'.
  rewrite flatten_length in Hlt by assumption.
  cbv zeta. rewrite Hfull, Himg, Him, Hhint, Hvint, Hhp, Hvp, Hhd, Hvd.
  set (im := crop_AOI (AOI s) full) in *.
  rewrite <- (sum_axis0_colsums im Hcrop), <- (sum_axis1_rowsums im).
  exists (k / ncols im)%nat, (k mod ncols im)%nat, mh, mv.
  assert (Lh : List.length (nth (k / ncols im) (rows im) []) = ncols im)
    by (now apply wf_nth_length).
  assert (Lv : List.length (map (fun row => nth (k mod ncols im) row 0%Z) (rows im))
               = nrows im) by apply length_map.
  split; [exact Hok|]. split; [reflexivity|].
  split; [reflexivity|]. split; [exact Hcs|].
  split; [exact Hrow|]. split; [exact Hcol|]. split; [exact Hmax|].
  split.
  { intros i j Hi Hj Hbefore.
    destruct (flatten_position im i j Hcrop Hi Hj) as [Hpos ->].
    rewrite <- (flatten_nth im k Hcrop Hlt). apply Hfirst.
    pose proof (Nat.div_mod_eq k (ncols im)) as Hdm.
    unfold before in Hbefore. destruct Hbefore as [Hb | [-> Hb]]; nia. }
  split; [reflexivity|]. split; [reflexivity|].
  split; [intros j Hj; reflexivity|].
  split.
  { intros i Hi. unfold cell.
    rewrite (nth_indep _ 0%Z ((fun row => nth (k mod ncols im) row 0%Z) []))
      by (rewrite length_map; exact Hi).
    now rewrite (map_nth (fun row => nth (k mod ncols im) row 0%Z)). }
  split; [exact Lh|]. split; [exact Lv|].
  split; [reflexivity|]. split; [reflexivity|].
  split; [exact Hmh|]. split; [exact Hmv|].
  split; [reflexivity|]. split; [reflexivity|].
  split.
  { intros px py Hfit.
    destruct (fit_axes_ok_inv np_exp curve_fit _ px py Hfit)
      as (_ & _ & p0x & p0y & Hx & Hy).
    fold (exec (loop_body np_exp curve_fit frame) s) in Him.
    rewrite Him in Hx, Hy. fold im in Hx, Hy.
    rewrite (sum_axis0_length im Hcrop) in Hx.
    rewrite (sum_axis1_length im) in Hy.
    exists p0x, p0y. split; assumption. }
  intros Hvalid. rewrite <- Fr, <- Fc in Hvalid.
  destruct (valid_AOI_floor_dims (AOI s) full Hvalid) as (Hcw & Hrh & _ & _).
  fold im in Hcw, Hrh.
  rewrite Lh, Lv. split; [exact Hcw|]. split; [exact Hrh|].
  intros x0 x1 y0 y1 Ha. rewrite Hcw, Hrh, Ha.
  unfold AOI_of_Z. cbn [xmin xmax ymin ymax]. rewrite !Qfloor_Z.
  split; reflexivity.
Qed.

End AnyAOI.

Lemma projection_lengths_floor_witness :
  List.length (sum_axis0 (imdata (exec (loop_body no_exp fit_never spot_frame)
                                       half_zoomed))) = 2%nat /\
  List.length (sum_axis1 (imdata (exec (loop_body no_exp fit_never spot_frame)
                                       half_zoomed))) = 2%nat.
Proof.
  pose proof (projection_lengths_floor
                no_exp fit_never half_zoomed spot_frame
                ltac:(repeat constructor) I
                ltac:(unfold valid_AOI, Qle, Qlt; cbn; lia)) as H.
  cbv zeta in H. destruct H as (_ & H0 & H1 & _). split; assumption.
Defined.

(** C8 fails as stated: the AOI with x in [1/2, 2) and y in [0, 2) is valid
    on a frame of 3 columns and 2 rows and is 3/2 wide, yet the horizontal
    projection has 2 elements. *)
Lemma projection_length_is_not_fractional_width :
  valid_AOI 3 2 (AOI half_zoomed) /\
  (xmax (AOI half_zoomed) - xmin (AOI half_zoomed) == 3 # 2)%Q /\
  List.length (sum_axis0 (imdata (exec (loop_body no_exp fit_never spot_frame)
                                       half_zoomed))) = 2%nat /\
  ~ (inject_Z (Z.of_nat
                 (List.length
                    (sum_axis0 (imdata (exec (loop_body no_exp fit_never spot_frame)
                                             half_zoomed)))))
     == xmax (AOI half_zoomed) - xmin (AOI half_zoomed))%Q.
Proof.
  split; [unfold valid_AOI, Qle, Qlt; cbn; lia|].
  split; [reflexivity|]. split; [reflexivity|].
  vm_compute. discriminate.
Qed.

Lemma raw_curves_row_and_column_of_maximum_witness :
  exists r c,
    hdata (exec (loop_body no_exp fit_never spot_frame) quarter_zoomed)
    = nth r (rows (imdata (exec (loop_body no_exp fit_never spot_frame)
                                quarter_zoomed))) [] /\
    (c < 2)%nat.
Proof.
  destruct (raw_curves_row_and_column_of_maximum
              no_exp fit_never quarter_zoomed spot_frame
              ltac:(repeat constructor) I
              ltac:(vm_compute; lia) ltac:(vm_compute; lia))
    as (r & c & mh & mv & _ & _ & _ & Hs & _ & Hc & _ & _ & H & _).
  exists r, c. split; [exact H|].
  pose proof (f_equal snd Hs) as E. cbn [snd shape] in E.
  rewrite E in Hc. exact Hc.
Defined.

(** C10 fails as stated: the AOI with x in [1/4, 5/2) and y in [0, 3/2) is
    valid on a frame of 3 columns and 2 rows, 9/4 wide and 3/2 high, yet the
    horizontal raw curve has 2 elements and the vertical one has 1. *)
Lemma raw_curve_lengths_are_not_fractional_extents :
  valid_AOI 3 2 (AOI quarter_zoomed) /\
  (xmax (AOI quarter_zoomed) - xmin (AOI quarter_zoomed) == 9 # 4)%Q /\
  (ymax (AOI quarter_zoomed) - ymin (AOI quarter_zoomed) == 3 # 2)%Q /\
  hdata (exec (loop_body no_exp fit_never spot_frame) quarter_zoomed) = [1; 2]%Z /\
  vdata (exec (loop_body no_exp fit_never spot_frame) quarter_zoomed) = [2]%Z /\
  ~ (inject_Z (Z.of_nat
                 (List.length
                    (hdata (exec (loop_body no_exp fit_never spot_frame)
                                 quarter_zoomed))))
     == xmax (AOI quarter_zoomed) - xmin (AOI quarter_zoomed))%Q /\
  ~ (inject_Z (Z.of_nat
                 (List.length
                    (vdata (exec (loop_body no_exp fit_never spot_frame)
                                 quarter_zoomed))))
     == ymax (AOI quarter_zoomed) - ymin (AOI quarter_zoomed))%Q.
Proof.
  split; [unfold valid_AOI, Qle, Qlt; cbn; lia|].
  repeat split; try reflexivity; vm_compute; discriminate.
Qed.


(** * The exposure as computed in binary64 *)

(** ** Rounding in [SpecFloat] *)

Lemma digits2_pos_size (p : positive) : SpecFloat.digits2_pos p = Pos.size p.
Proof. induction p; cbn; congruence. Qed.

Lemma Zdigits2_log2 (p : positive) :
  SpecFloat.Zdigits2 (Zpos p) = (Z.log2 (Zpos p) + 1)%Z.
Proof.
  cbn [SpecFloat.Zdigits2]. rewrite digits2_pos_size.
  destruct p; cbn; lia.
Qed.

Lemma Zdigits2_unique (m d : Z) :
  (0 < d)%Z -> (2 ^ (d - 1) <= m < 2 ^ d)%Z -> SpecFloat.Zdigits2 m = d.
Proof.
  intros Hd [Hlo Hhi].
  assert (0 < m)%Z by (pose proof (Z.pow_pos_nonneg 2 (d - 1)); lia).
  destruct m as [|p|p]; try lia.
  rewrite Zdigits2_log2.
  assert (E : Z.log2 (Zpos p) = (d - 1)%Z).
  { apply Z.log2_unique; [lia|].
    replace (Z.succ (d - 1)) with d by lia. split; assumption. }
  rewrite E. lia.
Qed.

Lemma shr_1_m (r : SpecFloat.shr_record) :
  (0 <= SpecFloat.shr_m r)%Z ->
  SpecFloat.shr_m (SpecFloat.shr_1 r) = (SpecFloat.shr_m r / 2)%Z.
Proof.
  destruct r as [m b s]. cbn [SpecFloat.shr_m]. intros H.
  destruct m as [|[p|p|]|p]; cbn [SpecFloat.shr_1 SpecFloat.shr_m orb].
  - reflexivity.
  - rewrite Pos2Z.inj_xI. apply (Z.div_unique _ _ _ 1); lia.
  - rewrite Pos2Z.inj_xO. apply (Z.div_unique _ _ _ 0); lia.
  - reflexivity.
  - lia.
Qed.

Lemma shr_m_iter (p : positive) (r : SpecFloat.shr_record) :
  (0 <= SpecFloat.shr_m r)%Z ->
  SpecFloat.shr_m (SpecFloat.iter_pos SpecFloat.shr_1 p r)
  = (SpecFloat.shr_m r / 2 ^ Zpos p)%Z.
Proof.
  revert r. induction p as [p IH | p IH |]; intros r H; cbn [SpecFloat.iter_pos].
  - assert (H1 : (0 <= SpecFloat.shr_m (SpecFloat.shr_1 r))%Z)
      by (rewrite shr_1_m by assumption; apply Z.div_pos; lia).
    assert (H2 : (0 <= SpecFloat.shr_m
                         (SpecFloat.iter_pos SpecFloat.shr_1 p (SpecFloat.shr_1 r)))%Z)
      by (rewrite IH by assumption; apply Z.div_pos; lia).
    rewrite IH, IH, shr_1_m by assumption.
    rewrite !Z.div_div by lia. f_equal.
    assert (E : Z.pos p~1 = (1 + Z.pos p + Z.pos p)%Z) by lia.
    rewrite E, !Z.pow_add_r by lia. lia.
  - assert (H2 : (0 <= SpecFloat.shr_m (SpecFloat.iter_pos SpecFloat.shr_1 p r))%Z)
      by (rewrite IH by assumption; apply Z.div_pos; lia).
    rewrite IH, IH by assumption.
    rewrite !Z.div_div by lia. f_equal.
    assert (E : Z.pos p~0 = (Z.pos p + Z.pos p)%Z) by lia.
    rewrite E, !Z.pow_add_r by lia. lia.
  - now rewrite shr_1_m.
Qed.

Lemma round_nearest_even_cases (m : Z) (l : SpecFloat.location) :
  SpecFloat.round_nearest_even m l = m \/
  SpecFloat.round_nearest_even m l = (m + 1)%Z.
Proof.
  destruct l as [|[| |]]; cbn; auto. destruct (Z.even m); auto.
Qed.

(** Rounding a product of two 53-bit mantissas. *)
Lemma binary_round_aux_near (s : bool) (M e d : Z) :
  (d = 105 \/ d = 106)%Z ->
  (2 ^ (d - 1) <= M < 2 ^ d)%Z ->
  (-1000 <= e <= 800)%Z ->
  exists m' n,
    SpecFloat.binary_round_aux 53 1024 s M e SpecFloat.loc_Exact
    = SpecFloat.S754_finite s m' (e + n) /\
    (0 <= n)%Z /\
    (Z.abs (Zpos m' * 2 ^ n - M) * 2 ^ 52 <= M)%Z.
Proof.
  intros Hd HM He.
  assert (Hdpos : (0 < d)%Z) by lia.
  unfold SpecFloat.binary_round_aux.
  unfold SpecFloat.shr_fexp at 1.
  rewrite (Zdigits2_unique M d Hdpos HM).
  assert (Hfexp : (SpecFloat.fexp 53 1024 (d + e) - e = d - 53)%Z)
    by (unfold SpecFloat.fexp, SpecFloat.emin; lia).
  rewrite Hfexp.
  set (n := (d - 53)%Z).
  assert (Hn : exists p, n = Zpos p)
    by (destruct Hd; subst d n; eexists; reflexivity).
  destruct Hn as (p & Hp).
  rewrite Hp. cbn [SpecFloat.shr SpecFloat.shr_record_of_loc].
  set (r1 := SpecFloat.iter_pos SpecFloat.shr_1 p _).
  assert (Hm1 : SpecFloat.shr_m r1 = (M / 2 ^ n)%Z).
  { unfold r1. rewrite shr_m_iter; cbn [SpecFloat.shr_m].
    - now rewrite Hp.
    - pose proof (Z.pow_pos_nonneg 2 (d - 1)); lia. }
  set (q := SpecFloat.round_nearest_even (SpecFloat.shr_m r1)
              (SpecFloat.loc_of_shr_record r1)).
  assert (Hq : q = (M / 2 ^ n)%Z \/ q = (M / 2 ^ n + 1)%Z).
  { unfold q. destruct (round_nearest_even_cases (SpecFloat.shr_m r1)
                          (SpecFloat.loc_of_shr_record r1)) as [E | E];
      rewrite E, Hm1; auto. }
  clearbody q. clear Hm1. clearbody r1.
  assert (H2n : (2 ^ n * 2 ^ 52 = 2 ^ (d - 1))%Z)
    by (rewrite <- Z.pow_add_r by lia; f_equal; lia).
  assert (H2d : (2 ^ d = 2 * 2 ^ (d - 1))%Z)
    by (replace d with (1 + (d - 1))%Z at 1 by lia;
        rewrite Z.pow_add_r by lia; reflexivity).
  assert (Hnpos : (0 < 2 ^ n)%Z) by (apply Z.pow_pos_nonneg; lia).
  pose proof (Z.div_mod M (2 ^ n) ltac:(lia)) as Hdm.
  pose proof (Z.mod_pos_bound M (2 ^ n) Hnpos) as Hmod.
  set (k := (M / 2 ^ n)%Z) in *.
  assert (Hk : (2 ^ 52 <= k < 2 ^ 53)%Z).
  { split.
    - apply Z.div_le_lower_bound; [lia|]. lia.
    - apply Z.div_lt_upper_bound; [lia|].
      change (2 ^ 53)%Z with (2 * 2 ^ 52)%Z. lia. }
  destruct (Z.eq_dec q (2 ^ 53)) as [Hq53 | Hq53].
  - (* the mantissa overflowed to 2^53 *)
    assert (Hqk : q = (k + 1)%Z) by lia.
    unfold SpecFloat.shr_fexp.
    rewrite (Zdigits2_unique q 54 ltac:(lia))
      by (rewrite Hq53; split; [apply Z.pow_le_mono_r | apply Z.pow_lt_mono_r]; lia).
    replace (SpecFloat.fexp 53 1024 (54 + (e + Z.pos p)) - (e + Z.pos p))%Z
      with 1%Z by (unfold SpecFloat.fexp, SpecFloat.emin; lia).
    rewrite Hq53.
    exists 4503599627370496%positive, (n + 1)%Z.
    split.
    { change (2 ^ 53)%Z with (Z.pos 9007199254740992).
      cbn [SpecFloat.shr SpecFloat.shr_record_of_loc SpecFloat.iter_pos
           SpecFloat.shr_1 SpecFloat.shr_m].
      replace (e + Z.pos p + 1 <=? 1024 - 53)%Z with true
        by (symmetry; apply Z.leb_le; lia).
      f_equal; lia. }
    split; [lia|].
    rewrite Z.pow_add_r by lia.
    change (Z.pos 4503599627370496) with (2 ^ 52)%Z.
    change (2 ^ 1)%Z with 2%Z.
    assert (Hk' : k = (2 * 2 ^ 52 - 1)%Z)
      by (change (2 ^ 53)%Z with (2 * 2 ^ 52)%Z in Hq53; lia).
    rewrite Hk' in Hdm.
    replace (2 ^ n * (2 * 2 ^ 52 - 1))%Z with (2 * 2 ^ (d - 1) - 2 ^ n)%Z in Hdm
      by (rewrite <- H2n; ring).
    replace (2 ^ 52 * (2 ^ n * 2))%Z with (2 * 2 ^ (d - 1))%Z
      by (rewrite <- H2n; ring).
    rewrite Z.abs_eq by lia.
    replace ((2 * 2 ^ (d - 1) - M) * 2 ^ 52)%Z
      with ((2 ^ n - M mod 2 ^ n) * 2 ^ 52)%Z by (rewrite Hdm at 2; ring).
    rewrite Z.mul_sub_distr_r, H2n.
    pose proof (Z.mul_nonneg_nonneg (M mod 2 ^ n) (2 ^ 52) ltac:(lia) ltac:(lia)).
    lia.
  - assert (Hqr : (2 ^ 52 <= q < 2 ^ 53)%Z) by lia.
    unfold SpecFloat.shr_fexp.
    rewrite (Zdigits2_unique q 53 ltac:(lia)) by exact Hqr.
    replace (SpecFloat.fexp 53 1024 (53 + (e + Z.pos p)) - (e + Z.pos p))%Z
      with 0%Z by (unfold SpecFloat.fexp, SpecFloat.emin; lia).
    cbn [SpecFloat.shr SpecFloat.shr_record_of_loc SpecFloat.shr_m].
    destruct q as [|m'|m']; try lia.
    replace (e + Z.pos p <=? 1024 - 53)%Z with true
      by (symmetry; apply Z.leb_le; lia).
    exists m', n. split; [f_equal; lia|]. split; [lia|].
    lia.
Qed.

(** ** Values of binary64 numbers *)

Local Open Scope R_scope.

Lemma powerRZ_2_pos (e : Z) : 0 < powerRZ 2 e.
Proof. apply powerRZ_lt. lra. Qed.

Lemma powerRZ_2_IZR (n : Z) : (0 <= n)%Z -> powerRZ 2 n = IZR (2 ^ n).
Proof.
  intros H. rewrite <- (Z2Nat.id n H) at 2.
  rewrite <- pow_IZR, pow_powerRZ, Z2Nat.id by assumption. reflexivity.
Qed.

Lemma powerRZ_2_le (a b : Z) : (a <= b)%Z -> powerRZ 2 a <= powerRZ 2 b.
Proof.
  intros H. replace b with (a + (b - a))%Z by lia.
  rewrite powerRZ_add by lra.
  rewrite (powerRZ_2_IZR (b - a)) by lia.
  assert (1 <= IZR (2 ^ (b - a)))
    by (apply IZR_le; pose proof (Z.pow_pos_nonneg 2 (b - a)); lia).
  pose proof (powerRZ_2_pos a). nra.
Qed.

Lemma scale_mantissa (m n e : Z) :
  (0 <= n)%Z -> IZR m * powerRZ 2 (e + n) = IZR (m * 2 ^ n) * powerRZ 2 e.
Proof.
  intros H. rewrite powerRZ_add by lra.
  rewrite (powerRZ_2_IZR n H), mult_IZR. ring.
Qed.

Lemma near_trans (a b x y z : R) :
  0 <= a -> 0 <= b -> 0 <= z ->
  near a x y -> near b y z -> near (a + b + a * b) x z.
Proof.
  unfold near. intros Ha Hb Hz H1 H2.
  assert (Hy : y <= (1 + b) * z).
  { pose proof (Rle_abs (y - z)). lra. }
  replace (x - z) with ((x - y) + (y - z)) by ring.
  eapply Rle_trans; [apply Rabs_triang|].
  assert (a * y <= a * ((1 + b) * z)) by (apply Rmult_le_compat_l; assumption).
  lra.
Qed.

Lemma near_mult (a b x y u v : R) :
  0 <= a -> 0 <= b -> 0 <= y -> 0 <= v ->
  near a x y -> near b u v -> near (a + b + a * b) (x * u) (y * v).
Proof.
  unfold near. intros Ha Hb Hy Hv H1 H2.
  replace (x * u - y * v) with ((x - y) * v + y * (u - v) + (x - y) * (u - v)) by ring.
  eapply Rle_trans; [apply Rabs_triang|].
  eapply Rle_trans; [apply Rplus_le_compat_r, Rabs_triang|].
  rewrite !Rabs_mult.
  rewrite (Rabs_pos_eq v), (Rabs_pos_eq y) by assumption.
  assert (Rabs (x - y) * v <= a * y * v)
    by (apply Rmult_le_compat_r; assumption).
  assert (y * Rabs (u - v) <= y * (b * v))
    by (apply Rmult_le_compat_l; assumption).
  assert (Rabs (x - y) * Rabs (u - v) <= (a * y) * (b * v))
    by (apply Rmult_le_compat; try apply Rabs_pos; assumption).
  lra.
Qed.

Lemma near_weaken (a b x y : R) : a <= b -> 0 <= y -> near a x y -> near b x y.
Proof.
  unfold near. intros H Hy H1.
  assert (a * y <= b * y) by (apply Rmult_le_compat_r; assumption). lra.
Qed.

Lemma near_bounds (a x y : R) : near a x y -> (1 - a) * y <= x <= (1 + a) * y.
Proof.
  unfold near. intros H.
  pose proof (Rle_abs (x - y)). pose proof (Rle_abs (- (x - y))).
  rewrite Rabs_Ropp in *. lra.
Qed.

(** The product of two positive normal binary64 numbers, away from overflow
    and underflow, is off by at most one part in [2^52]. *)
Lemma float_mul_near (x y : float) (mx my : positive) (ex ey : Z) :
  FloatOps.Prim2SF x = SpecFloat.S754_finite false mx ex ->
  FloatOps.Prim2SF y = SpecFloat.S754_finite false my ey ->
  (2 ^ 52 <= Zpos mx < 2 ^ 53)%Z ->
  (2 ^ 52 <= Zpos my < 2 ^ 53)%Z ->
  (-1000 <= ex + ey <= 800)%Z ->
  near (/ IZR (2 ^ 52)) (F2R (x * y)) (F2R x * F2R y).
Proof.
  intros Hx Hy Bx By He.
  unfold F2R. rewrite FloatAxioms.mul_spec, Hx, Hy.
  unfold FloatAxioms.SF64mul, SpecFloat.SFmul, FloatOps.prec, FloatOps.emax.
  cbn [xorb].
  set (M := Z.pos (mx * my)).
  assert (HM : (2 ^ 104 <= M < 2 ^ 106)%Z).
  { unfold M. rewrite Pos2Z.inj_mul.
    change (2 ^ 104)%Z with (2 ^ 52 * 2 ^ 52)%Z.
    change (2 ^ 106)%Z with (2 ^ 53 * 2 ^ 53)%Z. nia. }
  assert (Hd : exists d, (d = 105 \/ d = 106)%Z /\ (2 ^ (d - 1) <= M < 2 ^ d)%Z).
  { destruct (Z_lt_le_dec M (2 ^ 105)).
    - exists 105%Z. split; [auto|]. change (105 - 1)%Z with 104%Z. lia.
    - exists 106%Z. split; [auto|]. change (106 - 1)%Z with 105%Z. lia. }
  destruct Hd as (d & Hd & HMd).
  destruct (binary_round_aux_near false M (ex + ey) d Hd HMd He)
    as (m' & n & -> & Hn & Herr).
  cbn [SF2R]. unfold near.
  rewrite !Rmult_1_l.
  rewrite (scale_mantissa (Z.pos m') n (ex + ey) Hn).
  replace (IZR (Z.pos mx) * powerRZ 2 ex * (IZR (Z.pos my) * powerRZ 2 ey))
    with (IZR M * powerRZ 2 (ex + ey))
    by (unfold M; rewrite Pos2Z.inj_mul, mult_IZR, powerRZ_add by lra; ring).
  rewrite <- Rmult_minus_distr_r, Rabs_mult, <- minus_IZR, <- abs_IZR.
  rewrite (Rabs_pos_eq (powerRZ 2 (ex + ey)))
    by (apply Rlt_le, powerRZ_2_pos).
  rewrite <- Rmult_assoc.
  apply Rmult_le_compat_r; [apply Rlt_le, powerRZ_2_pos|].
  apply IZR_le in Herr. rewrite mult_IZR in Herr.
  assert (0 < IZR (2 ^ 52)) by (apply IZR_lt; reflexivity).
  apply (Rmult_le_reg_r (IZR (2 ^ 52))); [assumption|].
  rewrite (Rmult_comm (/ _)), Rmult_assoc, Rinv_l by lra. lra.
Qed.

Lemma powerRZ_2_neg (n : Z) : (0 <= n)%Z -> powerRZ 2 (- n) = / IZR (2 ^ n).
Proof.
  intros H.
  assert (0 < IZR (2 ^ n))
    by (apply IZR_lt; apply Z.pow_pos_nonneg; lia).
  apply (Rmult_eq_reg_r (IZR (2 ^ n))); [| lra].
  rewrite Rinv_l by lra.
  rewrite <- (powerRZ_2_IZR n H), <- powerRZ_add by lra.
  replace (- n + n)%Z with 0%Z by lia. reflexivity.
Qed.

(** A binary64 number between 1/2 and 2^17 is positive and normal. *)
Lemma positive_normal (p : float) :
  1 / 2 <= F2R p <= IZR (2 ^ 17) ->
  exists m e,
    FloatOps.Prim2SF p = SpecFloat.S754_finite false m e /\
    (2 ^ 52 <= Zpos m < 2 ^ 53)%Z /\ (-53 <= e <= -35)%Z.
Proof.
  intros [Hlo Hhi].
  pose proof (FloatAxioms.Prim2SF_valid p) as Hv.
  unfold F2R in Hlo, Hhi.
  destruct (FloatOps.Prim2SF p) as [s | s | | s m e]; cbn [SF2R] in Hlo, Hhi;
    try lra.
  pose proof (powerRZ_2_pos e) as He.
  assert (Hm : 1 <= IZR (Z.pos m)) by (apply IZR_le; lia).
  destruct s.
  { assert (0 < IZR (Z.pos m) * powerRZ 2 e) by (apply Rmult_lt_0_compat; lra).
    lra. }
  rewrite Rmult_1_l in Hlo, Hhi.
  cbn [SpecFloat.valid_binary] in Hv.
  unfold SpecFloat.bounded, SpecFloat.canonical_mantissa in Hv.
  apply andb_true_iff in Hv. destruct Hv as [Hc _].
  apply Z.eqb_eq in Hc.
  unfold SpecFloat.fexp, SpecFloat.emin, FloatOps.prec, FloatOps.emax in Hc.
  rewrite digits2_pos_size in Hc.
  assert (Hsize : Z.pos (Pos.size m) = (Z.log2 (Z.pos m) + 1)%Z)
    by (destruct m; cbn; lia).
  rewrite Hsize in Hc.
  destruct (Z.log2_spec (Z.pos m) ltac:(lia)) as [Hl Hu].
  set (l := Z.log2 (Z.pos m)) in *.
  assert (Hl0 : (0 <= l)%Z) by apply Z.log2_nonneg.
  assert (Hl52 : (l <= 52)%Z) by lia.
  assert (Hm53 : (Z.pos m < 2 ^ 53)%Z).
  { eapply Z.lt_le_trans; [exact Hu|]. apply Z.pow_le_mono_r; lia. }
  assert (He53 : (-53 <= e)%Z).
  { destruct (Z_lt_le_dec e (-53)) as [Hlt | ]; [exfalso | assumption].
    pose proof (powerRZ_2_le e (-54) ltac:(lia)) as Hp.
    change (-54)%Z with (Z.opp 54) in Hp.
    rewrite (powerRZ_2_neg 54) in Hp by lia.
    assert (Hm' : (Z.pos m <= 9007199254740991)%Z)
      by (change (2 ^ 53)%Z with 9007199254740992%Z in Hm53; lia).
    apply IZR_le in Hm'.
    assert (IZR (Z.pos m) * powerRZ 2 e
            <= 9007199254740991 * / IZR (2 ^ 54))
      by (apply Rmult_le_compat; lra).
    change (2 ^ 54)%Z with 18014398509481984%Z in *.
    lra. }
  assert (l = 52%Z) by lia.
  assert (Hm52 : (2 ^ 52 <= Z.pos m)%Z) by (subst l; congruence).
  exists m, e. split; [reflexivity|]. split; [lia|]. split; [assumption|].
  destruct (Z_lt_le_dec (-35) e) as [Hgt | ]; [exfalso | assumption].
  pose proof (powerRZ_2_le (-34) e ltac:(lia)) as Hp.
  change (-34)%Z with (Z.opp 34) in Hp.
  rewrite (powerRZ_2_neg 34) in Hp by lia.
  apply IZR_le in Hm52.
  change (2 ^ 52)%Z with 4503599627370496%Z in Hm52.
  change (2 ^ 34)%Z with 17179869184%Z in Hp.
  change (2 ^ 17)%Z with 131072%Z in Hhi.
  assert (4503599627370496 * / 17179869184 <= IZR (Z.pos m) * powerRZ 2 e)
    by (apply Rmult_le_compat; lra).
  lra.
Qed.

(** *** Powers of ten near a given exponent *)

Lemma ln_10_bounds : 0 < ln 10 < 4.
Proof.
  split.
  - rewrite <- ln_1. apply ln_increasing; lra.
  - apply exp_lt_inv. rewrite exp_ln by lra.
    assert (2 < exp 1) by (pose proof (exp_ineq1 1); lra).
    replace 4 with (1 + 1 + 1 + 1) by ring.
    rewrite !exp_plus.
    assert (4 < exp 1 * exp 1) by nra.
    assert (8 < exp 1 * exp 1 * exp 1) by nra.
    nra.
Qed.

Lemma exp_near_1 (u : R) : Rabs u <= 1 / 2 -> Rabs (exp u - 1) <= 2 * Rabs u.
Proof.
  intros Hu.
  pose proof (exp_ineq1_le u) as H1.
  pose proof (exp_ineq1_le (- u)) as H2.
  pose proof (exp_pos u) as Hp.
  assert (H3 : exp u * exp (- u) = 1)
    by (rewrite <- exp_plus, Rplus_opp_r; apply exp_0).
  assert (H4 : exp u * (1 - u) <= 1).
  { rewrite <- H3. apply Rmult_le_compat_l; lra. }
  unfold Rabs in *.
  destruct (Rcase_abs u), (Rcase_abs (exp u - 1)); nra.
Qed.

Lemma Rpower_10_near (eps y a : R) :
  0 <= a <= 5 -> 0 <= eps <= 1 / 100 ->
  near eps y a -> near (40 * eps) (Rpower 10 y) (Rpower 10 a).
Proof.
  intros Ha He H. unfold near in *.
  pose proof ln_10_bounds as Hln.
  replace y with (a + (y - a)) at 1 by ring.
  rewrite Rpower_plus.
  replace (Rpower 10 a * Rpower 10 (y - a) - Rpower 10 a)
    with (Rpower 10 a * (exp ((y - a) * ln 10) - 1))
    by (unfold Rpower; ring).
  assert (Hpos : 0 < Rpower 10 a) by apply exp_pos.
  rewrite Rabs_mult, (Rabs_pos_eq (Rpower 10 a)) by lra.
  rewrite (Rmult_comm (40 * eps)).
  apply Rmult_le_compat_l; [lra|].
  assert (Hu : Rabs ((y - a) * ln 10) <= 20 * eps).
  { rewrite Rabs_mult, (Rabs_pos_eq (ln 10)) by lra.
    assert (Rabs (y - a) <= 5 * eps) by nra.
    pose proof (Rabs_pos (y - a)). nra. }
  pose proof (exp_near_1 ((y - a) * ln 10) ltac:(lra)). lra.
Qed.

Lemma Rpower_10_range (y : R) : 0 <= y <= 5 -> 1 <= Rpower 10 y <= 100000.
Proof.
  intros [H0 H5]. split.
  - rewrite <- (Rpower_O 10) by lra. apply Rle_Rpower; lra.
  - replace 100000 with (Rpower 10 5).
    + apply Rle_Rpower; lra.
    + replace 5 with (INR 5) by (simpl; ring).
      rewrite Rpower_pow by lra. simpl. ring.
Qed.

(** ** The exponent and the prefactor *)

Lemma slider_exponent_ok_spec (v : Z) :
  (0 < v)%Z -> slider_exponent_ok v = true ->
  near (/ IZR (2 ^ 52)) (F2R (slider_exponent v)) (IZR v / 23).
Proof.
  intros Hv. unfold slider_exponent_ok, F2R.
  destruct (FloatOps.Prim2SF (slider_exponent v)) as [s | s | | [|] m e];
    try discriminate.
  intros H. apply andb_true_iff in H. destruct H as [He H].
  apply Z.leb_le in He. apply Z.leb_le in H.
  cbn [SF2R]. rewrite Rmult_1_l.
  replace e with (- (- e))%Z at 1 by lia.
  rewrite powerRZ_2_neg by lia.
  set (K := (2 ^ (- e))%Z) in *.
  assert (HK : 0 < IZR K) by (apply IZR_lt, Z.pow_pos_nonneg; lia).
  assert (H52 : 0 < IZR (2 ^ 52)) by (apply IZR_lt; reflexivity).
  apply IZR_le in H.
  rewrite !mult_IZR, abs_IZR, minus_IZR, !mult_IZR in H.
  unfold near.
  replace (IZR (Z.pos m) * / IZR K - IZR v / 23)
    with ((23 * IZR (Z.pos m) - IZR v * IZR K) * / (23 * IZR K))
    by (field; lra).
  assert (H23 : 0 < / (23 * IZR K)) by (apply Rinv_0_lt_compat; lra).
  rewrite Rabs_mult, (Rabs_pos_eq (/ _)) by lra.
  replace (/ IZR (2 ^ 52) * (IZR v / 23))
    with (IZR v * IZR K * / IZR (2 ^ 52) * / (23 * IZR K))
    by (field; lra).
  apply Rmult_le_compat_r; [lra|].
  apply (Rmult_le_reg_r (IZR (2 ^ 52))); [assumption|].
  rewrite Rmult_assoc, Rinv_l by lra. lra.
Qed.

Lemma slider_exponents_ok (v : Z) :
  (1 <= v <= 100)%Z -> slider_exponent_ok v = true.
Proof.
  intros H.
  assert (Hall : forallb slider_exponent_ok (map Z.of_nat (seq 1 100)) = true)
    by (vm_compute; reflexivity).
  rewrite forallb_forall in Hall. apply Hall.
  apply in_map_iff. exists (Z.to_nat v). split; [lia|].
  apply in_seq. lia.
Qed.

Lemma prefactor_near : near (/ IZR (2 ^ 52)) (F2R 0.037%float) 0.037.
Proof.
  unfold F2R.
  replace (FloatOps.Prim2SF 0.037%float)
    with (SpecFloat.S754_finite false 5332261958806667 (-57))
    by (vm_compute; reflexivity).
  cbn [SF2R]. change (-57)%Z with (Z.opp 57).
  rewrite powerRZ_2_neg by lia.
  change (2 ^ 57)%Z with 144115188075855872%Z.
  change (2 ^ 52)%Z with 4503599627370496%Z.
  unfold near, Rabs.
  destruct (Rcase_abs _); lra.
Qed.

Section Binary64Exposure.

Variable pow : float -> float -> float.

Lemma On_exposure_change_binary64_near (v : Z) :
  (1 <= v <= 100)%Z ->
  pow_accurate pow (slider_exponent v) ->
  near (1 / 10000000000000)
       (F2R (On_exposure_change_binary64 pow v)) (On_exposure_change v).
Proof.
  intros Hv Hpow.
  pose proof (slider_exponent_ok_spec v ltac:(lia) (slider_exponents_ok v Hv)) as Hy.
  assert (H52 : 0 < / IZR (2 ^ 52) < 23 / 100000000000000000).
  { change (2 ^ 52)%Z with 4503599627370496%Z. split.
    - apply Rinv_0_lt_compat. lra.
    - apply (Rmult_lt_reg_r 4503599627370496); [lra|].
      rewrite Rinv_l by lra. lra. }
  set (E := / IZR (2 ^ 52)) in *.
  assert (Ha : 1 / 23 <= IZR v / 23 <= 100 / 23).
  { destruct Hv as [H1 H100]. apply IZR_le in H1, H100. lra. }
  set (a := IZR v / 23) in *.
  set (y := F2R (slider_exponent v)) in *.
  pose proof (near_bounds _ _ _ Hy) as By.
  assert (Hy05 : 0 <= y <= 5) by nra.
  pose proof (Rpower_10_near E y a ltac:(lra) ltac:(lra) Hy) as HP.
  pose proof (Rpower_10_range y Hy05) as RP.
  pose proof (Rpower_10_range a ltac:(lra)) as RA.
  unfold pow_accurate in Hpow. fold y in Hpow.
  set (p := pow 10%float (slider_exponent v)) in *.
  (* the computed power against the real one *)
  assert (Hpa : near (12 / 1000000000000000) (F2R p) (Rpower 10 a)).
  { pose proof (near_trans (1 / 1000000000000000) (40 * E)
                  (F2R p) (Rpower 10 y) (Rpower 10 a)
                  ltac:(lra) ltac:(lra) ltac:(lra) Hpow HP) as H.
    refine (near_weaken _ _ _ _ _ _ H); [nra | lra]. }
  (* the computed power is a positive normal number *)
  pose proof (near_bounds _ _ _ Hpow) as Bp.
  destruct (positive_normal p) as (mp & ep & Hp & Hmp & Hep).
  { change (2 ^ 17)%Z with 131072%Z. nra. }
  assert (Hc : FloatOps.Prim2SF 0.037%float
               = SpecFloat.S754_finite false 5332261958806667 (-57))
    by (vm_compute; reflexivity).
  pose proof (float_mul_near 0.037%float p _ _ _ _ Hc Hp
                ltac:(vm_compute; split; [discriminate | reflexivity])
                Hmp ltac:(lia)) as Hmul.
  fold E in Hmul.
  pose proof prefactor_near as Hpre. fold E in Hpre.
  assert (Hprod : near (13 / 1000000000000000)
                       (F2R 0.037%float * F2R p) (0.037 * Rpower 10 a)).
  { pose proof (near_mult E (12 / 1000000000000000)
                  (F2R 0.037%float) 0.037 (F2R p) (Rpower 10 a)
                  ltac:(lra) ltac:(lra) ltac:(lra) ltac:(lra) Hpre Hpa) as H.
    refine (near_weaken _ _ _ _ _ _ H); [nra | nra]. }
  unfold On_exposure_change_binary64, On_exposure_change. fold p. fold a.
  pose proof (near_trans E (13 / 1000000000000000)
                (F2R (0.037 * p)) (F2R 0.037%float * F2R p)
                (0.037 * Rpower 10 a)
                ltac:(lra) ltac:(lra) ltac:(nra) Hmul Hprod) as H.
  refine (near_weaken _ _ _ _ _ _ H); [nra | nra].
Qed.

End Binary64Exposure.

(** ** The real exposure curve, with room for rounding *)

Lemma exposure_positive (v : Z) : 0 < On_exposure_change v.
Proof.
  unfold On_exposure_change. apply Rmult_lt_0_compat; [lra | apply exp_pos].
Qed.

Lemma exposure_50_tight : 5.52003 < On_exposure_change 50 < 5.52965.
Proof.
  pose proof (exposure_pow23 50) as H.
  replace (IZR 50) with (INR 50) in H by (simpl; lra).
  rewrite Rpower_pow in H by lra.
  assert (Hpos : 0 < On_exposure_change 50 / 0.037)
    by (rewrite exposure_ratio; apply exp_pos).
  assert (H1 : 149.19 < On_exposure_change 50 / 0.037).
  { apply (pow_lt_inv _ _ 23); [lra | lra |]. rewrite H. simpl. lra. }
  assert (H2 : On_exposure_change 50 / 0.037 < 149.45).
  { apply (pow_lt_inv _ _ 23); [lra | lra |]. rewrite H. simpl. lra. }
  lra.
Qed.

Lemma exposure_1_tight : 0.040034 < On_exposure_change 1.
Proof.
  pose proof (exposure_pow23 1) as H.
  replace (IZR 1) with (INR 1) in H by (simpl; lra).
  rewrite Rpower_pow in H by lra.
  assert (Hpos : 0 < On_exposure_change 1 / 0.037)
    by (rewrite exposure_ratio; apply exp_pos).
  assert (H1 : 1.082 < On_exposure_change 1 / 0.037).
  { apply (pow_lt_inv _ _ 23); [lra | lra |]. rewrite H. simpl. lra. }
  lra.
Qed.

Lemma exposure_100_tight : On_exposure_change 100 < 824.989.
Proof.
  pose proof (exposure_pow23 100) as H.
  replace (IZR 100) with (INR 100) in H by (rewrite INR_IZR_INZ; reflexivity).
  rewrite Rpower_pow in H by lra.
  assert (Hpos : 0 < On_exposure_change 100 / 0.037)
    by (rewrite exposure_ratio; apply exp_pos).
  assert (H2 : On_exposure_change 100 / 0.037 < 22297).
  { apply (pow_lt_inv _ _ 23); [lra | lra |]. rewrite H.
    rewrite !pow_IZR. apply IZR_lt. vm_compute. reflexivity. }
  lra.
Qed.

Lemma exposure_step_lower (v : Z) :
  1.105 * On_exposure_change v < On_exposure_change (v + 1).
Proof.
  pose proof (exposure_positive v) as Hpos.
  assert (Hstep : On_exposure_change (v + 1)
                  = Rpower 10 (1 / 23) * On_exposure_change v).
  { unfold On_exposure_change. rewrite plus_IZR.
    replace ((IZR v + 1) / 23) with (1 / 23 + IZR v / 23) by field.
    rewrite Rpower_plus. ring. }
  assert (Hr : Rpower 10 (1 / 23) ^ 23 = 10).
  { rewrite <- Rpower_pow by apply exp_pos.
    rewrite Rpower_mult.
    replace (1 / 23 * INR 23) with 1 by (simpl; field).
    apply Rpower_1. lra. }
  assert (Hrpos : 0 < Rpower 10 (1 / 23)) by apply exp_pos.
  assert (Hlo : 1.105 < Rpower 10 (1 / 23)).
  { apply (pow_lt_inv _ _ 23); [lra | lra |]. rewrite Hr. simpl. lra. }
  rewrite Hstep. apply Rmult_lt_compat_r; assumption.
Qed.

(** A binary64 value with a non-positive exponent, as a quotient. *)
Lemma F2R_finite (x : float) (m : positive) (e : Z) :
  FloatOps.Prim2SF x = SpecFloat.S754_finite false m e ->
  (e <= 0)%Z ->
  F2R x = IZR (Z.pos m) / IZR (2 ^ (- e)).
Proof.
  intros H He. unfold F2R. rewrite H. cbn [SF2R].
  replace e with (- (- e))%Z at 1 by lia.
  rewrite powerRZ_2_neg by lia. unfold Rdiv. ring.
Qed.

(** ** The exposure handed to the camera *)

(** X21: the exposure as the program computes it, in binary64.  For every
    slider value from 1 to 100 at which the C library's [pow] is accurate to
    [1e-15], the number passed to [update_exposure_time] is a positive
    finite float within one part in [10^13] of [0.037 * 10^(v/23)]; it lies
    between 0.04 ms and 825 ms, for [v = 50] between 5.52 ms and 5.53 ms,
    and a larger slider value gives a strictly larger computed exposure. *)
Theorem On_exposure_change_computed
  (pow : float -> float -> float) (v : Z) :
  (1 <= v <= 100)%Z ->
  pow_accurate pow (slider_exponent v) ->
  let x := F2R (On_exposure_change_binary64 pow v) in
  Rabs (x - On_exposure_change v) <= On_exposure_change v / 10000000000000 /\
  0.04 < x < 825 /\
  (v = 50%Z -> 5.52 < x < 5.53) /\
  (forall w : Z,
     (v < w <= 100)%Z -> pow_accurate pow (slider_exponent w) ->
     x < F2R (On_exposure_change_binary64 pow w)).
Proof.
  intros Hv Hpow. cbv zeta.
  pose proof (On_exposure_change_binary64_near pow v Hv Hpow) as Hn.
  pose proof (near_bounds _ _ _ Hn) as Hb.
  pose proof (exposure_positive v) as Hpos.
  assert (H1 : 0.040034 < On_exposure_change v \/ v = 1%Z).
  { destruct (Z.eq_dec v 1) as [-> | Hne]; [now right | left].
    pose proof exposure_1_tight.
    assert (On_exposure_change 1 < On_exposure_change v)
      by (apply exposure_increasing; lia).
    lra. }
  assert (Hlo : 0.040034 < On_exposure_change v)
    by (destruct H1 as [H1 | ->]; [exact H1 | exact exposure_1_tight]).
  assert (Hhi : On_exposure_change v < 824.989).
  { destruct (Z.eq_dec v 100) as [-> | Hne]; [exact exposure_100_tight|].
    pose proof exposure_100_tight.
    assert (On_exposure_change v < On_exposure_change 100)
      by (apply exposure_increasing; lia).
    lra. }
  split.
  { unfold near in Hn. lra. }
  split; [lra|]. split.
  - intros ->. pose proof exposure_50_tight. lra.
  - intros w Hw Hpw.
    pose proof (On_exposure_change_binary64_near pow w ltac:(lia) Hpw) as Hnw.
    pose proof (near_bounds _ _ _ Hnw) as Hbw.
    pose proof (exposure_step_lower v) as Hstep.
    assert (On_exposure_change (v + 1) <= On_exposure_change w).
    { destruct (Z.eq_dec w (v + 1)) as [-> | Hne]; [lra|].
      apply Rlt_le, exposure_increasing. lia. }
    lra.
Qed.

Lemma On_exposure_change_computed_witness :
  0.04 < F2R (On_exposure_change_binary64 pow10_exact 46) < 825.
Proof.
  refine (proj1 (proj2 (On_exposure_change_computed pow10_exact 46
                          ltac:(lia) _))).
  unfold pow_accurate, near.
  replace (pow10_exact 10 (slider_exponent 46)) with 100%float
    by (vm_compute; reflexivity).
  rewrite (F2R_finite 100%float 7036874417766400 (-46)
             ltac:(vm_compute; reflexivity) ltac:(lia)).
  rewrite (F2R_finite (slider_exponent 46) 4503599627370496 (-51)
             ltac:(vm_compute; reflexivity) ltac:(lia)).
  change (2 ^ (- -46))%Z with 70368744177664%Z.
  change (2 ^ (- -51))%Z with 2251799813685248%Z.
  replace (4503599627370496 / 2251799813685248) with (INR 2) by (simpl; lra).
  rewrite Rpower_pow by lra.
  replace (7036874417766400 / 70368744177664 - 10 ^ 2) with 0 by (simpl; lra).
  rewrite Rabs_R0. simpl. lra.
Defined.

Local Close Scope R_scope.
